(** * AsmEvidenceProfile: depth windowing, region classification and montage layout

    A shallow embedding of [static/depth_plotter.py] and of the layout code of
    [static/integrated_montage.py], with the properties of the specification
    stated and settled over it.

    Conventions of the embedding.
    - Python [int] values are [Z]; the items of an [array('H')] are [Z] in
      [0, 65535], and [array.append] raises [OverflowError] outside that range.
    - Python [float] values (window means, caps, pixel coordinates) are the
      rationals [Q]: arithmetic is exact, rounding is not modelled.
    - Text is [string] over [ascii]; the helpers of the interpreter
      ([str.strip], [int], [float]) are written out for ASCII input.
    - A call that can raise returns [res A]: [Ok a] or [Raise e].
    - [dict] with string keys is [gmap string _], [set] of strings is
      [gset string].
    - [print] calls are progress notices and are left out, except in
      [DepthPlotter], where the order of effects is what is proved. *)

From Stdlib Require Import ZArith QArith Qround Qminmax Qabs Lqa Lia String Ascii List.
From stdpp Require Import gmap strings list pretty.
Import ListNotations.

Local Open Scope string_scope.
Local Open Scope list_scope.
Local Open Scope Z_scope.

(** ** Exceptions and results *)

Inductive exn : Type :=
| ValueError (msg : string)
| OverflowError
| ZeroDivisionError
| TypeError (msg : string)
| RuntimeError (msg : string)
| OSError.

Inductive res (A : Type) : Type :=
| Ok (a : A)
| Raise (e : exn).
Arguments Ok {A} a.
Arguments Raise {A} e.

#[global] Instance res_ret : MRet res := fun A a => Ok a.
#[global] Instance res_bind : MBind res := fun A B f m =>
  match m with
  | Ok a => f a
  | Raise e => Raise e
  end.
#[global] Instance res_fmap : FMap res := fun A B f m =>
  match m with
  | Ok a => Ok (f a)
  | Raise e => Raise e
  end.

Definition is_ok {A} (m : res A) : bool :=
  match m with Ok _ => true | Raise _ => false end.

(** ** Interpreter helpers *)

(** [str.isspace] on the ASCII range: tab .. carriage return, the four
    separators 28 .. 31 and the space. *)
Definition py_isspace (c : ascii) : bool :=
  let n := nat_of_ascii c in
  ((9 <=? n)%nat && (n <=? 13)%nat) || ((28 <=? n)%nat && (n <=? 32)%nat).

Fixpoint lstrip_chars (l : list ascii) : list ascii :=
  match l with
  | [] => []
  | c :: t => if py_isspace c then lstrip_chars t else l
  end.

(** [str.strip()] with no argument. *)
Definition py_strip (s : string) : string :=
  string_of_list_ascii
    (rev (lstrip_chars (rev (lstrip_chars (list_ascii_of_string s))))).

(** [s.startswith(p)]. *)
Definition py_startswith (p s : string) : bool := String.prefix p s.

(** [s[1:]]. *)
Definition py_tail (s : string) : string :=
  match s with
  | EmptyString => EmptyString
  | String _ t => t
  end.

(** Truth value of a string held in a variable that may be [None]. *)
Definition py_truthy (o : option string) : bool :=
  match o with
  | Some (String _ _) => true
  | _ => false
  end.

Definition digit_of (c : ascii) : option Z :=
  let n := nat_of_ascii c in
  if ((48 <=? n)%nat && (n <=? 57)%nat)%bool then Some (Z.of_nat n - 48) else None.

(** Digits of a decimal literal; a single underscore may separate two
    digits.  [after_digit] tells whether the previous character was a digit. *)
Fixpoint int_digits (s : string) (acc : Z) (after_digit : bool) : option Z :=
  match s with
  | EmptyString => if after_digit then Some acc else None
  | String c t =>
      match digit_of c with
      | Some d => int_digits t (10 * acc + d) true
      | None =>
          if (Ascii.eqb c "_"%char && after_digit)%bool
          then match t with
               | EmptyString => None
               | String _ _ => int_digits t acc false
               end
          else None
      end
  end.

(** [int(s)] for a [str] argument, base ten: surrounding white space, an
    optional sign, digits.  A literal that is not one raises [ValueError]. *)
Definition py_int (s : string) : res Z :=
  let s' := py_strip s in
  let parsed :=
    match s' with
    | String "-"%char t => Z.opp <$> int_digits t 0 false
    | String "+"%char t => int_digits t 0 false
    | _ => int_digits s' 0 false
    end in
  match parsed with
  | Some z => Ok z
  | None => Raise (ValueError ("invalid literal for int() with base 10: " +:+ s))
  end.

(** [array('H').append(d)]: an unsigned 16-bit item. *)
Definition array_H_append (a : list Z) (d : Z) : res (list Z) :=
  if ((0 <=? d) && (d <=? 65535))%bool then Ok (a ++ [d]) else Raise OverflowError.

(** ** [DepthParser] *)

Module DepthParser.

(** A depth file as [open] sees it: its lines, or a failure to open it. *)
Inductive depth_file : Type :=
| Unreadable
| Lines (ls : list string).

(** The object: [self.depth_file] and [self.sequences].  ([self.mean_depths]
    is derived from [sequences] after the loop and read by no operation
    below.) *)
Record t : Type := mk {
  depth_file_of : depth_file;
  sequences : gmap string (list Z)
}.

(** [DepthParser(depth_file)]. *)
Definition new (f : depth_file) : t := mk f ∅.

(** The local variables of [parse_depth_file_filtered], with the store. *)
Record state : Type := mkState {
  st_sequences : gmap string (list Z);
  current_seq : option string;
  current_depth_array : option (list Z);
  include_current : bool;
  processed_count : nat;
  skipped_count : nat
}.

Definition init (seqs : gmap string (list Z)) : state :=
  mkState seqs None None false 0 0.

(** The [if ... elif ...] that closes the current sequence: it is run at
    every header line and once more after the last line. *)
Definition commit (st : state) : state :=
  match current_depth_array st with
  | Some arr =>
      if (py_truthy (current_seq st) && include_current st)%bool then
        mkState (<[default "" (current_seq st) := arr]> (st_sequences st))
                (current_seq st) (current_depth_array st) (include_current st)
                (S (processed_count st)) (skipped_count st)
      else if (py_truthy (current_seq st) && negb (include_current st))%bool then
        mkState (st_sequences st) (current_seq st) (current_depth_array st)
                (include_current st) (processed_count st) (S (skipped_count st))
      else st
  | None =>
      if (py_truthy (current_seq st) && negb (include_current st))%bool then
        mkState (st_sequences st) (current_seq st) (current_depth_array st)
                (include_current st) (processed_count st) (S (skipped_count st))
      else st
  end.

(** A line that starts with [>]; [line] is already stripped. *)
Definition on_header (targets : gset string) (st : state) (line : string) : state :=
  let st1 := commit st in
  let seq := py_tail line in
  let inc := bool_decide (seq ∈ targets) in
  mkState (st_sequences st1) (Some seq) (if inc then Some [] else None) inc
          (processed_count st1) (skipped_count st1).

(** A body line of an included sequence: [arr] is the current array. *)
Definition on_value (st : state) (arr : list Z) (line : string) : res state :=
  match py_int line with
  | Ok depth =>
      if ((0 <=? depth) && (depth <=? 65535))%bool then
        arr' ← array_H_append arr depth;
        Ok (mkState (st_sequences st) (current_seq st) (Some arr')
                    (include_current st) (processed_count st) (skipped_count st))
      else if 65535 <? depth then
        arr' ← array_H_append arr 65535;
        Ok (mkState (st_sequences st) (current_seq st) (Some arr')
                    (include_current st) (processed_count st) (skipped_count st))
      else Ok st
  | Raise (ValueError _) => Ok st
  | Raise e => Raise e
  end.

(** One iteration of [for line in f]. *)
Definition step (targets : gset string) (st : state) (raw : string) : res state :=
  let line := py_strip raw in
  if py_startswith ">" line then Ok (on_header targets st line)
  else
    match include_current st, current_depth_array st with
    | true, Some arr => on_value st arr line
    | _, _ => Ok st
    end.

Fixpoint loop (targets : gset string) (st : state) (lines : list string) : res state :=
  match lines with
  | [] => Ok st
  | l :: rest => st' ← step targets st l; loop targets st' rest
  end.

(** [self.parse_depth_file_filtered(target_sequences)]: the parser after the
    call; its [sequences] is the dictionary that is returned. *)
Definition parse_depth_file_filtered (self : t) (targets : gset string) : res t :=
  match depth_file_of self with
  | Unreadable => Raise OSError
  | Lines ls =>
      st ← loop targets (init (sequences self)) ls;
      Ok (mk (depth_file_of self) (st_sequences (commit st)))
  end.

(** The sequence ID a line introduces, when it is a header line. *)
Definition header_id (raw : string) : option string :=
  let line := py_strip raw in
  if py_startswith ">" line then Some (py_tail line) else None.

(** The IDs present in a source. *)
Definition source_ids (ls : list string) : list string :=
  omap header_id ls.

End DepthParser.

(** ** Arrays *)

(** [len(l)] as an [int]. *)
Definition len {A} (l : list A) : Z := Z.of_nat (length l).

(** [range(n)]. *)
Definition py_range (n : Z) : list Z := map Z.of_nat (seq 0 (Z.to_nat n)).

(** A slice bound brought into [0, len]: a negative bound counts from the end. *)
Definition slice_bound (n x : Z) : Z :=
  if x <? 0 then Z.max 0 (x + n) else Z.min x n.

(** [l[a:b]]. *)
Definition py_slice {A} (l : list A) (a b : Z) : list A :=
  let lo := slice_bound (len l) a in
  let hi := slice_bound (len l) b in
  firstn (Z.to_nat (hi - lo)) (skipn (Z.to_nat lo) l).

Definition Zsum (l : list Z) : Z := fold_right Z.add 0 l.
Definition Qsum (l : list Q) : Q := fold_right Qplus (0 # 1)%Q l.

(** [np.mean] of an integer array and of a float array; the callers below
    apply it to arrays that are not empty. *)
Definition np_mean (l : list Z) : Q := (inject_Z (Zsum l) / inject_Z (len l))%Q.
Definition np_mean_f (l : list Q) : Q := (Qsum l / inject_Z (len l))%Q.

(** Signed 32-bit wrap-around, the item type of the arrays the reader yields. *)
Definition wrap32 (x : Z) : Z := (x + 2 ^ 31) mod 2 ^ 32 - 2 ^ 31.

(** [a + b] on two one-dimensional [int32] arrays: item by item, an array of
    one item being stretched to the other's length; other shapes do not
    broadcast. *)
Definition np_add (a b : list Z) : res (list Z) :=
  if len a =? len b then Ok (zip_with (fun x y => wrap32 (x + y)) a b)
  else match a, b with
       | [x], _ => Ok (map (fun y => wrap32 (x + y)) b)
       | _, [y] => Ok (map (fun x => wrap32 (x + y)) a)
       | _, _ => Raise (ValueError "operands could not be broadcast together")
       end.

(** ** [SlidingWindowProcessor] *)

Module SlidingWindowProcessor.

(** What a caller may pass as [depths_input]. *)
Inductive depths_input : Type :=
| ArrayH (l : list Z)
| NdArray (l : list Z)
| Other.

(** [np.ones(w) / w]. *)
Definition kernel (window_size : Z) : res (list Q) :=
  if window_size <? 0 then Raise (ValueError "negative dimensions are not allowed")
  else Ok (repeat (1 / inject_Z window_size)%Q (Z.to_nat window_size)).

(** Item [k] of [np.convolve(a, v, mode='valid')] for [len(v) <= len(a)]:
    the sum over [j] of [a[k + j] * v[len(v) - 1 - j]]. *)
Definition convolve_at (a : list Z) (v : list Q) (k : Z) : Q :=
  Qsum (map (fun j => Qmult (inject_Z (nth (Z.to_nat (k + j)) a 0))
                            (nth (Z.to_nat (len v - 1 - j)) v (0 # 1)%Q))
            (py_range (len v))).

Definition convolve_valid (a : list Z) (v : list Q) : res (list Q) :=
  match v with
  | [] => Raise (ValueError "v cannot be empty")
  | _ => Ok (map (convolve_at a v) (py_range (len a - len v + 1)))
  end.

(** [self.calculate_sliding_window(depths_input)]: [(positions, avg_depths)]. *)
Definition calculate_sliding_window (window_size : Z) (depths_input : depths_input)
  : res (list Z * list Q) :=
  depths ← match depths_input with
           | ArrayH l => Ok l
           | NdArray l => Ok l
           | Other => Raise (TypeError "Input depths must be an array.array or numpy.ndarray")
           end;
  if len depths =? 0 then Ok ([], [])
  else
    kernel ← kernel window_size;
    if len depths <? window_size then
      Ok ([len depths / 2], [np_mean depths])
    else
      avg_depths ← convolve_valid depths kernel;
      if len avg_depths =? 0 then
        if 0 <? len depths then Ok ([len depths / 2], [np_mean depths])
        else Ok ([], [])
      else
        let num_valid_windows := len depths - window_size + 1 in
        Ok (map (fun k => k + (window_size - 1) / 2) (py_range num_valid_windows),
            avg_depths).

End SlidingWindowProcessor.

(** ** Runs of a boolean mask *)

(** The loop shared by [_find_continuous_regions] and [_mask_to_regions]:
    [i] is the index of the head of [mask], [start] the open run. *)
Fixpoint regions_loop (mask : list bool) (i : Z) (start : option Z)
    (regions : list (Z * Z)) : list (Z * Z) * option Z :=
  match mask with
  | [] => (regions, start)
  | value :: rest =>
      match value, start with
      | true, None => regions_loop rest (i + 1) (Some i) regions
      | false, Some s => regions_loop rest (i + 1) None (regions ++ [(s, i - 1)])
      | _, _ => regions_loop rest (i + 1) start regions
      end
  end.

(** ** [DepthRegionAnalyzer] *)

Module DepthRegionAnalyzer.

Record depth_regions : Type := mk {
  zero_depth : list (Z * Z);
  low_depth : list (Z * Z);
  normal_depth : list (Z * Z)
}.

(** [self._find_continuous_regions(mask)]. *)
Definition _find_continuous_regions (mask : list bool) : list (Z * Z) :=
  if len mask =? 0 then []
  else
    let '(regions, start) := regions_loop mask 0 None [] in
    match start with
    | Some s => regions ++ [(s, len mask - 1)]
    | None => regions
    end.

(** The array that is classified: the sum when both are given. *)
Definition combined_depths (hifi_depths ont_depths : list Z) : res (list Z) :=
  if ((0 <? len ont_depths) && (0 <? len hifi_depths))%bool
  then np_add hifi_depths ont_depths
  else if 0 <? len ont_depths then Ok ont_depths
  else Ok hifi_depths.

(** [self.analyze_depth_regions(hifi_depths, ont_depths)]. *)
Definition analyze_depth_regions (min_safe_depth : Z) (hifi_depths ont_depths : list Z)
  : res depth_regions :=
  combined ← combined_depths hifi_depths ont_depths;
  Ok (mk (_find_continuous_regions (map (fun d => d =? 0) combined))
         (_find_continuous_regions
            (map (fun d => ((0 <? d) && (d <? min_safe_depth))%bool) combined))
         (_find_continuous_regions (map (fun d => min_safe_depth <=? d) combined))).

End DepthRegionAnalyzer.

(** ** [DataProcessor] *)

Module DataProcessor.

(** The loop of [_find_non_zero_segments] over [zero_mask]. *)
Fixpoint segments_loop (zero_mask : list bool) (i : Z) (start : option Z)
    (segments : list (Z * Z)) : list (Z * Z) * option Z :=
  match zero_mask with
  | [] => (segments, start)
  | is_zero :: rest =>
      match is_zero, start with
      | false, None => segments_loop rest (i + 1) (Some i) segments
      | true, Some s => segments_loop rest (i + 1) None (segments ++ [(s, i - 1)])
      | _, _ => segments_loop rest (i + 1) start segments
      end
  end.

(** [self._find_non_zero_segments(depths, zero_mask)]. *)
Definition _find_non_zero_segments (depths : list Z) (zero_mask : list bool)
  : list (Z * Z) :=
  let '(segments, start) := segments_loop zero_mask 0 None [] in
  match start with
  | Some s => segments ++ [(s, len depths - 1)]
  | None => segments
  end.

(** The three lists that [calculate_windowed_stats] fills in step. *)
Record stats : Type := mkStats {
  all_means : list Q;
  all_starts : list Z;
  all_ends : list Z
}.

(** The body of [for i in range(num_windows)]. *)
Definition window_step (window_size segment_start : Z) (segment_depths : list Z)
    (acc : stats) (i : Z) : stats :=
  let segment_length := len segment_depths in
  let window_start_in_segment := i * window_size in
  let window_end_in_segment := Z.min ((i + 1) * window_size) segment_length in
  let abs_start := segment_start + window_start_in_segment in
  let abs_end := segment_start + window_end_in_segment - 1 in
  let window_data := py_slice segment_depths window_start_in_segment window_end_in_segment in
  if 0 <? len window_data then
    mkStats (all_means acc ++ [np_mean window_data])
            (all_starts acc ++ [abs_start])
            (all_ends acc ++ [abs_end])
  else acc.

(** The body of [for segment_start, segment_end in segments]. *)
Definition segment_step (window_size : Z) (depths : list Z) (acc : stats)
    (segment : Z * Z) : res stats :=
  let '(segment_start, segment_end) := segment in
  let segment_depths := py_slice depths segment_start (segment_end + 1) in
  let segment_length := len segment_depths in
  if segment_length =? 0 then Ok acc
  else if window_size =? 0 then Raise ZeroDivisionError
  else
    let num_windows := Z.max 1 (segment_length / window_size) in
    let num_windows :=
      if negb (segment_length mod window_size =? 0) then num_windows + 1
      else num_windows in
    Ok (fold_left (window_step window_size segment_start segment_depths)
                  (py_range num_windows) acc).

Fixpoint segments_fold (window_size : Z) (depths : list Z) (acc : stats)
    (segments : list (Z * Z)) : res stats :=
  match segments with
  | [] => Ok acc
  | seg :: rest =>
      acc' ← segment_step window_size depths acc seg;
      segments_fold window_size depths acc' rest
  end.

(** [self.calculate_windowed_stats(depths)]. *)
Definition calculate_windowed_stats (window_size : Z) (depths : list Z) : res stats :=
  if len depths =? 0 then Ok (mkStats [] [] [])
  else
    let zero_mask := map (fun d => d =? 0) depths in
    let segments := _find_non_zero_segments depths zero_mask in
    segments_fold window_size depths (mkStats [] [] []) segments.

(** [self._mask_to_regions(mask)]. *)
Definition _mask_to_regions (mask : list bool) : list (Z * Z) :=
  let '(regions, start) := regions_loop mask 0 None [] in
  match start with
  | Some s => regions ++ [(s, len mask - 1)]
  | None => regions
  end.

(** [self.analyze_depth_regions(depths, min_safe_depth)]: the dictionary
    as its list of items, in insertion order. *)
Definition analyze_depth_regions (depths : list Z) (min_safe_depth : Z)
  : list (string * list (Z * Z)) :=
  if len depths =? 0 then [("zero", []); ("low", []); ("medium", [])]
  else
    let low_threshold := min_safe_depth in
    let zero_mask := map (fun d => d =? 0) depths in
    let low_mask := map (fun d => ((0 <? d) && (d <? low_threshold))%bool) depths in
    [("zero", _mask_to_regions zero_mask); ("low", _mask_to_regions low_mask)].

End DataProcessor.

(** ** Float helpers *)

Definition Qltb (a b : Q) : bool := negb (Qle_bool b a).

(** [max(a, b)] and [min(a, b)] of two numbers: the first argument unless
    the second is strictly beyond it. *)
Definition py_max (a b : Q) : Q := if Qltb a b then b else a.
Definition py_min (a b : Q) : Q := if Qltb b a then b else a.

(** ** [DepthPlotter] *)

Module DepthPlotter.

Inductive plot_mode : Type := both | hifi_only | ont_only.

(** The calls that reach the plotting library or the terminal, in the
    order they are made.  [Subplots] is [plt.subplots]: the figure exists
    from there on.  [Savefig] writes the output file. *)
Inductive event : Type :=
| Print (msg : string)
| Subplots
| Axvspan (start stop : Z) (upper : bool) (color : string)
| Bar (centers heights : list Q) (widths : list Z) (color : string)
| Axhline (y : Q) (color : string)
| SetupPlotProperties (seq_id : string) (seq_length : Z) (mode : plot_mode) (avg_depth : Q)
| CreateLegend (labels : list string)
| Savefig (path : string)
| Close.

(** The fields of the plotter that [plot_single_sequence] reads or writes. *)
Record t : Type := mk {
  hifi_color : string;
  ont_color : string;
  output_format : string;
  output_dir : string;
  max_depth_ratio : Q
}.

(** One entry of [processed_data]; [avg] is absent until it is stored. *)
Record dataset : Type := mkData {
  means : list Q;
  starts : list Z;
  ends : list Z;
  regions_of : list (string * list (Z * Z));
  color : string;
  avg : option Q
}.

(** What a call leaves behind: the events, the plotter, and the value
    returned or the exception raised. *)
Record outcome : Type := mkOutcome {
  events : list event;
  plotter : t;
  result : res (option string)
}.

Definition mismatch_message (seq_id : string) (hifi_len ont_len : Z) : string :=
  "Error: HiFi and ONT data length mismatch for sequence " +:+ seq_id +:+ ". "
  +:+ "HiFi length: " +:+ pretty hifi_len +:+ ", ONT length: " +:+ pretty ont_len +:+ ". "
  +:+ "Both datasets must have the same length.".

(** [processor.calculate_windowed_stats] and [processor.analyze_depth_regions]
    for one dataset. *)
Definition process (color : string) (window_size min_safe_depth : Z) (depths : list Z)
  : res dataset :=
  st ← DataProcessor.calculate_windowed_stats window_size depths;
  Ok (mkData (DataProcessor.all_means st) (DataProcessor.all_starts st)
             (DataProcessor.all_ends st)
             (DataProcessor.analyze_depth_regions depths min_safe_depth)
             color None).

Definition region_color (region_type : string) : option string :=
  if String.eqb region_type "zero" then Some "#FAD7DD"
  else if String.eqb region_type "low" then Some "#B7DBEA"
  else None.

(** [self._plot_depth_regions(ax, regions, positive)]. *)
Definition _plot_depth_regions (regions : list (string * list (Z * Z))) (positive : bool)
  : list event :=
  flat_map (fun '(region_type, region_list) =>
              match region_color region_type with
              | None => []
              | Some c => map (fun '(s, e) => Axvspan s e positive c) region_list
              end) regions.

(** [self._plot_windowed_data(ax, data, positive)]. *)
Definition _plot_windowed_data (self : t) (data : dataset) (positive : bool) : list event :=
  if len (means data) =? 0 then []
  else
    let centers := zip_with (fun s e => (inject_Z (s + e) / (2 # 1))%Q)
                            (starts data) (ends data) in
    let means_to_plot :=
      match avg data with
      | Some avg_ref =>
          if negb (Qeq_bool avg_ref (0 # 1)) then
            let cap := (avg_ref * max_depth_ratio self)%Q in
            map (fun m => py_min m cap) (means data)
          else means data
      | None => means data
      end in
    let plot_means := if positive then means_to_plot else map Qopp means_to_plot in
    let widths := zip_with (fun s e => e - s + 1) (starts data) (ends data) in
    let avg_depth_line :=
      match avg data with
      | Some avg_ref => if Qltb (0 # 1) avg_ref then avg_ref else np_mean_f (means data)
      | None => np_mean_f (means data)
      end in
    let avg_line := if positive then avg_depth_line else Qopp avg_depth_line in
    [Bar centers plot_means widths (color data); Axhline avg_line (color data)].

(** The average over the positions of positive depth, [0.0] without any. *)
Definition nonzero_avg (has : bool) (depths : list Z) : Q :=
  let positive := filter (fun d => 0 < d) depths in
  if (has && (0 <? len positive))%bool then np_mean positive else (0 # 1)%Q.

(** [os.path.join(a, b)]. *)
Definition path_join (a b : string) : string :=
  if py_startswith "/" b then b
  else if (String.eqb a "" || py_startswith "/" (String.string_of_list_ascii
              (rev (String.list_ascii_of_string a))))%bool then a +:+ b
  else a +:+ "/" +:+ b.

(** [self._save_plot(fig, seq_id, regions, output_dir)]: the plotter with
    its output directory, and the path written. *)
Definition _save_plot (self : t) (seq_id : string) (regions : option (list (Z * Z)))
    (output_dir_arg : option string) : t * string :=
  let self' :=
    match output_dir_arg with
    | Some (String c d) =>
        mk (hifi_color self) (ont_color self) (output_format self) (String c d)
           (max_depth_ratio self)
    | _ => self
    end in
  let filename :=
    match regions with
    | Some ((s, e) :: _) =>
        seq_id +:+ "_" +:+ pretty s +:+ "-" +:+ pretty e +:+ "." +:+ output_format self'
    | _ => seq_id +:+ "." +:+ output_format self'
    end in
  (self', path_join (output_dir self') filename).

(** [self.plot_single_sequence(seq_id, hifi_depths, ont_depths, window_size,
    regions, output_dir, min_safe_depth)]. *)
Definition plot_single_sequence (self : t) (seq_id : string)
    (hifi_depths ont_depths : option (list Z)) (window_size : Z)
    (regions : option (list (Z * Z))) (output_dir_arg : option string)
    (min_safe_depth : Z) : outcome :=
  let hifi_depths_array := default [] hifi_depths in
  let ont_depths_array := default [] ont_depths in
  let has_hifi := 0 <? len hifi_depths_array in
  let has_ont := 0 <? len ont_depths_array in
  if (negb has_hifi && negb has_ont)%bool then
    mkOutcome [Print ("Error: No depth data for sequence " +:+ seq_id)] self (Ok None)
  else if (has_hifi && has_ont
           && negb (len hifi_depths_array =? len ont_depths_array))%bool then
    mkOutcome [] self
      (Raise (ValueError (mismatch_message seq_id (len hifi_depths_array)
                                           (len ont_depths_array))))
  else
    let seq_length := Z.max (len hifi_depths_array) (len ont_depths_array) in
    let processed :=
      hifi ← (if has_hifi
              then Some <$> process (hifi_color self) window_size min_safe_depth
                                    hifi_depths_array
              else Ok None);
      ont ← (if has_ont
             then Some <$> process (ont_color self) window_size min_safe_depth
                                   ont_depths_array
             else Ok None);
      Ok (hifi, ont) in
    match processed with
    | Raise e => mkOutcome [] self (Raise e)
    | Ok (hifi, ont) =>
        let mode := if (has_hifi && has_ont)%bool then both
                    else if has_hifi then hifi_only else ont_only in
        let draw (d : option dataset) (positive : bool) : list event :=
          match d with
          | Some data => _plot_depth_regions (regions_of data) positive
                         ++ _plot_windowed_data self data positive
          | None => []
          end in
        let drawn :=
          match mode with
          | both => draw hifi true ++ draw ont false
          | hifi_only => draw hifi true
          | ont_only => draw ont true
          end in
        let hifi_avg := nonzero_avg has_hifi hifi_depths_array in
        let ont_avg := nonzero_avg has_ont ont_depths_array in
        let avg_depth :=
          match mode with
          | both => py_max hifi_avg ont_avg
          | hifi_only => if Qltb (0 # 1) hifi_avg then hifi_avg else (1 # 1)%Q
          | ont_only => if Qltb (0 # 1) ont_avg then ont_avg else (1 # 1)%Q
          end in
        let labels := (if has_hifi then ["HiFi"] else [])
                      ++ (if has_ont then ["ONT"] else [])
                      ++ ["Zero Depth"; "Low Depth"] in
        let '(self', output_path) := _save_plot self seq_id regions output_dir_arg in
        mkOutcome
          ([Subplots] ++ drawn
           ++ [SetupPlotProperties seq_id seq_length mode avg_depth;
               CreateLegend labels; Savefig output_path; Close])
          self' (Ok (Some output_path))
    end.

(** The events that create a figure or write a file. *)
Definition renders (e : event) : bool :=
  match e with
  | Subplots | Savefig _ => true
  | _ => false
  end.

End DepthPlotter.

(** ** [SynchronizedDepthReader] *)

Module SynchronizedDepthReader.

Record t : Type := mk {
  hifi_file : option DepthParser.depth_file;
  ont_file : option DepthParser.depth_file;
  target_sequences : gset string;
  regions : option (gmap string (list (Z * Z)));
  processed_sequences : gset string
}.

(** [SynchronizedDepthReader(hifi_file, ont_file, target_sequences, regions)]. *)
Definition new (hifi_file ont_file : option DepthParser.depth_file)
    (target_sequences : option (gset string))
    (regions : option (gmap string (list (Z * Z)))) : t :=
  mk hifi_file ont_file (default ∅ target_sequences) regions ∅.

(** Truth value of a set: it has a member. *)
Definition nonempty (s : gset string) : bool := negb (bool_decide (s = ∅)).

(** [self._should_process_sequence(seq_id)]. *)
Definition _should_process_sequence (self : t) (seq_id : string) : bool :=
  if (nonempty (target_sequences self)
      && negb (bool_decide (seq_id ∈ target_sequences self)))%bool then false
  else
    match regions self with
    | Some r =>
        if (negb (bool_decide (r = ∅)) && negb (bool_decide (seq_id ∈ dom r)))%bool
        then false else true
    | None => true
    end.

(** One source: parsed with a parser of its own; any exception leaves the
    map empty. *)
Definition load (file : option DepthParser.depth_file) (targets : gset string)
  : gmap string (list Z) :=
  match file with
  | None => ∅
  | Some f =>
      let parsed :=
        if nonempty targets
        then DepthParser.parse_depth_file_filtered (DepthParser.new f) targets
        else DepthParser.parse_depth_file_filtered (DepthParser.new f) ∅ in
      match parsed with
      | Ok p => DepthParser.sequences p
      | Raise _ => ∅
      end
  end.

(** [self.read_sequences()]: the tuples in the order they are yielded, and
    the reader once the generator is exhausted.  The order in which a set
    is iterated is not fixed by the source; [elements] stands for it. *)
Definition read_sequences (self : t) : list (string * list Z * list Z) * t :=
  let targets := if nonempty (target_sequences self) then target_sequences self else ∅ in
  let hifi_map := load (hifi_file self) targets in
  let ont_map := load (ont_file self) targets in
  let seq_ids :=
    if nonempty targets then elements targets
    else elements (dom hifi_map ∪ dom ont_map) in
  fold_left
    (fun '(yielded, self) seq_id =>
       if negb (_should_process_sequence self seq_id) then (yielded, self)
       else
         let self' := mk (hifi_file self) (ont_file self) (target_sequences self)
                         (regions self) ({[seq_id]} ∪ processed_sequences self) in
         let hifi_arr := default [] (hifi_map !! seq_id) in
         let ont_arr := default [] (ont_map !! seq_id) in
         (yielded ++ [(seq_id, hifi_arr, ont_arr)], self'))
    seq_ids ([], self).

End SynchronizedDepthReader.

(** ** Pattern matching on markup *)

Definition dquote : string := String (ascii_of_nat 34) EmptyString.

Fixpoint str_drop (n : nat) (s : string) : string :=
  match n, s with
  | O, _ => s
  | S n', String _ t => str_drop n' t
  | S _, EmptyString => EmptyString
  end.

(** [pat in s]. *)
Fixpoint str_contains (pat s : string) : bool :=
  (String.prefix pat s
   || match s with
      | EmptyString => false
      | String _ t => str_contains pat t
      end)%bool.

(** The longest prefix of [s] whose characters satisfy [p], and the rest. *)
Fixpoint str_span (p : ascii -> bool) (s : string) : string * string :=
  match s with
  | EmptyString => (EmptyString, EmptyString)
  | String c t =>
      if p c then let '(run, rest) := str_span p t in (String c run, rest)
      else (EmptyString, s)
  end.

Definition is_gt (c : ascii) : bool := Ascii.eqb c ">"%char.

Definition is_digit (c : ascii) : bool :=
  let n := nat_of_ascii c in ((48 <=? n)%nat && (n <=? 57)%nat)%bool.

(** The class [\w] on the ASCII range. *)
Definition is_word (c : ascii) : bool :=
  let n := nat_of_ascii c in
  (is_digit c || ((65 <=? n)%nat && (n <=? 90)%nat)
   || ((97 <=? n)%nat && (n <=? 122)%nat) || Ascii.eqb c "_"%char)%bool.

(** The class [[\d\.]]. *)
Definition is_num_char (c : ascii) : bool := (is_digit c || Ascii.eqb c "."%char)%bool.

(** [re.search('<rect[^>]*' + attr + '[^>]*>', s)]: the leftmost [<rect]
    whose text up to the next [>] contains [attr]; the match runs from
    [<rect] to that [>]. *)
Fixpoint search_rect (attr : string) (s : string) : option string :=
  match s with
  | EmptyString => None
  | String _ t =>
      if String.prefix "<rect" s then
        match str_span (fun c => negb (is_gt c)) (str_drop 5 s) with
        | (body, String _ _) =>
            if str_contains attr body then Some ("<rect" +:+ body +:+ ">")
            else search_rect attr t
        | (_, EmptyString) => search_rect attr t
        end
      else search_rect attr t
  end.

(** The search for an attribute inside a tag, pattern: word boundary, the
    name, an equals sign, a quote, one or more of [[\d\.]] as group 1, a
    quote.  The result is group 1 of the leftmost match.  [prev] is the
    character before [s]. *)
Fixpoint search_attr (name : string) (prev : option ascii) (s : string) : option string :=
  match s with
  | EmptyString => None
  | String c t =>
      let boundary := xorb (match prev with Some p => is_word p | None => false end)
                           (is_word c) in
      let opening := name +:+ "=" +:+ dquote in
      let here :=
        if (boundary && String.prefix opening s)%bool then
          match str_span is_num_char (str_drop (String.length opening) s) with
          | (String d run, rest) =>
              if String.prefix dquote rest then Some (String d run) else None
          | (EmptyString, _) => None
          end
        else None in
      match here with
      | Some g => Some g
      | None => search_attr name (Some c) t
      end
  end.

Fixpoint digits_value (s : string) (acc : Z) : Z :=
  match s with
  | EmptyString => acc
  | String c t => digits_value t (10 * acc + (Z.of_nat (nat_of_ascii c) - 48))
  end.

(** [float(s)] for a text of digits and dots: at most one dot and at least
    one digit, or [ValueError]. *)
Definition py_float (s : string) : res Q :=
  let '(whole, rest) := str_span is_digit s in
  let frac := match rest with String _ f => f | EmptyString => EmptyString end in
  let '(frac_digits, tail) := str_span is_digit frac in
  match tail, rest with
  | String _ _, _ => Raise (ValueError ("could not convert string to float: " +:+ s))
  | EmptyString, String c _ =>
      if negb (Ascii.eqb c "."%char)
      then Raise (ValueError ("could not convert string to float: " +:+ s))
      else if (String.length whole + String.length frac_digits =? 0)%nat
      then Raise (ValueError ("could not convert string to float: " +:+ s))
      else Ok (inject_Z (digits_value whole 0)
               + inject_Z (digits_value frac_digits 0)
                 / inject_Z (10 ^ Z.of_nat (String.length frac_digits)))%Q
  | EmptyString, EmptyString =>
      if (String.length whole + String.length frac_digits =? 0)%nat
      then Raise (ValueError ("could not convert string to float: " +:+ s))
      else Ok (inject_Z (digits_value whole 0)
               + inject_Z (digits_value frac_digits 0)
                 / inject_Z (10 ^ Z.of_nat (String.length frac_digits)))%Q
  end.

(** ** [integrated_montage] *)

Module Montage.

(** A box [(x, y, w, h)], or its corners [(x1, y1, x2, y2)]. *)
Definition box : Type := Q * Q * Q * Q.

(** [_attr(name, default)] inside [_extract_scale_bbox]. *)
Definition _attr (tag name : string) (default : Q) : res Q :=
  match search_attr name None tag with
  | Some g => py_float g
  | None => Ok default
  end.

(** [_extract_scale_bbox(inner_svg)]. *)
Definition _extract_scale_bbox (inner_svg : string) : res (option box) :=
  match search_rect ("class=" +:+ dquote +:+ "scale-bbox" +:+ dquote) inner_svg with
  | None => Ok None
  | Some tag =>
      x ← _attr tag "x" (0 # 1)%Q;
      y ← _attr tag "y" (0 # 1)%Q;
      w ← _attr tag "width" (0 # 1)%Q;
      h ← _attr tag "height" (0 # 1)%Q;
      Ok (Some (x, y, w, h))
  end.

(** [_overlaps(ax1, ay1, ax2, ay2, bx1, by1, bx2, by2)]. *)
Definition _overlaps (a b : box) : bool :=
  let '(ax1, ay1, ax2, ay2) := a in
  let '(bx1, by1, bx2, by2) := b in
  negb (Qle_bool ax2 bx1 || Qle_bool bx2 ax1 || Qle_bool ay2 by1 || Qle_bool by2 ay1).

(** [_scale_bbox_abs(inner_svg_text)], with [middle_y] of the enclosing call. *)
Definition _scale_bbox_abs (middle_y : Q) (inner_svg_text : string) : res (option box) :=
  bbox ← _extract_scale_bbox inner_svg_text;
  match bbox with
  | None => Ok None
  | Some (sx, sy, sw, sh) =>
      Ok (Some (sx, sy + middle_y, sx + sw, sy + sh + middle_y)%Q)
  end.

(** What [_extract_inner_svg] returns for one rendering. *)
Record render : Type := mkRender {
  inner : string;
  width : Z;
  align_height : Z
}.

(** The arguments of [run] that the layout reads. *)
Record args : Type := mkArgs {
  depth_height : Z;
  panel_gap : option Z;
  top_margin : Z;
  svg_height : Z;
  scale_y_ratio : Q;
  window_size : Z;
  max_depth_ratio : Q;
  min_safe_depth : Z
}.

(** [round(x)] on a float: to the nearest integer, a tie to the even one. *)
Definition py_round (x : Q) : Z :=
  let f := Qfloor x in
  let d := (x - inject_Z f)%Q in
  if Qltb d (1 # 2) then f
  else if Qltb (1 # 2) d then f + 1
  else if Z.even f then f else f + 1.

(** [max(0.0, min(1.0, x))]. *)
Definition clamp01 (x : Q) : Q := py_max (0 # 1) (py_min (1 # 1) x).

(** The placement of the two combined panels around the track rows. *)
Record layout : Type := mkLayout {
  x_left_top : Q; x_right_top : Q;
  x_left_bottom : Q; x_right_bottom : Q;
  y_top : Q; h_top : Q; y_bottom : Q; h_bottom : Q;
  block_y_top : Q; block_y_bottom : Q;
  middle_y : Q;
  gap_of : Z
}.

Definition place (a : args) (top_track bottom_track : box) : layout :=
  let '(x_left_top, y_top, w_top, h_top) := top_track in
  let '(x_left_bottom, y_bottom, w_bottom, h_bottom) := bottom_track in
  let x_right_top := (x_left_top + w_top)%Q in
  let x_right_bottom := (x_left_bottom + w_bottom)%Q in
  let dh := inject_Z (depth_height a) in
  let panel_gap :=
    match panel_gap a with
    | Some g => g
    | None => Z.max 1 (py_round (dh * (1 # 10)))
    end in
  let block_y_top := (y_top - inject_Z panel_gap - (2 # 1) * dh)%Q in
  let block_y_bottom := (y_bottom + h_bottom + inject_Z panel_gap)%Q in
  let global_offset := if Qltb block_y_top (0 # 1) then (- block_y_top)%Q else (0 # 1)%Q in
  let top_margin := Z.max 0 (top_margin a) in
  let shift := if 0 <? top_margin then (global_offset + inject_Z top_margin)%Q
               else global_offset in
  mkLayout x_left_top x_right_top x_left_bottom x_right_bottom
           (y_top + shift)%Q h_top (y_bottom + shift)%Q h_bottom
           (block_y_top + shift)%Q (block_y_bottom + shift)%Q
           shift panel_gap.

(** [_depth_rects()]. *)
Definition _depth_rects (a : args) (l : layout) : list box :=
  let dh := inject_Z (depth_height a) in
  [ (x_left_top l, block_y_top l, x_right_top l, block_y_top l + (2 # 1) * dh)%Q;
    (x_left_bottom l, block_y_bottom l, x_right_bottom l, block_y_bottom l + (2 # 1) * dh)%Q ].

(** [any(_overlaps(sb..., r...) for r in depth_rects)]. *)
Definition hits_depth (a : args) (l : layout) (sb : box) : bool :=
  existsb (_overlaps sb) (_depth_rects a l).

Definition default_hits_depth (a : args) (l : layout) : bool :=
  let dh := inject_Z (depth_height a) in
  let default_abs_y := (middle_y l + inject_Z (svg_height a) * scale_y_ratio a)%Q in
  ((Qle_bool (block_y_top l) default_abs_y
    && Qle_bool default_abs_y (block_y_top l + (2 # 1) * dh))
   || (Qle_bool (block_y_bottom l) default_abs_y
       && Qle_bool default_abs_y (block_y_bottom l + (2 # 1) * dh)))%bool.

Section Relocate.

(** The alignment-diagram generator with every argument but
    [scale_y_ratio] fixed: [LV.main(lv_args)] followed by
    [_extract_inner_svg(_read_file(tmp_svg_path))]. *)
Variable regenerate : Q -> render.

Variable a : args.
Variable l : layout.

(** The two [for ratio in [...]] loops have the same body; [keep] is what
    [inner], [width] and [align_height] hold when no candidate is taken.
    The first component lists the ratios the generator was run with. *)
Fixpoint try_candidates (candidates : list Q) (keep : render) : list Q * res render :=
  match candidates with
  | [] => ([], Ok keep)
  | ratio :: rest =>
      let attempt := regenerate ratio in
      match _scale_bbox_abs (middle_y l) (inner attempt) with
      | Raise e => ([ratio], Raise e)
      | Ok None => ([ratio], Ok attempt)
      | Ok (Some sb) =>
          if hits_depth a l sb then
            let '(tried, r) := try_candidates rest keep in (ratio :: tried, r)
          else ([ratio], Ok attempt)
      end
  end.

Definition safe_ratio : Q :=
  let gap := py_max (0 # 1) (y_bottom l - (y_top l + h_top l))%Q in
  let safe_y := py_min (y_bottom l - (10 # 1))%Q
                       (y_top l + h_top l + gap * (75 # 100))%Q in
  clamp01 (safe_y / inject_Z (svg_height a)).

Definition fallback_ratios : list Q :=
  let gap := py_max (0 # 1) (y_bottom l - (y_top l + h_top l))%Q in
  [ clamp01 ((y_top l + h_top l + gap * (6 # 10)) / inject_Z (svg_height a));
    clamp01 ((y_top l + h_top l + gap * (3 # 10)) / inject_Z (svg_height a));
    (95 # 100)%Q ].

(** The scale-bar part of [run], from the first rendering [first] on:
    the ratios the generator was run with, and the rendering that is
    composed into the output. *)
Definition relocate_scale_bar (first : render) : list Q * res render :=
  if default_hits_depth a l then
    if svg_height a =? 0 then ([], Raise ZeroDivisionError)
    else
      let inner_new := regenerate safe_ratio in
      match _scale_bbox_abs (middle_y l) (inner inner_new) with
      | Raise e => ([safe_ratio], Raise e)
      | Ok None => ([safe_ratio], Ok inner_new)
      | Ok (Some sb_abs_try) =>
          if hits_depth a l sb_abs_try then
            let '(tried, r) := try_candidates fallback_ratios inner_new in
            (safe_ratio :: tried, r)
          else ([safe_ratio], Ok inner_new)
      end
  else
    match _scale_bbox_abs (middle_y l) (inner first) with
    | Raise e => ([], Raise e)
    | Ok None => ([], Ok first)
    | Ok (Some sb_abs) =>
        if hits_depth a l sb_abs then
          try_candidates [(42 # 100)%Q; (12 # 100)%Q; (95 # 100)%Q] first
        else ([], Ok first)
    end.

(** A rendering is taken when it has no scale-bar box or one that
    overlaps neither panel. *)
Definition accepted (ratio : Q) : bool :=
  match _scale_bbox_abs (middle_y l) (inner (regenerate ratio)) with
  | Ok None => true
  | Ok (Some sb) => negb (hits_depth a l sb)
  | Raise _ => false
  end.

(** It is passed over when its scale-bar box overlaps a panel. *)
Definition rejected (ratio : Q) : bool :=
  match _scale_bbox_abs (middle_y l) (inner (regenerate ratio)) with
  | Ok (Some sb) => hits_depth a l sb
  | _ => false
  end.

End Relocate.

(** [run] up to the scale-bar search: the rows found in the first
    rendering decide the layout. *)
Definition run_scale_bar (regenerate : Q -> render) (a : args) (tracks : list box)
    (first : render) : list Q * res render :=
  match tracks with
  | [] => ([], Raise (RuntimeError "Failed to identify chromosome tracks in LINKVIEW SVG."))
  | top_track :: rest =>
      let bottom_track := match rest with b :: _ => b | [] => top_track end in
      relocate_scale_bar regenerate a (place a top_track bottom_track) first
  end.

(** The elements [build_bars_for_seq] emits, before their coordinates are
    printed with two decimals. *)
Inductive svg_elem : Type :=
| Rect (x y w h : Q) (cls : string)
| Line (x1 y1 x2 y2 : Q) (cls : string).

(** The average of the positive items, [0.0] without any. *)
Definition avg_nonzero (arr : list Z) : Q :=
  let nz := filter (fun v => 0 < v) arr in
  if 0 <? len nz then (inject_Z (Zsum nz) / inject_Z (len nz))%Q else (0 # 1)%Q.

(** The cap of one dataset. *)
Definition cap_of (max_ratio : Q) (arr : list Z) : Q :=
  if Qltb (0 # 1) (avg_nonzero arr) then (avg_nonzero arr * max_ratio)%Q else (0 # 1)%Q.

(** [global_cap]: the larger cap, or [1.0] when that is not positive. *)
Definition global_cap_of (max_ratio : Q) (h n : list Z) : Q :=
  let global_cap := py_max (cap_of max_ratio h) (cap_of max_ratio n) in
  if Qle_bool global_cap (0 # 1) then (1 # 1)%Q else global_cap.

(** The cap a mean is clamped to: [cap_h if cap_h > 0 else global_cap]. *)
Definition clamp_cap (own_cap global_cap : Q) : Q :=
  if Qltb (0 # 1) own_cap then own_cap else global_cap.

(** [x_left + (i / max(1, seq_len - 1)) * span]. *)
Definition scale_x (x_left span : Q) (seq_len : Z) (i : Q) : Q :=
  (x_left + (i / inject_Z (Z.max 1 (seq_len - 1))) * span)%Q.

(** The background rectangles of one half. *)
Definition backgrounds (a : args) (regions : list (string * list (Z * Z)))
    (x_left span : Q) (seq_len : Z) (y : Q) : list svg_elem :=
  flat_map
    (fun '(region_type, region_list) =>
       let cls := if String.eqb region_type "zero" then Some "depth-zero-bg"
                  else if String.eqb region_type "low" then Some "depth-low-bg"
                  else None in
       match cls with
       | None => []
       | Some cls =>
           flat_map
             (fun '(s, e) =>
                let x1 := scale_x x_left span seq_len (inject_Z s) in
                let x2 := scale_x x_left span seq_len (inject_Z e) in
                let w_px_bg := py_max (0 # 1) (x2 - x1)%Q in
                if Qle_bool w_px_bg (0 # 1) then []
                else [Rect x1 y w_px_bg (inject_Z (depth_height a)) cls])
             region_list
       end)
    regions.

(** The height in pixels of a mean: clamped to [cap], scaled by [global_cap]. *)
Definition bar_height (a : args) (cap global_cap m : Q) : Q :=
  (inject_Z (depth_height a) * (py_min m cap / global_cap))%Q.

(** One bar: [upper] is the HiFi half, drawn up from the baseline. *)
Definition bar (a : args) (upper : bool) (cap global_cap x_left span : Q) (seq_len : Z)
    (baseline_y : Q) (mse : Q * Z * Z) : svg_elem :=
  let '(m, s, e) := mse in
  let center := (inject_Z (s + e) / (2 # 1))%Q in
  let width_bp := e - s + 1 in
  let x_center := scale_x x_left span seq_len center in
  let w_px := (span * (inject_Z width_bp / inject_Z (Z.max 1 (seq_len - 1))))%Q in
  let h_px := bar_height a cap global_cap m in
  let x_rect := (x_center - w_px / (2 # 1))%Q in
  let y_rect := if upper then (baseline_y - h_px)%Q else baseline_y in
  Rect x_rect y_rect w_px h_px (if upper then "depth-top" else "depth-bottom").

(** [zip(means, starts, ends)]. *)
Definition zip3 (st : DataProcessor.stats) : list (Q * Z * Z) :=
  zip (zip (DataProcessor.all_means st) (DataProcessor.all_starts st))
      (DataProcessor.all_ends st).

(** The dashed mean line of one half, when the mean of the window means is
    positive. *)
Definition mean_line (a : args) (upper : bool) (cap global_cap x_left x_right baseline_y : Q)
    (means : list Q) : list svg_elem :=
  let avg := if 0 <? len means then np_mean_f means else (0 # 1)%Q in
  if Qltb (0 # 1) avg then
    let off := bar_height a cap global_cap avg in
    let y_mean := if upper then (baseline_y - off)%Q else (baseline_y + off)%Q in
    [Line x_left y_mean x_right y_mean "mean"]
  else [].

(** One [if len(...) > 0:] block of [build_bars_for_seq]: the background
    rectangles and the bars with the mean line of one dataset.  The two
    blocks differ in the side of the baseline they draw on. *)
Definition half_panel (a : args) (upper : bool) (arr : list Z) (own_cap global_cap : Q)
    (x_left x_right : Q) (seq_len : Z) (baseline_y : Q)
  : res (list svg_elem * list svg_elem) :=
  if 0 <? len arr then
    st ← DataProcessor.calculate_windowed_stats (window_size a) arr;
    let regions := DataProcessor.analyze_depth_regions arr (min_safe_depth a) in
    let span := (x_right - x_left)%Q in
    let bg_y := if upper then (baseline_y - inject_Z (depth_height a))%Q else baseline_y in
    let cap := clamp_cap own_cap global_cap in
    Ok (backgrounds a regions x_left span seq_len bg_y,
        map (bar a upper cap global_cap x_left span seq_len baseline_y) (zip3 st)
        ++ mean_line a upper cap global_cap x_left x_right baseline_y
                     (DataProcessor.all_means st))
  else Ok ([], []).

(** [build_bars_for_seq(hifi_arr, ont_arr, x_left, x_right, panel_origin_y)]:
    [(bg_elems, bars_top, bars_bottom, baseline_y)]. *)
Definition build_bars_for_seq (a : args) (hifi_arr ont_arr : option (list Z))
    (x_left x_right panel_origin_y : Q)
  : res (list svg_elem * list svg_elem * list svg_elem * Q) :=
  let h := default [] hifi_arr in
  let n := default [] ont_arr in
  let seq_len := Z.max (len h) (len n) in
  let baseline_y := (panel_origin_y + inject_Z (depth_height a))%Q in
  if seq_len =? 0 then Ok ([], [], [], baseline_y)
  else
    let cap_h := cap_of (max_depth_ratio a) h in
    let cap_n := cap_of (max_depth_ratio a) n in
    let global_cap := global_cap_of (max_depth_ratio a) h n in
    '(bg_h, bars_top) ← half_panel a true h cap_h global_cap x_left x_right seq_len baseline_y;
    '(bg_n, bars_bottom) ← half_panel a false n cap_n global_cap x_left x_right seq_len baseline_y;
    Ok (bg_h ++ bg_n, bars_top, bars_bottom, baseline_y).

End Montage.

(** ** Notions used in the statements *)

(** What the specification says a body line contributes to the array of its
    sequence: nothing when it is not an integer or is negative, 65535 when
    it is above 65535, the value itself otherwise. *)
Definition stored_items (line : string) : list Z :=
  match py_int line with
  | Ok d => if d <? 0 then [] else if 65535 <? d then [65535] else [d]
  | Raise _ => []
  end.

(** What holds between two lines of a parse: the store has the target
    sequences, with a name, whose header came before the current one; a
    sequence is included exactly when it is a target, and then it has an
    array. *)
Definition parser_inv (targets : gset string) (st : DepthParser.state)
    (prev : list string) : Prop :=
  (∀ id, is_Some (DepthParser.st_sequences st !! id)
         ↔ id ∈ targets ∧ id ≠ "" ∧ id ∈ prev)
  ∧ DepthParser.include_current st
    = match DepthParser.current_seq st with
      | Some c => bool_decide (c ∈ targets)
      | None => false
      end
  ∧ (DepthParser.include_current st = true
     → is_Some (DepthParser.current_depth_array st)).

(** Index [k] lies in one of the closed intervals. *)
Definition covers (rs : list (Z * Z)) (k : Z) : Prop :=
  Exists (λ r, r.1 ≤ k ≤ r.2) rs.

(** Two closed intervals share no index. *)
Definition interval_disjoint (a b : Z * Z) : Prop := a.2 < b.1 ∨ b.2 < a.1.

(** The three region lists of a result, one after the other. *)
Definition all_regions (r : DepthRegionAnalyzer.depth_regions) : list (Z * Z) :=
  DepthRegionAnalyzer.zero_depth r ++ DepthRegionAnalyzer.low_depth r
  ++ DepthRegionAnalyzer.normal_depth r.

(** The result of [regions_loop] with the run still open closed at [last]. *)
Definition close_run (p : list (Z * Z) * option Z) (last : Z) : list (Z * Z) :=
  match p.2 with
  | Some s => p.1 ++ [(s, last)]
  | None => p.1
  end.

(** The runs found from index [i] on, [start] being the run open at [i]. *)
Definition runs (mask : list bool) (i : Z) (start : option Z) : list (Z * Z) :=
  close_run (regions_loop mask i start []) (i + len mask - 1).

(** ** A generator that never moves its scale bar *)

Module ScaleBarExample.
Import Montage.

(** The default arguments of the command line. *)
Definition example_args : args := mkArgs 160 None 40 800 (9 # 10) 1000 (3 # 1) 5.

Definition top_track : box := ((100 # 1), (300 # 1), (1000 # 1), (15 # 1))%Q.
Definition bottom_track : box := ((100 # 1), (600 # 1), (1000 # 1), (15 # 1))%Q.

(** A generator whose scale bar stays over the lower panel whatever the
    ratio; the renderings differ in the x of the box. *)
Definition stubborn (ratio : Q) : render :=
  mkRender
    ("<g><rect class=" +:+ dquote +:+ "scale-bbox" +:+ dquote
     +:+ " x=" +:+ dquote
     +:+ (if Qeq_bool ratio (95 # 100) then "101" else "100") +:+ dquote
     +:+ " y=" +:+ dquote +:+ "700.5" +:+ dquote
     +:+ " width=" +:+ dquote +:+ "50" +:+ dquote
     +:+ " height=" +:+ dquote +:+ "20" +:+ dquote +:+ "/></g>")
    1200 800.

Definition first_render : render := stubborn (9 # 10).

End ScaleBarExample.

(** ** Notions used in the statements on the combined panel *)

(** What every step of [calculate_windowed_stats] keeps: no mean is
    negative, and the three lists grow together. *)
Definition stats_ok (st : DataProcessor.stats) : Prop :=
  Forall (λ m, (0 <= m)%Q) (DataProcessor.all_means st)
  ∧ length (DataProcessor.all_starts st) = length (DataProcessor.all_means st)
  ∧ length (DataProcessor.all_ends st) = length (DataProcessor.all_means st).

(** The heights of the rectangles of a list of elements, in order. *)
Definition rect_heights (l : list Montage.svg_elem) : list Q :=
  flat_map (λ e, match e with
                 | Montage.Rect _ _ _ h _ => [h]
                 | Montage.Line _ _ _ _ _ => []
                 end) l.

(** An element lies in the horizontal band from [lo] down to [hi] (y grows
    downwards): a rectangle with its whole height, a line with both ends. *)
Definition in_band (lo hi : Q) (e : Montage.svg_elem) : Prop :=
  match e with
  | Montage.Rect _ y _ h _ => (0 <= h /\ lo <= y /\ y + h <= hi)%Q
  | Montage.Line _ y1 _ y2 _ => (lo <= y1 /\ y1 <= hi /\ lo <= y2 /\ y2 <= hi)%Q
  end.

(** From the words of the specification: the shared cap is the larger of
    the two nonzero means times the ratio. *)
Definition spec_shared_cap (max_ratio : Q) (A B : list Z) : Q :=
  Qmax (Montage.avg_nonzero A * max_ratio) (Montage.avg_nonzero B * max_ratio).

(** From the words of the specification: a window mean is clamped to the
    cap of its own dataset, then divided by the shared cap. *)
Definition spec_bar_height (depth_height : Z) (max_ratio : Q) (A B own : list Z) (m : Q) : Q :=
  (inject_Z depth_height
   * (Qmin m (Montage.avg_nonzero own * max_ratio) / spec_shared_cap max_ratio A B))%Q.

(** ** Ratios that are not positive *)

Module ZeroRatioExample.
Import Montage.

(** The default arguments with [--max-depth-ratio 0] and with
    [--max-depth-ratio -1]. *)
Definition zero_ratio_args : args := mkArgs 160 None 40 800 (9 # 10) 1000 (0 # 1) 5.
Definition negative_ratio_args : args := mkArgs 160 None 40 800 (9 # 10) 1000 (-1 # 1) 5.

End ZeroRatioExample.

(** * Further functions of the two files *)

(** ** More interpreter helpers *)

(** [s.split(sep)] for a separator of one character. *)
Fixpoint py_split (sep : ascii) (s : string) : list string :=
  match s with
  | EmptyString => [EmptyString]
  | String c t =>
      if Ascii.eqb c sep then EmptyString :: py_split sep t
      else match py_split sep t with
           | h :: r => String c h :: r
           | [] => [String c EmptyString]
           end
  end.

Definition tab : ascii := ascii_of_nat 9.

(** Insertion of [x] behind the items that are not above it: the step of a
    stable sort. *)
Fixpoint insert_sorted {A} (lt : A → A → bool) (x : A) (l : list A) : list A :=
  match l with
  | [] => [x]
  | y :: r => if lt x y then x :: y :: r else y :: insert_sorted lt x r
  end.

(** [list.sort()], as a stable sort by the strict order [lt]. *)
Definition py_sort {A} (lt : A → A → bool) (l : list A) : list A :=
  fold_left (λ acc x, insert_sorted lt x acc) l [].

(** The order of two tuples of two integers. *)
Definition pair_ltb (a b : Z * Z) : bool :=
  ((a.1 <? b.1) || ((a.1 =? b.1) && (a.2 <? b.2)))%bool.

(** ** [BedRegionParser] *)

Module BedRegionParser.

(** The body of the loop over the lines of the file. *)
Definition bed_line (regions : gmap string (list (Z * Z))) (raw : string)
  : res (gmap string (list (Z * Z))) :=
  let line := py_strip raw in
  if (negb (String.eqb line "") && negb (py_startswith "#" line))%bool then
    match py_split tab line with
    | chrom :: p1 :: p2 :: _ =>
        start ← py_int p1;
        stop ← py_int p2;
        Ok (<[chrom := default [] (regions !! chrom) ++ [(start, stop)]]> regions)
    | _ => Ok regions
    end
  else Ok regions.

Fixpoint bed_lines (regions : gmap string (list (Z * Z))) (lines : list string)
  : res (gmap string (list (Z * Z))) :=
  match lines with
  | [] => Ok regions
  | l :: rest => regions' ← bed_line regions l; bed_lines regions' rest
  end.

(** [self.parse_bed_regions()]. *)
Definition parse_bed_regions (bed_file : DepthParser.depth_file)
  : res (gmap string (list (Z * Z))) :=
  match bed_file with
  | DepthParser.Unreadable => Raise OSError
  | DepthParser.Lines ls =>
      match bed_lines ∅ ls with
      | Ok regions => Ok (fmap (M := gmap string) (py_sort pair_ltb) regions)
      | Raise e => Raise e
      end
  end.

End BedRegionParser.

(** ** [FAIParser] *)

Module FAIParser.

Definition fai_line (seq_lengths : gmap string Z) (raw : string) : res (gmap string Z) :=
  match py_split tab (py_strip raw) with
  | seq_id :: p1 :: _ =>
      length ← py_int p1;
      Ok (<[seq_id := length]> seq_lengths)
  | _ => Ok seq_lengths
  end.

Fixpoint fai_lines (seq_lengths : gmap string Z) (lines : list string)
  : res (gmap string Z) :=
  match lines with
  | [] => Ok seq_lengths
  | l :: rest => m ← fai_line seq_lengths l; fai_lines m rest
  end.

(** [self.parse_fai()]. *)
Definition parse_fai (fai_file : DepthParser.depth_file) : res (gmap string Z) :=
  match fai_file with
  | DepthParser.Unreadable => Raise OSError
  | DepthParser.Lines ls => fai_lines ∅ ls
  end.

End FAIParser.

(** ** [DepthParser.get_region_depths] *)

Module DepthParserRegion.

(** [self.get_region_depths(seq_id, start, end)]. *)
Definition get_region_depths (self : DepthParser.t) (seq_id : string) (start stop : Z)
  : list Z :=
  match DepthParser.sequences self !! seq_id with
  | None => []
  | Some depth_array_obj =>
      let actual_start := Z.max 0 start in
      let actual_end := Z.min (len depth_array_obj) (stop + 1) in
      if actual_end <=? actual_start then []
      else py_slice depth_array_obj actual_start actual_end
  end.

End DepthParserRegion.

(** ** [SlidingWindowProcessor.merge_consecutive_windows] *)

Module WindowMerge.

(** A result, or the [IndexError] of an index past the end of [positions]. *)
Inductive indexed (A : Type) : Type :=
| Found (a : A)
| IndexError.
Arguments Found {A} a.
Arguments IndexError {A}.

(** The variables of the loop: the regions and depths saved so far and the
    region that is open. *)
Record merge_state : Type := mkMerge {
  merged_regions : list (Z * Z);
  merged_depths : list Q;
  current_start : Z;
  current_depth : Q;
  current_end : Z
}.

(** The body of [for i in range(1, len(depths))]. *)
Definition merge_step (positions : list Z) (depths : list Q) (st : merge_state) (i : nat)
  : indexed merge_state :=
  match depths !! i, positions !! i with
  | Some d, Some p =>
      if Qltb (Qabs (d - current_depth st)) (1 # 10) then
        Found (mkMerge (merged_regions st) (merged_depths st)
                       (current_start st) (current_depth st) p)
      else
        Found (mkMerge (merged_regions st ++ [(current_start st, current_end st)])
                       (merged_depths st ++ [current_depth st]) p d p)
  | _, _ => IndexError
  end.

Fixpoint merge_loop (positions : list Z) (depths : list Q) (st : merge_state)
    (indexes : list nat) : indexed merge_state :=
  match indexes with
  | [] => Found st
  | i :: rest =>
      match merge_step positions depths st i with
      | Found st' => merge_loop positions depths st' rest
      | IndexError => IndexError
      end
  end.

(** [self.merge_consecutive_windows(positions, depths)]. *)
Definition merge_consecutive_windows (positions : list Z) (depths : list Q)
  : indexed (list (Z * Z) * list Q) :=
  match depths with
  | [] => Found ([], [])
  | d0 :: _ =>
      match positions with
      | [] => IndexError
      | p0 :: _ =>
          match merge_loop positions depths (mkMerge [] [] p0 d0 p0)
                           (seq 1 (length depths - 1)) with
          | Found st =>
              Found (merged_regions st ++ [(current_start st, current_end st)],
                     merged_depths st ++ [current_depth st])
          | IndexError => IndexError
          end
      end
  end.

End WindowMerge.

(** ** Track geometry and coordinate mapping of [integrated_montage] *)

Module MontageGeometry.

(** [re.finditer] for the pattern of a [rect] tag holding [attr]: the
    matches from left to right, the search going on behind each match.
    [skip] counts the characters of the last match still to be passed. *)
Fixpoint finditer_rect (attr : string) (skip : nat) (s : string) : list string :=
  match s with
  | EmptyString => []
  | String _ t =>
      match skip with
      | S k => finditer_rect attr k t
      | O =>
          if String.prefix "<rect" s then
            match str_span (fun c => negb (is_gt c)) (str_drop 5 s) with
            | (body, String _ _) =>
                if str_contains attr body
                then ("<rect" +:+ body +:+ ">")
                     :: finditer_rect attr (String.length body + 5) t
                else finditer_rect attr 0 t
            | (_, EmptyString) => finditer_rect attr 0 t
            end
          else finditer_rect attr 0 t
      end
  end.

(** The tuple [(x, y, w, h)] of one tag. *)
Definition rect_of_tag (tag : string) : res Montage.box :=
  x ← Montage._attr tag "x" (0 # 1)%Q;
  y ← Montage._attr tag "y" (0 # 1)%Q;
  w ← Montage._attr tag "width" (0 # 1)%Q;
  h ← Montage._attr tag "height" (0 # 1)%Q;
  Ok (x, y, w, h).

Fixpoint rects_of_tags (tags : list string) : res (list Montage.box) :=
  match tags with
  | [] => Ok []
  | tag :: rest =>
      r ← rect_of_tag tag;
      rs ← rects_of_tags rest;
      Ok (r :: rs)
  end.

(** The row that is open: [current_y], [x_left], [x_right], [h_max]. *)
Record row : Type := mkRow {
  current_y : Q;
  row_x_left : Q;
  row_x_right : Q;
  h_max : Q
}.

(** The tuple appended for a finished row. *)
Definition track_of_row (r : row) : Montage.box :=
  (row_x_left r, current_y r, (row_x_right r - row_x_left r)%Q,
   if Qltb (0 # 1) (h_max r) then h_max r else (15 # 1)%Q).

(** The loop over the sorted rectangles, once the first has opened a row. *)
Fixpoint cluster_rows (rects : list Montage.box) (cur : row) (tracks : list Montage.box)
  : list Montage.box :=
  match rects with
  | [] => tracks ++ [track_of_row cur]
  | (x, y, w, h) :: rest =>
      if Qltb (Qabs (y - current_y cur)) (1 # 1000000) then
        cluster_rows rest
          (mkRow (current_y cur) (py_min (row_x_left cur) x)
                 (py_max (row_x_right cur) (x + w)%Q) (py_max (h_max cur) h))
          tracks
      else
        cluster_rows rest (mkRow y x (x + w)%Q h) (tracks ++ [track_of_row cur])
  end.

(** The order of [rects.sort(key=lambda t: t[1])]. *)
Definition by_y (a b : Montage.box) : bool := Qltb (a.1.1.2) (b.1.1.2).

(** The rows built from the rectangles found. *)
Definition tracks_of_rects (rects : list Montage.box) : list Montage.box :=
  match py_sort by_y rects with
  | [] => []
  | (x, y, w, h) :: rest =>
      cluster_rows rest (mkRow y x (x + w)%Q (py_max (0 # 1) h)) []
  end.

(** [_collect_chro_tracks(inner_svg)]. *)
Definition _collect_chro_tracks (inner_svg : string) : res (list Montage.box) :=
  rects ← rects_of_tags
             (finditer_rect ("class=" +:+ dquote +:+ "chro" +:+ dquote) 0 inner_svg);
  Ok (tracks_of_rects rects).

(** [_scale_x_by_length(indexes, total_length, x_left, x_right)]. *)
Definition _scale_x_by_length (indexes : list Z) (total_length : Z) (x_left x_right : Q)
  : list Q :=
  match indexes with
  | [] => []
  | _ =>
      if total_length <=? 1 then map (λ _, x_left) indexes
      else
        let span := (x_right - x_left)%Q in
        map (λ i, (x_left + (inject_Z i / inject_Z (total_length - 1)) * span)%Q) indexes
  end.

(** One item of the loop of [_scale_y]; [mean_depth] is already positive. *)
Definition scale_y_item (mean_depth panel_top panel_height max_ratio : Q) (up : bool) (d : Q)
  : res Q :=
  let ratio := py_max (0 # 1) (py_min (d / mean_depth) max_ratio) in
  if Qeq_bool max_ratio (0 # 1) then Raise ZeroDivisionError
  else
    let offset := (ratio / max_ratio * panel_height)%Q in
    Ok (if up then (panel_top + (panel_height - offset))%Q
        else (panel_top + panel_height + offset)%Q).

Fixpoint scale_y_items (mean_depth panel_top panel_height max_ratio : Q) (up : bool)
    (depths : list Q) : res (list Q) :=
  match depths with
  | [] => Ok []
  | d :: rest =>
      y ← scale_y_item mean_depth panel_top panel_height max_ratio up d;
      ys ← scale_y_items mean_depth panel_top panel_height max_ratio up rest;
      Ok (y :: ys)
  end.

(** [_scale_y(depths, mean_depth, panel_top, panel_height, max_ratio, up)]. *)
Definition _scale_y (depths : list Q) (mean_depth panel_top panel_height max_ratio : Q)
    (up : bool) : res (list Q) :=
  let mean_depth := if Qle_bool mean_depth (0 # 1) then (1 # 1000000)%Q else mean_depth in
  scale_y_items mean_depth panel_top panel_height max_ratio up depths.

(** The two elements of one tick of [_axis_ticks]: the tick line and the
    label under or over it. *)
Inductive tick_elem : Type :=
| TickLine (x y1 y2 : Q)
| TickLabel (x y : Q) (font_size : Z) (val : Z).

(** [_axis_ticks(xl, xr, y, ls, le, above)], with [args.depth_axis_ticks]
    and [args.depth_axis_font_size]. *)
Definition _axis_ticks (depth_axis_ticks depth_axis_font_size : Z) (xl xr y : Q)
    (ls le : Z) (above : bool) : list tick_elem :=
  let tick_n := Z.max 2 depth_axis_ticks in
  let span := (xr - xl)%Q in
  flat_map
    (λ i,
       let x := (xl + span * (inject_Z i / inject_Z tick_n))%Q in
       let tick_h := (6 # 1)%Q in
       let y1 := (y - (if above then tick_h else 0))%Q in
       let y2 := (y + (if above then 0 else tick_h))%Q in
       let val := Montage.py_round
                    (inject_Z ls + inject_Z (le - ls) * (inject_Z i / inject_Z tick_n))%Q in
       let dy := if above then (- (10 # 1))%Q else (18 # 1)%Q in
       [TickLine x y1 y2; TickLabel x (y + dy)%Q depth_axis_font_size val])
    (py_range (tick_n + 1)).

End MontageGeometry.

(** ** Notions used in the further properties *)

(** The items of an array are unsigned 16-bit values. *)
Definition fits16 (arr : list Z) : Prop := Forall (λ d, 0 ≤ d ≤ 65535) arr.

(** The arrays of a parser state, stored or still open, hold 16-bit items. *)
Definition range_inv (st : DepthParser.state) : Prop :=
  (∀ id arr, DepthParser.st_sequences st !! id = Some arr → fits16 arr)
  ∧ (∀ arr, DepthParser.current_depth_array st = Some arr → fits16 arr).

(** The windows of a result: [zip(all_starts, all_ends)]. *)
Definition windows_of (st : DataProcessor.stats) : list (Z * Z) :=
  zip (DataProcessor.all_starts st) (DataProcessor.all_ends st).

(** One more window at the end of the three lists. *)
Definition push_window (acc : DataProcessor.stats) (w : Q * (Z * Z)) : DataProcessor.stats :=
  DataProcessor.mkStats (DataProcessor.all_means acc ++ [w.1])
                        (DataProcessor.all_starts acc ++ [w.2.1])
                        (DataProcessor.all_ends acc ++ [w.2.2]).

(** What window [i] of a segment that starts at [s] adds: nothing when the
    window has no item. *)
Definition window_entry (window_size s : Z) (seg : list Z) (i : Z) : list (Q * (Z * Z)) :=
  let a := i * window_size in
  let b := Z.min ((i + 1) * window_size) (len seg) in
  if 0 <? len (py_slice seg a b)
  then [(np_mean (py_slice seg a b), (s + a, s + b - 1))]
  else [].

(** [num_windows] for a segment of [L] items. *)
Definition num_windows (window_size L : Z) : Z :=
  let n := Z.max 1 (L / window_size) in
  if negb (L mod window_size =? 0) then n + 1 else n.

(** What a segment adds. *)
Definition segment_entries (window_size : Z) (depths : list Z) (seg : Z * Z)
  : list (Q * (Z * Z)) :=
  let sd := py_slice depths seg.1 (seg.2 + 1) in
  if len sd =? 0 then []
  else flat_map (window_entry window_size seg.1 sd) (py_range (num_windows window_size (len sd))).

(** The y of a box [(x, y, w, h)]. *)
Definition box_y (b : Montage.box) : Q := b.1.1.2.

(** The labels of a list of tick elements: the x of each and its value. *)
Definition tick_labels (l : list MontageGeometry.tick_elem) : list (Q * Z) :=
  flat_map (λ e, match e with
                 | MontageGeometry.TickLabel x _ _ v => [(x, v)]
                 | MontageGeometry.TickLine _ _ _ => []
                 end) l.

(** The order of two tuples of two integers. *)
Definition pair_le (a b : Z * Z) : Prop := a.1 < b.1 ∨ (a.1 = b.1 ∧ a.2 ≤ b.2).

(** ** A diagram with two track rows *)

Module TrackExample.

(** A [rect] tag of class [chro]. *)
Definition chro_rect (x y w h : string) : string :=
  "<rect class=" +:+ dquote +:+ "chro" +:+ dquote
  +:+ " x=" +:+ dquote +:+ x +:+ dquote
  +:+ " y=" +:+ dquote +:+ y +:+ dquote
  +:+ " width=" +:+ dquote +:+ w +:+ dquote
  +:+ " height=" +:+ dquote +:+ h +:+ dquote +:+ "/>".

(** Three rectangles in two rows, the lower row first. *)
Definition two_rows : string :=
  "<g>" +:+ chro_rect "100" "600" "900" "15"
  +:+ chro_rect "100" "300" "400" "15"
  +:+ "<rect class=" +:+ dquote +:+ "frame" +:+ dquote +:+ " x=" +:+ dquote +:+ "0"
  +:+ dquote +:+ "/>"
  +:+ chro_rect "600" "300" "500" "12.5" +:+ "</g>".

End TrackExample.

(** * Properties *)

(** ** Small facts on [len] *)

Lemma len_nil {A} : len (@nil A) = 0.
Proof. reflexivity. Qed.

Lemma len_cons {A} (x : A) l : len (x :: l) = len l + 1.
Proof. unfold len. simpl. lia. Qed.

Lemma len_nonneg {A} (l : list A) : 0 ≤ len l.
Proof. unfold len. lia. Qed.

Lemma len_pos {A} (l : list A) : l ≠ [] → 0 < len l.
Proof. destruct l; [done|]. rewrite len_cons. pose proof (len_nonneg l). lia. Qed.

Lemma len_app {A} (l1 l2 : list A) : len (l1 ++ l2) = len l1 + len l2.
Proof. unfold len. rewrite length_app. lia. Qed.

Lemma len_map {A B} (f : A → B) l : len (map f l) = len l.
Proof. unfold len. by rewrite length_map. Qed.

(** ** The parser *)

Section ParserFacts.
Import DepthParser.

(** [int] on a string raises nothing but [ValueError]. *)
Lemma py_int_raises s e : py_int s = Raise e → ∃ msg, e = ValueError msg.
Proof.
  unfold py_int.
  destruct (match py_strip s with
            | String "-"%char t => Z.opp <$> int_digits t 0 false
            | String "+"%char t => int_digits t 0 false
            | _ => int_digits (py_strip s) 0 false
            end); intros H; inversion H; eauto.
Qed.

(** A body line appends its stored items and touches nothing else; in
    particular [append] is never given a value out of range. *)
Lemma on_value_stored st arr line :
  on_value st arr line
  = Ok (match stored_items line with
        | [] => st
        | items => mkState (st_sequences st) (current_seq st) (Some (arr ++ items))
                           (include_current st) (processed_count st) (skipped_count st)
        end).
Proof.
  unfold on_value, stored_items, array_H_append.
  destruct (py_int line) as [d|e] eqn:E.
  - destruct (Z.ltb_spec d 0), (Z.ltb_spec 65535 d), (Z.leb_spec 0 d), (Z.leb_spec d 65535);
      try lia; reflexivity.
  - destruct (py_int_raises _ _ E) as [msg ->]. reflexivity.
Qed.




(** With no target, no sequence is ever included and the store is left
    as it was. *)
Lemma step_no_target st raw :
  include_current st = false →
  ∃ st', step ∅ st raw = Ok st' ∧ include_current st' = false
         ∧ st_sequences st' = st_sequences st.
Proof.
  intros Hinc. unfold step.
  destruct (py_startswith _ _).
  - eexists; split; [reflexivity|]. simpl. split.
    + apply bool_decide_eq_false. apply not_elem_of_empty.
    + unfold commit. rewrite Hinc.
      destruct (current_depth_array st);
        rewrite ?andb_false_r; simpl; destruct (py_truthy _ && _)%bool; reflexivity.
  - rewrite Hinc. eauto.
Qed.

Lemma loop_no_target lines : ∀ st,
  include_current st = false →
  ∃ st', loop ∅ st lines = Ok st' ∧ include_current st' = false
         ∧ st_sequences st' = st_sequences st.
Proof.
  induction lines as [|l rest IH]; intros st Hinc; simpl; eauto.
  destruct (step_no_target st l Hinc) as (st1 & -> & Hinc1 & Hs1). simpl.
  destruct (IH st1 Hinc1) as (st2 & -> & Hinc2 & Hs2).
  eexists; repeat split; congruence.
Qed.

Lemma commit_not_included st :
  include_current st = false → st_sequences (commit st) = st_sequences st.
Proof.
  intros Hinc. unfold commit. rewrite Hinc.
  destruct (current_depth_array st);
    rewrite ?andb_false_r; simpl; destruct (py_truthy _ && _)%bool; reflexivity.
Qed.

(** A parse with the empty target set leaves the store of the parser as
    it found it. *)
Lemma parse_no_target ls seqs :
  ∃ p, parse_depth_file_filtered (mk (Lines ls) seqs) ∅ = Ok p ∧ sequences p = seqs.
Proof.
  unfold parse_depth_file_filtered. simpl.
  destruct (loop_no_target ls (init seqs) eq_refl) as (st & -> & Hinc & Hs).
  simpl. eexists; split; [reflexivity|]. simpl.
  rewrite commit_not_included by done. exact Hs.
Qed.

End ParserFacts.

(** C1 (the code departs from the claim).  [parse_depth_file_filtered] with an
    empty target set returns an empty store whatever the source holds:
    [current_seq in target_sequences] is false for every header, so no
    sequence is collected.  The claim has every sequence of the source in
    the store. *)
Theorem parse_empty_target_set_collects_nothing (ls : list string) :
  ∃ p, DepthParser.parse_depth_file_filtered (DepthParser.new (DepthParser.Lines ls)) ∅ = Ok p
    ∧ DepthParser.sequences p = ∅
    ∧ ∀ id, id ∈ DepthParser.source_ids ls → DepthParser.sequences p !! id = None.
Proof.
  destruct (parse_no_target ls ∅) as (p & Hp & Hs).
  exists p. split; [exact Hp|]. split; [exact Hs|].
  intros id _. rewrite Hs. apply lookup_empty.
Qed.

(** The failing input of C1: one sequence [chr1] with one depth value. *)
Example parse_empty_target_set_chr1 :
  DepthParser.sequences <$>
    DepthParser.parse_depth_file_filtered
      (DepthParser.new (DepthParser.Lines [">chr1"; "5"])) ∅
  = Ok ∅
  ∧ DepthParser.source_ids [">chr1"; "5"] = ["chr1"].
Proof. split; reflexivity. Qed.

(** With a target set that is not empty the same parser filters as
    described. *)
Example parse_with_targets :
  DepthParser.sequences <$>
    DepthParser.parse_depth_file_filtered
      (DepthParser.new
         (DepthParser.Lines [">chr1"; "3"; "x"; "-2"; "70000"; " 12 "; ">chr2"; "9"]))
      {["chr1"; "chr9"]}
  = Ok {["chr1" := [3; 65535; 12]]}.
Proof. vm_compute. reflexivity. Qed.

(** C8.  A body line of an included sequence never stops the parse.  A line
    that is not an integer leaves the array as it is, and so does a
    negative integer; an integer above 65535 is stored as 65535; an integer
    in [0, 65535] is stored as it is.  Nothing else in the state changes. *)
Theorem value_line_handling (targets : gset string) (st : DepthParser.state)
    (arr : list Z) (raw : string) :
  DepthParser.include_current st = true →
  DepthParser.current_depth_array st = Some arr →
  DepthParser.header_id raw = None →
  ∃ st', DepthParser.step targets st raw = Ok st'
    ∧ DepthParser.st_sequences st' = DepthParser.st_sequences st
    ∧ DepthParser.current_seq st' = DepthParser.current_seq st
    ∧ DepthParser.include_current st' = true
    ∧ match py_int (py_strip raw) with
      | Raise _ => DepthParser.current_depth_array st' = Some arr
      | Ok d =>
          (d < 0 → DepthParser.current_depth_array st' = Some arr)
          ∧ (0 ≤ d ≤ 65535 → DepthParser.current_depth_array st' = Some (arr ++ [d]))
          ∧ (65535 < d → DepthParser.current_depth_array st' = Some (arr ++ [65535]))
      end.
Proof.
  intros Hinc Harr Hhdr. unfold DepthParser.step, DepthParser.header_id in *.
  destruct (py_startswith ">" (py_strip raw)); [discriminate|].
  rewrite Hinc, Harr. unfold DepthParser.on_value, array_H_append.
  destruct (py_int (py_strip raw)) as [d|e] eqn:E.
  - destruct (Z.ltb_spec 65535 d), (Z.leb_spec 0 d), (Z.leb_spec d 65535);
      try lia; simpl; eexists; (split; [reflexivity|]); simpl;
      repeat split; auto; intros; try lia; auto.
  - destruct (py_int_raises _ _ E) as [msg ->].
    eexists; split; [reflexivity|]. auto.
Qed.

Lemma value_line_handling_witness :
  ∃ st', DepthParser.step {["chr1"]}
           (DepthParser.mkState ∅ (Some "chr1") (Some [7]) true 0 0) "70000" = Ok st'
    ∧ DepthParser.current_depth_array st' = Some [7; 65535].
Proof.
  destruct (value_line_handling {["chr1"]}
              (DepthParser.mkState ∅ (Some "chr1") (Some [7]) true 0 0)
              [7] "70000" eq_refl eq_refl eq_refl)
    as (st' & Hstep & _ & _ & _ & Hd).
  exists st'. split; [exact Hstep|].
  change (py_int (py_strip "70000")) with (@Ok Z 70000) in Hd.
  destruct Hd as (_ & _ & Hd). apply Hd. lia.
Defined.

(** ** The reader *)

Section ReaderFacts.
Import SynchronizedDepthReader.

Lemma nonempty_empty : nonempty ∅ = false.
Proof. unfold nonempty. by rewrite bool_decide_eq_true_2. Qed.

(** With no target, a source loads as the empty map. *)
Lemma load_no_target file : load file ∅ = ∅.
Proof.
  unfold load. destruct file as [[|ls]|]; try reflexivity;
    rewrite nonempty_empty.
  unfold DepthParser.new.
  destruct (parse_no_target ls ∅) as (p & -> & Hs). exact Hs.
Qed.

(** With an empty target set the reader yields nothing, whatever the
    sources hold. *)
Lemma read_sequences_no_target hifi ont regions :
  (read_sequences (new hifi ont None regions)).1 = [].
Proof.
  unfold read_sequences, new. simpl. rewrite nonempty_empty.
  rewrite !load_no_target, dom_empty_L, union_empty_l_L, elements_empty.
  reflexivity.
Qed.

End ReaderFacts.

(** C2 (the code departs from the claim).  Source A holds [chr1] and [chr2],
    source B holds [chr2] and [chr3], and no target is given: the reader
    yields no sequence at all, because each parser is run with the empty
    set and collects nothing.  The claim has the three sequences yielded. *)
Theorem read_sequences_two_sources_no_target :
  (SynchronizedDepthReader.read_sequences
     (SynchronizedDepthReader.new
        (Some (DepthParser.Lines [">chr1"; "10"; "11"; ">chr2"; "20"]))
        (Some (DepthParser.Lines [">chr2"; "21"; ">chr3"; "30"; "31"]))
        None None)).1 = []
  ∧ DepthParser.source_ids [">chr1"; "10"; "11"; ">chr2"; "20"] = ["chr1"; "chr2"]
  ∧ DepthParser.source_ids [">chr2"; "21"; ">chr3"; "30"; "31"] = ["chr2"; "chr3"].
Proof. split; [apply read_sequences_no_target | split; reflexivity]. Qed.

(** With the three names as targets the same sources are read as the claim
    describes: [chr1] has no ONT items and [chr3] no HiFi items. *)
Example read_sequences_two_sources_with_targets :
  ∀ y, In y (SynchronizedDepthReader.read_sequences
               (SynchronizedDepthReader.new
                  (Some (DepthParser.Lines [">chr1"; "10"; "11"; ">chr2"; "20"]))
                  (Some (DepthParser.Lines [">chr2"; "21"; ">chr3"; "30"; "31"]))
                  (Some {["chr1"; "chr2"; "chr3"]}) None)).1
       ↔ In y [("chr1", [10; 11], []); ("chr2", [20], [21]); ("chr3", [], [30; 31])].
Proof.
  intros y.
  match goal with |- In _ ?l ↔ _ => let l' := eval vm_compute in l in change l with l' end.
  simpl. tauto.
Qed.

(** ** What the parser collects *)

Section ParserDomain.
Import DepthParser.
Variable targets : gset string.

Lemma py_truthy_Some c : py_truthy (Some c) = true ↔ c ≠ "".
Proof. destruct c; simpl; split; try done. Qed.

Lemma commit_sequences st :
  st_sequences (commit st)
  = match current_seq st, current_depth_array st with
    | Some c, Some arr =>
        if (py_truthy (Some c) && include_current st)%bool
        then <[c := arr]> (st_sequences st) else st_sequences st
    | _, _ => st_sequences st
    end.
Proof.
  unfold commit.
  destruct (current_seq st) as [c|], (current_depth_array st) as [arr|],
    (include_current st); simpl; rewrite ?andb_false_r, ?andb_true_r; simpl;
    try reflexivity; destruct c; reflexivity.
Qed.

Lemma commit_domain st prev :
  parser_inv targets st prev →
  ∀ id, is_Some (st_sequences (commit st) !! id)
        ↔ id ∈ targets ∧ id ≠ "" ∧ id ∈ prev ++ option_list (current_seq st).
Proof.
  intros (Hdom & Hinc & Harr) id. rewrite commit_sequences.
  destruct (current_seq st) as [c|] eqn:Hc; simpl.
  2: { rewrite app_nil_r. apply Hdom. }
  rewrite elem_of_app, list_elem_of_singleton.
  destruct (include_current st) eqn:Hi.
  - destruct (Harr eq_refl) as [arr ->]. symmetry in Hinc.
    apply bool_decide_eq_true in Hinc. rewrite andb_true_r.
    destruct c as [|ch cs]; simpl.
    + rewrite Hdom.
      split; [intros (? & ? & ?); auto|]. intros (? & ? & [?|?]); auto. congruence.
    + rewrite lookup_insert_is_Some', Hdom.
      split.
      * intros [ <- | (? & ? & ?) ]; auto.
      * intros (? & ? & [ ? | -> ]); [right|left]; auto.
  - symmetry in Hinc. apply bool_decide_eq_false in Hinc.
    assert (∀ (b : bool) (X : gmap string (list Z)),
              (if (b && false)%bool then X else st_sequences st) = st_sequences st) as Hf
      by (intros [] ?; reflexivity).
    destruct (current_depth_array st); [rewrite Hf|]; rewrite Hdom;
      (split; [intros (? & ? & ?); auto|]; intros (? & ? & [?|?]); auto; congruence).
Qed.

Lemma step_inv st prev raw :
  parser_inv targets st prev →
  ∃ st' prev', step targets st raw = Ok st' ∧ parser_inv targets st' prev'
    ∧ prev' ++ option_list (current_seq st')
      = (prev ++ option_list (current_seq st)) ++ option_list (header_id raw).
Proof.
  intros Hinv. unfold step, header_id.
  destruct (py_startswith ">" (py_strip raw)).
  - exists (on_header targets st (py_strip raw)), (prev ++ option_list (current_seq st)).
    split; [reflexivity|]. split; [|reflexivity].
    unfold parser_inv. simpl. split; [by apply commit_domain|]. split; [reflexivity|].
    intros ->. eauto.
  - simpl. rewrite app_nil_r. destruct Hinv as (Hdom & Hinc & Harr).
    destruct (include_current st) eqn:Hi.
    + destruct (Harr eq_refl) as [arr Ha]. rewrite Ha, on_value_stored.
      eexists _, prev. split; [reflexivity|].
      destruct (stored_items (py_strip raw)); simpl.
      * split; [|done]. unfold parser_inv. rewrite Hi.
        split; [exact Hdom|]. split; [exact Hinc|]. intros _. rewrite Ha. eauto.
      * split; [|done]. unfold parser_inv. simpl. rewrite Hi.
        split; [exact Hdom|]. split; [exact Hinc|]. intros _. eauto.
    + exists st, prev. split; [done|]. split; [|done]. unfold parser_inv. rewrite Hi.
      split; [exact Hdom|]. split; [exact Hinc|]. intros; discriminate.
Qed.

Lemma loop_inv ls : ∀ st prev,
  parser_inv targets st prev →
  ∃ st' prev', loop targets st ls = Ok st' ∧ parser_inv targets st' prev'
    ∧ prev' ++ option_list (current_seq st')
      = (prev ++ option_list (current_seq st)) ++ source_ids ls.
Proof.
  induction ls as [|raw ls IH]; intros st prev Hinv; simpl.
  - exists st, prev. by rewrite app_nil_r.
  - destruct (step_inv st prev raw Hinv) as (st1 & prev1 & -> & Hinv1 & E1). simpl.
    destruct (IH st1 prev1 Hinv1) as (st2 & prev2 & -> & Hinv2 & E2).
    exists st2, prev2. split; [done|]. split; [done|].
    rewrite E2, E1. unfold source_ids. simpl.
    destruct (header_id raw); simpl; by rewrite <- app_assoc.
Qed.

End ParserDomain.

(** X1.  What the parser does collect: the store of a fresh parser after a parse
    holds exactly the sequences that are in the target set, have a header
    in the source and a name that is not empty.  (With the empty target set
    that is no sequence at all.) *)
Lemma parse_collects_present_targets (ls : list string) (targets : gset string) :
  ∃ p, DepthParser.parse_depth_file_filtered (DepthParser.new (DepthParser.Lines ls)) targets
       = Ok p
    ∧ ∀ id, id ∈ dom (DepthParser.sequences p)
            ↔ id ∈ targets ∧ id ≠ "" ∧ id ∈ DepthParser.source_ids ls.
Proof.
  unfold DepthParser.parse_depth_file_filtered. simpl.
  destruct (loop_inv targets ls (DepthParser.init ∅) []) as (st & prev & -> & Hinv & E).
  { split; [|split; [done|discriminate]]. intros id. simpl. rewrite lookup_empty. split.
    - intros Hs. by apply is_Some_None in Hs.
    - intros (_ & _ & Hin). by apply elem_of_nil in Hin. }
  simpl in *. eexists; split; [reflexivity|]. simpl. intros id.
  rewrite elem_of_dom, (commit_domain targets st prev Hinv), E. reflexivity.
Qed.

(** C7.  When both arrays are given, are not empty and differ in length,
    [plot_single_sequence] raises a [ValueError] whose message carries the
    two lengths; no event has happened by then, so no figure has been
    created and no file written, and the plotter is unchanged. *)
Theorem length_mismatch_raises_before_rendering (self : DepthPlotter.t) (seq_id : string)
    (hifi_depths ont_depths : list Z) (window_size : Z)
    (regions : option (list (Z * Z))) (output_dir : option string) (min_safe_depth : Z) :
  hifi_depths ≠ [] → ont_depths ≠ [] → length hifi_depths ≠ length ont_depths →
  let out := DepthPlotter.plot_single_sequence self seq_id (Some hifi_depths)
               (Some ont_depths) window_size regions output_dir min_safe_depth in
  DepthPlotter.result out
    = Raise (ValueError
        ("Error: HiFi and ONT data length mismatch for sequence " +:+ seq_id +:+ ". "
         +:+ "HiFi length: " +:+ pretty (len hifi_depths)
         +:+ ", ONT length: " +:+ pretty (len ont_depths) +:+ ". "
         +:+ "Both datasets must have the same length."))
  ∧ DepthPlotter.events out = []
  ∧ Forall (λ e, DepthPlotter.renders e = false) (DepthPlotter.events out)
  ∧ DepthPlotter.plotter out = self.
Proof.
  intros Hh Ho Hne out. subst out. unfold DepthPlotter.plot_single_sequence. simpl.
  pose proof (len_pos _ Hh). pose proof (len_pos _ Ho).
  assert (len hifi_depths ≠ len ont_depths) by (unfold len; lia).
  destruct (Z.ltb_spec 0 (len hifi_depths)); [|lia].
  destruct (Z.ltb_spec 0 (len ont_depths)); [|lia].
  destruct (Z.eqb_spec (len hifi_depths) (len ont_depths)); [lia|].
  simpl. repeat split; constructor.
Qed.

Lemma length_mismatch_raises_before_rendering_witness :
  DepthPlotter.events
    (DepthPlotter.plot_single_sequence
       (DepthPlotter.mk "#2ca25f" "#3C5488" "png" "." (4 # 1)) "chr1"
       (Some [1; 2; 3]) (Some [1; 2]) 1000 None None 5) = [].
Proof.
  refine (proj1 (proj2 (length_mismatch_raises_before_rendering
            (DepthPlotter.mk "#2ca25f" "#3C5488" "png" "." (4 # 1)) "chr1"
            [1; 2; 3] [1; 2] 1000 None None 5 _ _ _))); [discriminate | discriminate | simpl; lia].
Defined.

(** The same arrays cut to one length are drawn and saved: the figure is
    created first and the file written last but one. *)
Example equal_lengths_are_rendered :
  let out := DepthPlotter.plot_single_sequence
               (DepthPlotter.mk "#2ca25f" "#3C5488" "png" "." (4 # 1)) "chr1"
               (Some [1; 2]) (Some [0; 3]) 1000 None (Some "images") 5 in
  DepthPlotter.result out = Ok (Some "images/chr1.png")
  ∧ head (DepthPlotter.events out) = Some DepthPlotter.Subplots
  ∧ DepthPlotter.Savefig "images/chr1.png" ∈ DepthPlotter.events out.
Proof.
  intros out. split; [reflexivity | split; [reflexivity|]].
  apply list_elem_of_In. vm_compute. tauto.
Qed.

(** C3.  The ten-value example, threshold 5 and window size 2. *)
Theorem end_to_end_example :
  DepthRegionAnalyzer.analyze_depth_regions 5 [0; 0; 3; 4; 5; 0; 0; 20; 20; 0] []
  = Ok (DepthRegionAnalyzer.mk [(0, 1); (5, 6); (9, 9)] [(2, 3)] [(4, 4); (7, 8)])
  ∧ ∃ st,
      DataProcessor.calculate_windowed_stats 2 [0; 0; 3; 4; 5; 0; 0; 20; 20; 0] = Ok st
      ∧ Forall2 Qeq (DataProcessor.all_means st) [(35 # 10)%Q; (5 # 1)%Q; (20 # 1)%Q]
      ∧ DataProcessor.all_starts st = [2; 4; 7]
      ∧ DataProcessor.all_ends st = [3; 4; 8].
Proof.
  split; [reflexivity|].
  eexists; split; [reflexivity|]. simpl.
  split; [|split; reflexivity].
  repeat constructor.
Qed.

(** C9.  An array that is not empty and shorter than the window gives one
    window: its mean is the sum of the items over their number, and its
    position is half the length, rounded down. *)
Theorem short_array_is_one_window (window_size : Z) (depths : list Z) :
  depths ≠ [] → len depths < window_size →
  SlidingWindowProcessor.calculate_sliding_window window_size
    (SlidingWindowProcessor.NdArray depths)
  = Ok ([len depths / 2], [(inject_Z (Zsum depths) / inject_Z (len depths))%Q])
  ∧ SlidingWindowProcessor.calculate_sliding_window window_size
      (SlidingWindowProcessor.ArrayH depths)
    = Ok ([len depths / 2], [(inject_Z (Zsum depths) / inject_Z (len depths))%Q]).
Proof.
  intros Hne Hlt. pose proof (len_pos _ Hne).
  unfold SlidingWindowProcessor.calculate_sliding_window,
    SlidingWindowProcessor.kernel. simpl.
  destruct (Z.eqb_spec (len depths) 0); [lia|].
  destruct (Z.ltb_spec window_size 0); [lia|]. simpl.
  destruct (Z.ltb_spec (len depths) window_size); [|lia].
  split; reflexivity.
Qed.

Lemma short_array_is_one_window_witness :
  SlidingWindowProcessor.calculate_sliding_window 5 (SlidingWindowProcessor.NdArray [3; 4; 8])
  = Ok ([1], [(15 # 3)%Q]).
Proof.
  refine (proj1 (short_array_is_one_window 5 [3; 4; 8] _ _)); [discriminate | reflexivity].
Defined.

Section Runs.

Lemma regions_loop_acc mask : ∀ i start regions,
  regions_loop mask i start regions
  = (regions ++ (regions_loop mask i start []).1, (regions_loop mask i start []).2).
Proof.
  induction mask as [|v rest IH]; intros i start regions; simpl.
  - by rewrite app_nil_r.
  - destruct v, start as [s|]; try apply IH.
    rewrite IH, (IH _ _ [(s, i - 1)]). simpl. by rewrite <- app_assoc.
Qed.

Lemma runs_nil i start :
  runs [] i start = match start with Some s => [(s, i - 1)] | None => [] end.
Proof.
  unfold runs, close_run. simpl. rewrite len_nil.
  destruct start; simpl; [|done]. do 2 f_equal. lia.
Qed.

Lemma runs_cons v rest i start :
  runs (v :: rest) i start
  = match v, start with
    | true, None => runs rest (i + 1) (Some i)
    | false, Some s => (s, i - 1) :: runs rest (i + 1) None
    | _, _ => runs rest (i + 1) start
    end.
Proof.
  unfold runs, close_run. rewrite len_cons.
  replace (i + (len rest + 1) - 1) with (i + 1 + len rest - 1) by lia.
  simpl. destruct v, start as [s|]; try reflexivity.
  rewrite regions_loop_acc. simpl.
  by destruct (regions_loop rest (i + 1) None []).2.
Qed.

Lemma covers_cons r rs k : covers (r :: rs) k ↔ r.1 ≤ k ≤ r.2 ∨ covers rs k.
Proof. unfold covers. apply Exists_cons. Qed.

Lemma covers_nil k : ¬ covers [] k.
Proof. unfold covers. intros H. by apply Exists_nil in H. Qed.

Lemma covers_app rs1 rs2 k : covers (rs1 ++ rs2) k ↔ covers rs1 k ∨ covers rs2 k.
Proof. unfold covers. apply Exists_app. Qed.

Lemma covers_above lo rs k :
  Forall (λ r, lo ≤ r.1) rs → k < lo → ¬ covers rs k.
Proof.
  intros Hall Hk Hc. unfold covers in Hc. rewrite Exists_exists in Hc.
  destruct Hc as (r & Hin & Hr). rewrite Forall_forall in Hall.
  specialize (Hall r Hin). lia.
Qed.

(** The runs found from index [i] on, with [start] the run open at [i]:
    they lie between the start of the open run and the last index, each
    ends before the next begins, and from [i] on they cover the true
    positions of the mask and no other. *)
Lemma runs_spec mask : ∀ i start,
  (∀ s, start = Some s → s < i) →
  Forall (λ r, default i start ≤ r.1 ∧ r.1 ≤ r.2 ∧ r.2 ≤ i + len mask - 1) (runs mask i start)
  ∧ ForallOrdPairs (λ a b : Z * Z, a.2 < b.1) (runs mask i start)
  ∧ (∀ k, i ≤ k < i + len mask →
       (covers (runs mask i start) k ↔ mask !! Z.to_nat (k - i) = Some true))
  ∧ (∀ s k, start = Some s → s ≤ k < i → covers (runs mask i start) k).
Proof.
  induction mask as [|v rest IH]; intros i start Hs.
  - rewrite runs_nil, len_nil. destruct start as [s|]; simpl.
    + specialize (Hs s eq_refl). repeat split.
      * repeat constructor; simpl; lia.
      * repeat constructor.
      * lia.
      * lia.
      * intros s' k [= <-] Hk. apply covers_cons. simpl. lia.
    + repeat split; try constructor; try lia; intros; discriminate.
  - rewrite runs_cons, len_cons. pose proof (len_nonneg rest) as Hlen.
    assert (Hshift : ∀ k, i < k → Z.to_nat (k - i) = S (Z.to_nat (k - (i + 1))))
      by (intros; lia).
    destruct v, start as [s|].
    + (* true, run open *)
      specialize (Hs s eq_refl).
      destruct (IH (i + 1) (Some s)) as (H1 & H2 & H3 & H4);
        [intros ? [= <-]; lia|]. simpl in *.
      repeat split.
      * eapply Forall_impl; [exact H1|]. simpl. intros. lia.
      * exact H2.
      * intros Hc. destruct (decide (k = i)) as [->|].
        { by rewrite Z.sub_diag. }
        rewrite Hshift by lia. simpl. apply H3; [lia|done].
      * intros Hm. destruct (decide (k = i)) as [->|].
        { apply (H4 s); [done|lia]. }
        apply H3; [lia|]. rewrite Hshift in Hm by lia. done.
      * intros s' k [= <-] Hk. apply (H4 s); [done|lia].
    + (* true, no run open *)
      destruct (IH (i + 1) (Some i)) as (H1 & H2 & H3 & H4);
        [intros ? [= <-]; lia|]. simpl in *.
      repeat split.
      * eapply Forall_impl; [exact H1|]. simpl. intros. lia.
      * exact H2.
      * intros Hc. destruct (decide (k = i)) as [->|].
        { by rewrite Z.sub_diag. }
        rewrite Hshift by lia. simpl. apply H3; [lia|done].
      * intros Hm. destruct (decide (k = i)) as [->|].
        { apply (H4 i); [done|lia]. }
        apply H3; [lia|]. rewrite Hshift in Hm by lia. done.
      * intros; discriminate.
    + (* false, run open: it is closed at [i - 1] *)
      specialize (Hs s eq_refl).
      destruct (IH (i + 1) None) as (H1 & H2 & H3 & _); [intros; discriminate|].
      simpl in *.
      assert (Hlo : Forall (λ r : Z * Z, i + 1 ≤ r.1) (runs rest (i + 1) None))
        by (eapply Forall_impl; [exact H1|]; simpl; intros; lia).
      repeat split.
      * constructor; [simpl; lia|].
        eapply Forall_impl; [exact H1|]. simpl. intros. lia.
      * constructor; [|exact H2].
        eapply Forall_impl; [exact Hlo|]. simpl. intros. lia.
      * intros Hc. apply covers_cons in Hc as [Hc|Hc]; [simpl in Hc; lia|].
        destruct (decide (k = i)) as [->|].
        { exfalso. eapply covers_above; [exact Hlo| |exact Hc]. lia. }
        rewrite Hshift by lia. simpl. apply H3; [lia|done].
      * intros Hm. destruct (decide (k = i)) as [->|].
        { rewrite Z.sub_diag in Hm. discriminate. }
        apply covers_cons. right. apply H3; [lia|].
        rewrite Hshift in Hm by lia. done.
      * intros s' k [= <-] Hk. apply covers_cons. left. simpl. lia.
    + (* false, no run open *)
      destruct (IH (i + 1) None) as (H1 & H2 & H3 & _); [intros; discriminate|].
      simpl in *.
      assert (Hlo : Forall (λ r : Z * Z, i + 1 ≤ r.1) (runs rest (i + 1) None))
        by (eapply Forall_impl; [exact H1|]; simpl; intros; lia).
      repeat split.
      * eapply Forall_impl; [exact H1|]. simpl. intros. lia.
      * exact H2.
      * intros Hc. destruct (decide (k = i)) as [->|].
        { exfalso. eapply covers_above; [exact Hlo| |exact Hc]. lia. }
        rewrite Hshift by lia. simpl. apply H3; [lia|done].
      * intros Hm. destruct (decide (k = i)) as [->|].
        { rewrite Z.sub_diag in Hm. discriminate. }
        apply H3; [lia|]. rewrite Hshift in Hm by lia. done.
      * intros; discriminate.
Qed.

End Runs.

Section Pairs.
Context {A : Type}.

Lemma ForallOrdPairs_impl (R S : A → A → Prop) (l : list A) :
  (∀ a b, R a b → S a b) → ForallOrdPairs R l → ForallOrdPairs S l.
Proof.
  intros HRS. induction 1 as [|a l Ha _ IH]; constructor; [|exact IH].
  eapply Forall_impl; [exact Ha|]. auto.
Qed.

Lemma ForallOrdPairs_app (R : A → A → Prop) (l1 l2 : list A) :
  ForallOrdPairs R l1 → ForallOrdPairs R l2 →
  (∀ a b, a ∈ l1 → b ∈ l2 → R a b) →
  ForallOrdPairs R (l1 ++ l2).
Proof.
  intros H1 H2 H12. induction H1 as [|a l Ha _ IH]; simpl; [exact H2|].
  constructor.
  - apply Forall_app. split; [exact Ha|].
    apply Forall_forall. intros b Hb. apply H12; [left|exact Hb].
  - apply IH. intros x y Hx Hy. apply H12; [by right|exact Hy].
Qed.

End Pairs.

Lemma lookup_map {A B} (f : A → B) (l : list A) (n : nat) :
  map f l !! n = f <$> l !! n.
Proof. revert n. induction l as [|x l IH]; intros [|n]; simpl; auto. Qed.

(** A mask computed item by item is true where the test holds. *)
Lemma mask_lookup (f : Z → bool) (depths : list Z) (n : nat) :
  map f depths !! n = Some true ↔ ∃ d, depths !! n = Some d ∧ f d = true.
Proof.
  rewrite lookup_map. destruct (depths !! n) as [d|]; simpl; split.
  - intros [= H]. eauto.
  - intros (d' & [= <-] & H). by rewrite H.
  - discriminate.
  - intros (? & ? & _). discriminate.
Qed.

Section Regions.
Import DepthRegionAnalyzer.

Lemma find_continuous_regions_runs mask :
  _find_continuous_regions mask = runs mask 0 None.
Proof.
  unfold _find_continuous_regions, runs, close_run.
  destruct (Z.eqb_spec (len mask) 0) as [H0|_].
  - destruct mask as [|v rest]; [reflexivity|]. rewrite len_cons in H0.
    pose proof (len_nonneg rest). lia.
  - destruct (regions_loop mask 0 None []) as [regions [s|]]; reflexivity.
Qed.

(** The runs of a mask over the whole array. *)
Lemma find_continuous_regions_spec mask :
  Forall (λ r, 0 ≤ r.1 ∧ r.1 ≤ r.2 ∧ r.2 ≤ len mask - 1) (_find_continuous_regions mask)
  ∧ ForallOrdPairs interval_disjoint (_find_continuous_regions mask)
  ∧ (∀ k, 0 ≤ k < len mask →
       (covers (_find_continuous_regions mask) k ↔ mask !! Z.to_nat k = Some true)).
Proof.
  rewrite find_continuous_regions_runs.
  destruct (runs_spec mask 0 None) as (H1 & H2 & H3 & _); [intros; discriminate|].
  simpl in *. repeat split.
  - exact H1.
  - eapply ForallOrdPairs_impl; [|exact H2]. unfold interval_disjoint. auto.
  - intros Hc. specialize (H3 k ltac:(lia)). rewrite Z.sub_0_r in H3. by apply H3.
  - intros Hm. specialize (H3 k ltac:(lia)). rewrite Z.sub_0_r in H3. by apply H3.
Qed.

(** Runs of two masks that are never true at the same index do not meet. *)
Lemma regions_of_exclusive_masks (m1 m2 : list bool) a b :
  len m1 = len m2 →
  (∀ n, m1 !! n = Some true → m2 !! n = Some true → False) →
  a ∈ _find_continuous_regions m1 → b ∈ _find_continuous_regions m2 →
  interval_disjoint a b.
Proof.
  intros Hlen Hex Ha Hb.
  destruct (find_continuous_regions_spec m1) as (R1 & _ & C1).
  destruct (find_continuous_regions_spec m2) as (R2 & _ & C2).
  rewrite Forall_forall in R1, R2.
  pose proof (R1 a Ha) as Hra. pose proof (R2 b Hb) as Hrb.
  unfold interval_disjoint.
  destruct (decide (a.2 < b.1)) as [|Hn1]; [by left|].
  destruct (decide (b.2 < a.1)) as [|Hn2]; [by right|].
  exfalso. set (k := Z.max a.1 b.1).
  apply (Hex (Z.to_nat k)).
  - apply C1; [lia|]. unfold covers. apply Exists_exists. exists a. split; [done|lia].
  - apply C2; [lia|]. unfold covers. apply Exists_exists. exists b. split; [done|lia].
Qed.

End Regions.

(** C4 (as amended: the threshold is at least 1).  For an array of N >= 1
    depths, none negative, and a threshold T >= 1, [analyze_depth_regions]
    returns three lists of closed intervals that lie in [0, N-1], do not
    overlap one another, and cover every index of [0, N-1]; an index is in
    a zero interval exactly when its depth is 0, in a low interval exactly
    when 0 < depth < T, and in a normal interval exactly when depth >= T.
    The last index N-1 is covered like any other. *)
Theorem regions_partition_the_index_range (min_safe_depth : Z)
    (hifi_depths ont_depths depths : list Z) :
  DepthRegionAnalyzer.combined_depths hifi_depths ont_depths = Ok depths →
  1 ≤ len depths → Forall (λ d, 0 ≤ d) depths → 1 ≤ min_safe_depth →
  ∃ r, DepthRegionAnalyzer.analyze_depth_regions min_safe_depth hifi_depths ont_depths = Ok r
    ∧ Forall (λ iv, 0 ≤ iv.1 ∧ iv.1 ≤ iv.2 ∧ iv.2 ≤ len depths - 1) (all_regions r)
    ∧ ForallOrdPairs interval_disjoint (all_regions r)
    ∧ (∀ k, 0 ≤ k ≤ len depths - 1 → covers (all_regions r) k)
    ∧ (∀ k d, 0 ≤ k → depths !! Z.to_nat k = Some d →
         (covers (DepthRegionAnalyzer.zero_depth r) k ↔ d = 0)
         ∧ (covers (DepthRegionAnalyzer.low_depth r) k ↔ 0 < d < min_safe_depth)
         ∧ (covers (DepthRegionAnalyzer.normal_depth r) k ↔ min_safe_depth ≤ d)).
Proof.
  intros Hc HN Hnn HT. unfold DepthRegionAnalyzer.analyze_depth_regions.
  rewrite Hc. simpl. eexists; split; [reflexivity|].
  unfold all_regions. simpl.
  set (mz := map (λ d, d =? 0) depths).
  set (ml := map (λ d, (0 <? d) && (d <? min_safe_depth)) depths).
  set (mn := map (λ d, min_safe_depth <=? d) depths).
  destruct (find_continuous_regions_spec mz) as (Rz & Dz & Cz).
  destruct (find_continuous_regions_spec ml) as (Rl & Dl & Cl).
  destruct (find_continuous_regions_spec mn) as (Rn & Dn & Cn).
  assert (Lz : len mz = len depths) by apply len_map.
  assert (Ll : len ml = len depths) by apply len_map.
  assert (Ln : len mn = len depths) by apply len_map.
  rewrite Lz in *. rewrite Ll in *. rewrite Ln in *.
  assert (Hz : ∀ n, mz !! n = Some true ↔ ∃ d, depths !! n = Some d ∧ d = 0).
  { intros n. unfold mz. rewrite mask_lookup.
    split; intros (d & Hd & H); exists d; (split; [done|]); by apply Z.eqb_eq. }
  assert (Hl : ∀ n, ml !! n = Some true ↔ ∃ d, depths !! n = Some d ∧ 0 < d < min_safe_depth).
  { intros n. unfold ml. rewrite mask_lookup.
    split; intros (d & Hd & H); exists d; (split; [done|]).
    - apply andb_true_iff in H as [H1 H2]. apply Z.ltb_lt in H1, H2. lia.
    - apply andb_true_iff. split; apply Z.ltb_lt; lia. }
  assert (Hn : ∀ n, mn !! n = Some true ↔ ∃ d, depths !! n = Some d ∧ min_safe_depth ≤ d).
  { intros n. unfold mn. rewrite mask_lookup.
    split; intros (d & Hd & H); exists d; (split; [done|]); by apply Z.leb_le. }
  assert (Hlook : ∀ k, 0 ≤ k ≤ len depths - 1 → ∃ d, depths !! Z.to_nat k = Some d ∧ 0 ≤ d).
  { intros k Hk. destruct (lookup_lt_is_Some_2 depths (Z.to_nat k)) as [d Hd].
    - unfold len in Hk. lia.
    - exists d. split; [done|]. rewrite Forall_forall in Hnn. apply Hnn.
      by eapply list_elem_of_lookup_2. }
  assert (Hin : ∀ k d, 0 ≤ k → depths !! Z.to_nat k = Some d → 0 ≤ k < len depths).
  { intros k d Hk Hd. apply lookup_lt_Some in Hd. unfold len. lia. }
  repeat split.
  - rewrite !Forall_app. auto.
  - apply ForallOrdPairs_app; [exact Dz| |].
    + apply ForallOrdPairs_app; [exact Dl|exact Dn|].
      intros a b Ha Hb. eapply (regions_of_exclusive_masks ml mn); eauto; [congruence|].
      intros n H1 H2. apply Hl in H1 as (d & Hd & ?). apply Hn in H2 as (d' & Hd' & ?).
      assert (d = d') by congruence. lia.
    + intros a b Ha Hb. apply elem_of_app in Hb as [Hb|Hb].
      * eapply (regions_of_exclusive_masks mz ml); eauto; [congruence|].
        intros n H1 H2. apply Hz in H1 as (d & Hd & ?). apply Hl in H2 as (d' & Hd' & ?).
        assert (d = d') by congruence. lia.
      * eapply (regions_of_exclusive_masks mz mn); eauto; [congruence|].
        intros n H1 H2. apply Hz in H1 as (d & Hd & ?). apply Hn in H2 as (d' & Hd' & ?).
        assert (d = d') by congruence. lia.
  - intros k Hk. destruct (Hlook k Hk) as (d & Hd & Hd0).
    rewrite !covers_app.
    destruct (decide (d = 0)) as [H0|H0]; [left|right].
    + apply Cz; [lia|]. apply Hz. eauto.
    + destruct (decide (d < min_safe_depth)); [left|right].
      * apply Cl; [lia|]. apply Hl. exists d. split; [done|lia].
      * apply Cn; [lia|]. apply Hn. exists d. split; [done|lia].
  - intros Hcov. apply Cz in Hcov; [|by eapply Hin]. apply Hz in Hcov as (d' & ? & ?). congruence.
  - intros ->. apply Cz; [by eapply Hin|]. apply Hz. eauto.
  - apply Cl in H1; [|by eapply Hin]. apply Hl in H1 as (d' & ? & ?).
    assert (d = d') by congruence. lia.
  - apply Cl in H1; [|by eapply Hin]. apply Hl in H1 as (d' & ? & ?).
    assert (d = d') by congruence. lia.
  - intros Hd. apply Cl; [by eapply Hin|]. apply Hl. eauto.
  - intros Hcov. apply Cn in Hcov; [|by eapply Hin]. apply Hn in Hcov as (d' & ? & ?).
    assert (d = d') by congruence. lia.
  - intros Hd. apply Cn; [by eapply Hin|]. apply Hn. eauto.
Qed.

Lemma regions_partition_the_index_range_witness :
  ∃ r, DepthRegionAnalyzer.analyze_depth_regions 5 [0; 3; 7; 0] [] = Ok r
    ∧ ForallOrdPairs interval_disjoint (all_regions r)
    ∧ covers (all_regions r) 3.
Proof.
  destruct (regions_partition_the_index_range 5 [0; 3; 7; 0] [] [0; 3; 7; 0])
    as (r & Hr & _ & Hd & Hc & _).
  - reflexivity.
  - vm_compute. discriminate.
  - repeat constructor; lia.
  - lia.
  - exists r. split; [exact Hr|]. split; [exact Hd|].
    apply Hc. vm_compute. split; discriminate.
Defined.

(** The claim C4 as stated fails for a threshold below 1: with threshold 0
    the one position of the array [[0]] is a zero region and a normal region
    at once, so two intervals of the result overlap. *)
Lemma regions_overlap_at_threshold_zero :
  ∃ r, DepthRegionAnalyzer.analyze_depth_regions 0 [0] [] = Ok r
    ∧ DepthRegionAnalyzer.zero_depth r = [(0, 0)]
    ∧ DepthRegionAnalyzer.normal_depth r = [(0, 0)]
    ∧ ¬ ForallOrdPairs interval_disjoint (all_regions r).
Proof.
  eexists. split; [reflexivity|]. split; [reflexivity|]. split; [reflexivity|].
  change (¬ ForallOrdPairs interval_disjoint [(0, 0); (0, 0)]).
  intros H. inversion H as [|a l Ha _]; subst.
  apply Forall_cons in Ha as [Hab _].
  unfold interval_disjoint in Hab. simpl in Hab. lia.
Qed.

Section RelocateFacts.
Import Montage.
Variable regenerate : Q → render.
Variable a : args.
Variable l : layout.

Lemma rejected_not_accepted r : rejected regenerate a l r = true → accepted regenerate a l r = false.
Proof.
  unfold rejected, accepted.
  destruct (_scale_bbox_abs _ _) as [[sb|]|]; try discriminate. by intros ->.
Qed.

(** The loop stops at the first candidate that is taken. *)
Lemma try_candidates_first_fit keep pre r post :
  Forall (λ c, rejected regenerate a l c = true) pre →
  accepted regenerate a l r = true →
  try_candidates regenerate a l (pre ++ r :: post) keep = (pre ++ [r], Ok (regenerate r)).
Proof.
  intros Hpre Hacc. induction Hpre as [|c pre Hc _ IH]; simpl.
  - unfold accepted in Hacc.
    destruct (_scale_bbox_abs _ _) as [[sb|]|]; try discriminate; [|done].
    destruct (hits_depth a l sb); [discriminate|done].
  - unfold rejected in Hc.
    destruct (_scale_bbox_abs _ _) as [[sb|]|]; try discriminate.
    rewrite Hc, IH. done.
Qed.

(** When every candidate is passed over, all have been tried and [keep]
    is what remains. *)
Lemma try_candidates_none_fit keep cands :
  Forall (λ c, rejected regenerate a l c = true) cands →
  try_candidates regenerate a l cands keep = (cands, Ok keep).
Proof.
  induction 1 as [|c cands Hc _ IH]; simpl; [done|].
  unfold rejected in Hc.
  destruct (_scale_bbox_abs _ _) as [[sb|]|]; try discriminate.
  by rewrite Hc, IH.
Qed.

(** The generator is never run more often than there are candidates. *)
Lemma try_candidates_bounded keep cands :
  (length (try_candidates regenerate a l cands keep).1 ≤ length cands)%nat.
Proof.
  induction cands as [|c cands IH]; simpl; [done|].
  destruct (_scale_bbox_abs _ _) as [[sb|]|]; simpl; try lia.
  destruct (hits_depth a l sb); simpl; [|lia].
  destruct (try_candidates regenerate a l cands keep). simpl in *. lia.
Qed.

End RelocateFacts.

(** The search after a default position inside a panel: the first
    candidate that is taken ends it. *)
Lemma relocate_first_fit (regenerate : Q → Montage.render) (a : Montage.args)
    (l : Montage.layout) (first : Montage.render) pre r post :
  Montage.default_hits_depth a l = true → Montage.svg_height a ≠ 0 →
  Montage.safe_ratio a l :: Montage.fallback_ratios a l = pre ++ r :: post →
  Forall (λ c, Montage.rejected regenerate a l c = true) pre →
  Montage.accepted regenerate a l r = true →
  Montage.relocate_scale_bar regenerate a l first = (pre ++ [r], Ok (regenerate r)).
Proof.
  intros Hdef Hsvg Hsplit Hpre Hacc.
  unfold Montage.relocate_scale_bar. rewrite Hdef.
  destruct (Z.eqb_spec (Montage.svg_height a) 0) as [|_]; [done|].
  destruct pre as [|c pre].
  - simpl in *. injection Hsplit as <- _.
    unfold Montage.accepted in Hacc.
    destruct (Montage._scale_bbox_abs _ _) as [[sb|]|]; try discriminate; [|done].
    destruct (Montage.hits_depth a l sb); [discriminate|done].
  - simpl in Hsplit. injection Hsplit as <- Hrest.
    apply Forall_cons in Hpre as [Hc Hpre]. unfold Montage.rejected in Hc.
    destruct (Montage._scale_bbox_abs _ _) as [[sb|]|]; try discriminate.
    rewrite Hc, Hrest, (try_candidates_first_fit regenerate a l _ pre r post Hpre Hacc).
    done.
Qed.

(** When no candidate is taken, the rendering of the first one stays. *)
Lemma relocate_none_fit (regenerate : Q → Montage.render) (a : Montage.args)
    (l : Montage.layout) (first : Montage.render) :
  Montage.default_hits_depth a l = true → Montage.svg_height a ≠ 0 →
  Forall (λ c, Montage.rejected regenerate a l c = true)
         (Montage.safe_ratio a l :: Montage.fallback_ratios a l) →
  Montage.relocate_scale_bar regenerate a l first
  = (Montage.safe_ratio a l :: Montage.fallback_ratios a l,
     Ok (regenerate (Montage.safe_ratio a l))).
Proof.
  intros Hdef Hsvg Hall.
  unfold Montage.relocate_scale_bar. rewrite Hdef.
  destruct (Z.eqb_spec (Montage.svg_height a) 0) as [|_]; [done|].
  apply Forall_cons in Hall as [Hc Hall]. unfold Montage.rejected in Hc.
  destruct (Montage._scale_bbox_abs _ _) as [[sb|]|]; try discriminate.
  rewrite Hc, (try_candidates_none_fit regenerate a l _ _ Hall). done.
Qed.

(** The other branch of [run]: the default position is outside the panels
    but the box found in the first rendering overlaps one.  The candidates
    are 0.42, 0.12 and 0.95, and when none is taken the first rendering
    stays. *)
Lemma relocate_parsed_box_none_fit (regenerate : Q → Montage.render) (a : Montage.args)
    (l : Montage.layout) (first : Montage.render) sb :
  Montage.default_hits_depth a l = false →
  Montage._scale_bbox_abs (Montage.middle_y l) (Montage.inner first) = Ok (Some sb) →
  Montage.hits_depth a l sb = true →
  Forall (λ c, Montage.rejected regenerate a l c = true)
         [(42 # 100)%Q; (12 # 100)%Q; (95 # 100)%Q] →
  Montage.relocate_scale_bar regenerate a l first
  = ([(42 # 100)%Q; (12 # 100)%Q; (95 # 100)%Q], Ok first).
Proof.
  intros Hdef Hbox Hhit Hall. unfold Montage.relocate_scale_bar.
  rewrite Hdef, Hbox, Hhit. by apply try_candidates_none_fit.
Qed.

(** C5 (as amended: what is kept when no candidate fits).  When the default
    position of the scale bar falls in a depth panel, the search runs the
    generator on a fixed list of four ratios, in order.  It stops at the
    first ratio whose rendering has no scale-bar box or a box that overlaps
    neither panel, and that rendering is the result.  When the box of every
    candidate overlaps a panel, all four have been tried and the result is
    the rendering of the first candidate. *)
Theorem scale_bar_search_takes_first_fit (regenerate : Q → Montage.render)
    (a : Montage.args) (l : Montage.layout) (first : Montage.render) :
  Montage.default_hits_depth a l = true → Montage.svg_height a ≠ 0 →
  let candidates := Montage.safe_ratio a l :: Montage.fallback_ratios a l in
  length candidates = 4%nat
  ∧ (∀ pre r post,
       candidates = pre ++ r :: post →
       Forall (λ c, Montage.rejected regenerate a l c = true) pre →
       Montage.accepted regenerate a l r = true →
       Montage.relocate_scale_bar regenerate a l first = (pre ++ [r], Ok (regenerate r)))
  ∧ (Forall (λ c, Montage.rejected regenerate a l c = true) candidates →
     Montage.relocate_scale_bar regenerate a l first
     = (candidates, Ok (regenerate (Montage.safe_ratio a l)))).
Proof.
  intros Hdef Hsvg candidates. split; [reflexivity|]. split.
  - intros pre r post Hsplit Hpre Hacc. by eapply relocate_first_fit.
  - intros Hall. by apply relocate_none_fit.
Qed.

Section ScaleBarExampleFacts.
Import Montage ScaleBarExample.

Lemma example_layout_hits :
  default_hits_depth example_args (place example_args top_track bottom_track) = true.
Proof. vm_compute. reflexivity. Qed.

Lemma stubborn_rejected r :
  rejected stubborn example_args (place example_args top_track bottom_track) r = true.
Proof.
  unfold rejected, stubborn. simpl inner.
  destruct (Qeq_bool r (95 # 100)); vm_compute; reflexivity.
Qed.

End ScaleBarExampleFacts.

Lemma scale_bar_search_takes_first_fit_witness :
  Montage.relocate_scale_bar ScaleBarExample.stubborn ScaleBarExample.example_args
    (Montage.place ScaleBarExample.example_args ScaleBarExample.top_track
                   ScaleBarExample.bottom_track)
    ScaleBarExample.first_render
  = (Montage.safe_ratio ScaleBarExample.example_args
       (Montage.place ScaleBarExample.example_args ScaleBarExample.top_track
                      ScaleBarExample.bottom_track)
     :: Montage.fallback_ratios ScaleBarExample.example_args
          (Montage.place ScaleBarExample.example_args ScaleBarExample.top_track
                         ScaleBarExample.bottom_track),
     Ok (ScaleBarExample.stubborn
           (Montage.safe_ratio ScaleBarExample.example_args
              (Montage.place ScaleBarExample.example_args ScaleBarExample.top_track
                             ScaleBarExample.bottom_track)))).
Proof.
  refine (proj2 (proj2 (scale_bar_search_takes_first_fit ScaleBarExample.stubborn
            ScaleBarExample.example_args _ ScaleBarExample.first_render _ _)) _).
  - vm_compute. reflexivity.
  - vm_compute. discriminate.
  - repeat constructor; vm_compute; reflexivity.
Defined.

(** The claim C5 as stated fails: with the default arguments and a generator
    whose scale bar stays over the lower panel, the four candidates are all
    tried, the last one being 0.95, and the rendering kept is that of the
    first candidate, which is not the one of the last attempt. *)
Lemma kept_render_is_not_the_last_attempt :
  let out := Montage.run_scale_bar ScaleBarExample.stubborn ScaleBarExample.example_args
               [ScaleBarExample.top_track; ScaleBarExample.bottom_track]
               ScaleBarExample.first_render in
  length out.1 = 4%nat
  ∧ Forall (λ c, Montage.rejected ScaleBarExample.stubborn ScaleBarExample.example_args
                   (Montage.place ScaleBarExample.example_args ScaleBarExample.top_track
                                  ScaleBarExample.bottom_track) c = true) out.1
  ∧ last out.1 = Some (95 # 100)%Q
  ∧ out.2 ≠ Ok (ScaleBarExample.stubborn (95 # 100)).
Proof.
  cbv zeta. unfold Montage.run_scale_bar.
  rewrite (relocate_none_fit ScaleBarExample.stubborn ScaleBarExample.example_args _
             ScaleBarExample.first_render example_layout_hits
             ltac:(vm_compute; discriminate)).
  2: { repeat constructor; apply stubborn_rejected. }
  repeat split.
  - repeat constructor; apply stubborn_rejected.
  - simpl. vm_compute. discriminate.
Qed.

(** The extraction on three small texts: no scale-bar box, a box, and a box
    whose [x] is not a number. *)
Example extract_scale_bbox_absent :
  Montage._extract_scale_bbox "<g><rect class='chro' x='1'/></g>" = Ok None.
Proof. reflexivity. Qed.

Example extract_scale_bbox_present :
  Montage._extract_scale_bbox
    ("<rect y=" +:+ dquote +:+ "7" +:+ dquote +:+ " class=" +:+ dquote +:+ "scale-bbox"
     +:+ dquote +:+ " width=" +:+ dquote +:+ "50" +:+ dquote +:+ ">")
  = Ok (Some ((0 # 1), (7 # 1) + (0 # 1) / (1 # 1), (50 # 1) + (0 # 1) / (1 # 1), (0 # 1))%Q).
Proof. reflexivity. Qed.

Example extract_scale_bbox_malformed :
  Montage._extract_scale_bbox
    ("<rect x=" +:+ dquote +:+ "1.2.3" +:+ dquote +:+ " class=" +:+ dquote +:+ "scale-bbox"
     +:+ dquote +:+ ">")
  = Raise (ValueError "could not convert string to float: 1.2.3").
Proof. reflexivity. Qed.

(** ** Rational helpers *)

Lemma Qltb_lt a b : Qltb a b = true ↔ (a < b)%Q.
Proof.
  unfold Qltb. rewrite negb_true_iff. split.
  - intros H. apply Qnot_le_lt. intros Hle. apply Qle_bool_iff in Hle. congruence.
  - intros H. destruct (Qle_bool b a) eqn:E; [|done].
    apply Qle_bool_iff in E. exfalso. lra.
Qed.

Lemma Qltb_ge a b : Qltb a b = false ↔ (b <= a)%Q.
Proof.
  unfold Qltb. rewrite negb_false_iff. apply Qle_bool_iff.
Qed.

Lemma py_min_spec a b :
  ((b < a)%Q ∧ py_min a b = b) ∨ ((a <= b)%Q ∧ py_min a b = a).
Proof.
  unfold py_min. destruct (Qltb b a) eqn:E.
  - left. by apply Qltb_lt in E.
  - right. by apply Qltb_ge in E.
Qed.

Lemma py_max_spec a b :
  ((a < b)%Q ∧ py_max a b = b) ∨ ((b <= a)%Q ∧ py_max a b = a).
Proof.
  unfold py_max. destruct (Qltb a b) eqn:E.
  - left. by apply Qltb_lt in E.
  - right. by apply Qltb_ge in E.
Qed.

Lemma py_min_Qmin a b : (py_min a b == Qmin a b)%Q.
Proof.
  destruct (py_min_spec a b) as [[H ->]|[H ->]].
  - symmetry. apply Q.min_r. lra.
  - symmetry. by apply Q.min_l.
Qed.

Lemma py_max_Qmax a b : (py_max a b == Qmax a b)%Q.
Proof.
  destruct (py_max_spec a b) as [[H ->]|[H ->]].
  - symmetry. apply Q.max_r. lra.
  - symmetry. by apply Q.max_l.
Qed.

Lemma Zsum_nonneg l : Forall (λ d, 0 ≤ d) l → 0 ≤ Zsum l.
Proof. induction 1; simpl; lia. Qed.

Lemma Zsum_pos l : l ≠ [] → Forall (λ d, 0 < d) l → 0 < Zsum l.
Proof.
  intros Hne H. destruct H as [|x l Hx Hl]; [done|]. simpl.
  assert (0 ≤ Zsum l) by (apply Zsum_nonneg; eapply Forall_impl; [exact Hl|]; simpl; lia).
  lia.
Qed.

(** The mean of a non-empty array of non-negative items is not negative. *)
Lemma np_mean_nonneg l : Forall (λ d, 0 ≤ d) l → (0 <= np_mean l)%Q.
Proof.
  intros H. unfold np_mean. destruct l as [|x l].
  - simpl. unfold Qdiv, Qmult, Qle. simpl. lia.
  - apply Qle_shift_div_l.
    + replace 0%Q with (inject_Z 0) by reflexivity. rewrite <- Zlt_Qlt.
      apply len_pos. done.
    + rewrite Qmult_0_l. replace 0%Q with (inject_Z 0) by reflexivity.
      rewrite <- Zle_Qle. by apply Zsum_nonneg.
Qed.

(** ** Caps *)

Section Caps.
Import Montage.

Lemma filter_pos_Forall (l : list Z) : Forall (λ d, 0 < d) (filter (λ v, 0 < v) l).
Proof.
  apply Forall_forall. intros x Hx. by apply list_elem_of_filter in Hx as [Hx _].
Qed.

Lemma filter_pos_nonempty (l : list Z) :
  Exists (λ d, 0 < d) l → filter (λ v, 0 < v) l ≠ [].
Proof.
  intros H. apply Exists_exists in H as (x & Hx & Hpos).
  intros E. assert (x ∈ filter (λ v, 0 < v) l) as Hin by (by apply list_elem_of_filter).
  rewrite E in Hin. by apply elem_of_nil in Hin.
Qed.

Lemma avg_nonzero_nonneg arr : (0 <= avg_nonzero arr)%Q.
Proof.
  unfold avg_nonzero. destruct (0 <? len (filter (λ v, 0 < v) arr)); [|lra].
  apply np_mean_nonneg. eapply Forall_impl; [apply filter_pos_Forall|]. simpl. lia.
Qed.

Lemma avg_nonzero_pos arr : Exists (λ d, 0 < d) arr → (0 < avg_nonzero arr)%Q.
Proof.
  intros H. unfold avg_nonzero. pose proof (filter_pos_nonempty arr H) as Hne.
  pose proof (len_pos _ Hne) as Hlen.
  destruct (Z.ltb_spec 0 (len (filter (λ v, 0 < v) arr))); [|lia].
  apply Qlt_shift_div_l.
  - replace 0%Q with (inject_Z 0) by reflexivity. by rewrite <- Zlt_Qlt.
  - rewrite Qmult_0_l. replace 0%Q with (inject_Z 0) by reflexivity.
    rewrite <- Zlt_Qlt. apply Zsum_pos; [done|apply filter_pos_Forall].
Qed.

(** The cap of a dataset is its nonzero mean times the ratio. *)
Lemma cap_of_eq r arr : (cap_of r arr == avg_nonzero arr * r)%Q.
Proof.
  unfold cap_of. pose proof (avg_nonzero_nonneg arr).
  destruct (Qltb 0 (avg_nonzero arr)) eqn:E; [reflexivity|].
  apply Qltb_ge in E. assert (avg_nonzero arr == 0)%Q as -> by lra. lra.
Qed.

Lemma global_cap_pos r h n : (0 < global_cap_of r h n)%Q.
Proof.
  unfold global_cap_of.
  destruct (Qle_bool (py_max (cap_of r h) (cap_of r n)) 0) eqn:E; [lra|].
  apply Qnot_le_lt. intros Hle. apply Qle_bool_iff in Hle. congruence.
Qed.

Lemma global_cap_ge r h n :
  (cap_of r h <= global_cap_of r h n)%Q ∨ (cap_of r h <= 0)%Q.
Proof.
  unfold global_cap_of.
  destruct (Qle_bool (py_max (cap_of r h) (cap_of r n)) 0) eqn:E.
  - right. apply Qle_bool_iff in E.
    destruct (py_max_spec (cap_of r h) (cap_of r n)) as [[H Hm]|[H Hm]];
      rewrite Hm in E; lra.
  - left. destruct (py_max_spec (cap_of r h) (cap_of r n)) as [[H ->]|[H ->]]; lra.
Qed.

Lemma global_cap_ge' r h n :
  (cap_of r n <= global_cap_of r h n)%Q ∨ (cap_of r n <= 0)%Q.
Proof.
  unfold global_cap_of.
  destruct (Qle_bool (py_max (cap_of r h) (cap_of r n)) 0) eqn:E.
  - right. apply Qle_bool_iff in E.
    destruct (py_max_spec (cap_of r h) (cap_of r n)) as [[H Hm]|[H Hm]];
      rewrite Hm in E; lra.
  - left. destruct (py_max_spec (cap_of r h) (cap_of r n)) as [[H ->]|[H ->]]; lra.
Qed.

(** The cap a mean is clamped to is positive and at most the global cap. *)
Lemma clamp_cap_bounds own g :
  (0 < g)%Q → (own <= g)%Q ∨ (own <= 0)%Q →
  (0 < clamp_cap own g)%Q ∧ (clamp_cap own g <= g)%Q.
Proof.
  intros Hg Hown. unfold clamp_cap. destruct (Qltb 0 own) eqn:E.
  - apply Qltb_lt in E. split; [done|]. destruct Hown; lra.
  - split; [done|lra].
Qed.

(** A height is between nothing and the height of the panel. *)
Lemma bar_height_bounds a cap g m :
  0 ≤ depth_height a → (0 <= m)%Q → (0 < cap)%Q → (cap <= g)%Q →
  (0 <= bar_height a cap g m)%Q ∧ (bar_height a cap g m <= inject_Z (depth_height a))%Q.
Proof.
  intros Hdh Hm Hcap Hg. unfold bar_height.
  assert (0 <= inject_Z (depth_height a))%Q as Hd
    by (replace 0%Q with (inject_Z 0) by reflexivity; by rewrite <- Zle_Qle).
  assert (0 <= py_min m cap / g)%Q as H0.
  { apply Qle_shift_div_l; [lra|]. rewrite Qmult_0_l.
    destruct (py_min_spec m cap) as [[_ ->]|[_ ->]]; lra. }
  assert (py_min m cap / g <= 1)%Q as H1.
  { apply Qle_shift_div_r; [lra|].
    destruct (py_min_spec m cap) as [[? ->]|[? ->]]; lra. }
  split; nra.
Qed.

End Caps.

(** ** Window statistics *)

Section Stats.
Import DataProcessor.

Lemma py_slice_Forall {A} (P : A → Prop) (l : list A) a b :
  Forall P l → Forall P (py_slice l a b).
Proof. intros H. unfold py_slice. by apply Forall_take, Forall_drop. Qed.

Lemma window_step_ok w s seg acc i :
  Forall (λ d, 0 ≤ d) seg → stats_ok acc → stats_ok (window_step w s seg acc i).
Proof.
  intros Hseg (Hm & Hs & He). unfold window_step.
  destruct (0 <? len (py_slice seg (i * w) (Z.min ((i + 1) * w) (len seg)))); [|done].
  repeat split; simpl.
  - apply Forall_app. split; [done|]. constructor; [|constructor].
    apply np_mean_nonneg. by apply py_slice_Forall.
  - rewrite !length_app. simpl. lia.
  - rewrite !length_app. simpl. lia.
Qed.

Lemma window_fold_ok w s seg idxs : ∀ acc,
  Forall (λ d, 0 ≤ d) seg → stats_ok acc →
  stats_ok (fold_left (window_step w s seg) idxs acc).
Proof.
  induction idxs as [|i idxs IH]; intros acc Hseg Hacc; simpl; [done|].
  apply IH; [done|]. by apply window_step_ok.
Qed.

Lemma segment_step_ok w depths acc seg acc' :
  Forall (λ d, 0 ≤ d) depths → stats_ok acc →
  segment_step w depths acc seg = Ok acc' → stats_ok acc'.
Proof.
  intros Hd Hacc. unfold segment_step. destruct seg as [s e].
  destruct (len (py_slice depths s (e + 1)) =? 0); [by intros [= <-]|].
  destruct (w =? 0); [discriminate|]. intros [= <-].
  apply window_fold_ok; [|done]. by apply py_slice_Forall.
Qed.

Lemma segments_fold_ok w depths segs : ∀ acc st,
  Forall (λ d, 0 ≤ d) depths → stats_ok acc →
  segments_fold w depths acc segs = Ok st → stats_ok st.
Proof.
  induction segs as [|seg segs IH]; intros acc st Hd Hacc; simpl.
  - by intros [= <-].
  - destruct (segment_step w depths acc seg) as [acc'|] eqn:E; [|discriminate].
    simpl. apply IH; [done|]. by eapply segment_step_ok.
Qed.

Lemma stats_ok_empty : stats_ok (mkStats [] [] []).
Proof. repeat split; constructor. Qed.

(** The window means of an array without negative items are not negative,
    and there are as many starts and ends as means. *)
Lemma calculate_windowed_stats_ok w depths st :
  Forall (λ d, 0 ≤ d) depths →
  calculate_windowed_stats w depths = Ok st → stats_ok st.
Proof.
  intros Hd. unfold calculate_windowed_stats.
  destruct (len depths =? 0); [intros [= <-]; apply stats_ok_empty|].
  apply segments_fold_ok; [done|apply stats_ok_empty].
Qed.

Lemma segments_fold_total w depths segs : w ≠ 0 → ∀ acc,
  ∃ st, segments_fold w depths acc segs = Ok st.
Proof.
  intros Hw. induction segs as [|[s e] segs IH]; intros acc; simpl; [eauto|].
  destruct (len (py_slice depths s (e + 1)) =? 0); simpl; [apply IH|].
  destruct (Z.eqb_spec w 0); [done|]. simpl. apply IH.
Qed.

(** With a window size other than 0 the statistics are always computed. *)
Lemma calculate_windowed_stats_total w depths :
  w ≠ 0 → ∃ st, calculate_windowed_stats w depths = Ok st.
Proof.
  intros Hw. unfold calculate_windowed_stats.
  destruct (len depths =? 0); [eauto|]. by apply segments_fold_total.
Qed.

Lemma segments_loop_all_zero zero_mask : ∀ i acc,
  Forall (λ b, b = true) zero_mask → segments_loop zero_mask i None acc = (acc, None).
Proof.
  induction zero_mask as [|b rest IH]; intros i acc H; simpl; [done|].
  apply Forall_cons in H as [-> H]. by apply IH.
Qed.

(** An array of zeros has no window. *)
Lemma calculate_windowed_stats_all_zero w depths :
  Forall (λ d, d = 0) depths → calculate_windowed_stats w depths = Ok (mkStats [] [] []).
Proof.
  intros H. unfold calculate_windowed_stats.
  destruct (len depths =? 0); [done|].
  unfold _find_non_zero_segments. rewrite segments_loop_all_zero; [done|].
  apply Forall_forall. intros b Hb. apply list_elem_of_In in Hb.
  apply in_map_iff in Hb as (d & <- & Hd). apply list_elem_of_In in Hd.
  rewrite Forall_forall in H. rewrite (H d Hd). reflexivity.
Qed.

Lemma zero_or_positive depths :
  Forall (λ d, 0 ≤ d) depths →
  Forall (λ d, d = 0) depths ∨ Exists (λ d, 0 < d) depths.
Proof.
  induction 1 as [|d l Hd _ [IH|IH]].
  - left. constructor.
  - destruct (decide (d = 0)); [left; by constructor|right; constructor; lia].
  - right. by apply Exists_cons_tl.
Qed.

End Stats.

(** ** One half of a combined panel *)

Section HalfPanel.
Import Montage.

Lemma map_fst_fst_zip {A B C} (l1 : list A) : ∀ (l2 : list B) (l3 : list C),
  length l2 = length l1 → length l3 = length l1 →
  map (λ x : A * B * C, x.1.1) (zip (zip l1 l2) l3) = l1.
Proof.
  induction l1 as [|a l1 IH]; intros [|b l2] [|c l3] H2 H3; simpl in *; try lia; [done|].
  f_equal. apply IH; lia.
Qed.

Lemma zip3_means st :
  stats_ok st → map (λ mse : Q * Z * Z, mse.1.1) (zip3 st) = DataProcessor.all_means st.
Proof. intros (_ & Hs & He). unfold zip3. by apply map_fst_fst_zip. Qed.

Lemma zip3_mean_in st m s e :
  (m, s, e) ∈ zip3 st → m ∈ DataProcessor.all_means st.
Proof.
  unfold zip3. intros H. apply elem_of_zip_l in H. by apply elem_of_zip_l in H.
Qed.

Lemma rect_heights_app l1 l2 : rect_heights (l1 ++ l2) = rect_heights l1 ++ rect_heights l2.
Proof. unfold rect_heights. apply flat_map_app. Qed.

Lemma rect_heights_bars a upper cap g xl span seq_len base l :
  rect_heights (map (bar a upper cap g xl span seq_len base) l)
  = map (λ mse : Q * Z * Z, bar_height a cap g mse.1.1) l.
Proof.
  induction l as [|[[m s] e] l IH]; [done|]. simpl. by rewrite <- IH.
Qed.

Lemma rect_heights_mean_line a upper cap g xl xr base means :
  rect_heights (mean_line a upper cap g xl xr base means) = [].
Proof. unfold mean_line. by destruct (Qltb _ _). Qed.

(** The heights of the bars of one half, in the order of the windows. *)
Lemma half_panel_heights a upper arr own g xl xr seq_len base bg bars st :
  Forall (λ d, 0 ≤ d) arr →
  DataProcessor.calculate_windowed_stats (window_size a) arr = Ok st →
  half_panel a upper arr own g xl xr seq_len base = Ok (bg, bars) →
  rect_heights bars = map (bar_height a (clamp_cap own g) g) (DataProcessor.all_means st).
Proof.
  intros Hnn Hst. unfold half_panel. destruct (Z.ltb_spec 0 (len arr)) as [Hlen|Hlen].
  - rewrite Hst. simpl. intros [= _ <-].
    rewrite rect_heights_app, rect_heights_bars, rect_heights_mean_line, app_nil_r.
    pose proof (zip3_means st (calculate_windowed_stats_ok _ _ _ Hnn Hst)) as Hz.
    rewrite <- Hz, map_map. reflexivity.
  - intros [= _ <-]. destruct arr as [|x arr].
    + by injection Hst as <-.
    + unfold len in Hlen. simpl in Hlen. lia.
Qed.

(** The bars and the mean line of one half stay on their side of the
    baseline and within the height of the panel. *)
Lemma half_panel_in_band a upper arr own g xl xr seq_len base bg bars :
  0 ≤ depth_height a → Forall (λ d, 0 ≤ d) arr →
  (0 < g)%Q → (own <= g)%Q ∨ (own <= 0)%Q →
  half_panel a upper arr own g xl xr seq_len base = Ok (bg, bars) →
  Forall (in_band (if upper then base - inject_Z (depth_height a) else base)%Q
                  (if upper then base else base + inject_Z (depth_height a))%Q) bars
  ∧ Forall (λ h, (h <= inject_Z (depth_height a))%Q) (rect_heights bars).
Proof.
  intros Hdh Hnn Hg Hown. unfold half_panel.
  destruct (0 <? len arr); [|intros [= _ <-]; split; constructor].
  destruct (DataProcessor.calculate_windowed_stats (window_size a) arr) as [st|] eqn:Hst;
    [|discriminate].
  simpl. intros [= _ <-].
  pose proof (calculate_windowed_stats_ok _ _ _ Hnn Hst) as Hok.
  destruct (clamp_cap_bounds own g Hg Hown) as [Hc0 Hcg].
  assert (Hbar : ∀ m, (0 <= m)%Q →
            (0 <= bar_height a (clamp_cap own g) g m)%Q
            ∧ (bar_height a (clamp_cap own g) g m <= inject_Z (depth_height a))%Q)
    by (intros; by apply bar_height_bounds).
  split.
  - apply Forall_app. split.
    + apply Forall_forall. intros x Hx. apply list_elem_of_In in Hx.
      apply in_map_iff in Hx as ([[m s] e] & <- & Hin). apply list_elem_of_In in Hin.
      apply zip3_mean_in in Hin. destruct Hok as (Hm & _). rewrite Forall_forall in Hm.
      destruct (Hbar m (Hm m Hin)) as [H0 H1]. unfold bar.
      destruct upper; simpl; repeat split; lra.
    + unfold mean_line.
      destruct (Qltb 0 (if 0 <? len (DataProcessor.all_means st)
                        then np_mean_f (DataProcessor.all_means st) else 0%Q)) eqn:E;
        [|constructor].
      apply Qltb_lt in E. constructor; [|constructor].
      destruct (Hbar _ (Qlt_le_weak _ _ E)) as [H0 H1].
      destruct upper; simpl; repeat split; lra.
  - rewrite rect_heights_app, rect_heights_bars, rect_heights_mean_line, app_nil_r.
    apply Forall_forall. intros h Hh. apply list_elem_of_In in Hh.
    apply in_map_iff in Hh as ([[m s] e] & <- & Hin). apply list_elem_of_In in Hin.
    apply zip3_mean_in in Hin. destruct Hok as (Hm & _). rewrite Forall_forall in Hm.
    by apply Hbar, Hm.
Qed.

Lemma half_panel_total a upper arr own g xl xr seq_len base :
  window_size a ≠ 0 → ∃ r, half_panel a upper arr own g xl xr seq_len base = Ok r.
Proof.
  intros Hw. unfold half_panel. destruct (0 <? len arr); [|eauto].
  destruct (calculate_windowed_stats_total (window_size a) arr Hw) as [st ->].
  simpl. eauto.
Qed.

End HalfPanel.

(** C10.  With a positive panel height and arrays without negative items,
    every bar is at most [depth_height] high; a HiFi bar and the HiFi mean
    line lie between [baseline - depth_height] and the baseline, an ONT bar
    and the ONT mean line between the baseline and
    [baseline + depth_height].  The panel is built whenever the window size
    is not 0. *)
Theorem bars_stay_within_their_half (a : Montage.args) (hifi_arr ont_arr : option (list Z))
    (x_left x_right panel_origin_y : Q) :
  0 < Montage.depth_height a →
  Forall (λ d, 0 ≤ d) (default [] hifi_arr) →
  Forall (λ d, 0 ≤ d) (default [] ont_arr) →
  (Montage.window_size a ≠ 0 →
   ∃ p, Montage.build_bars_for_seq a hifi_arr ont_arr x_left x_right panel_origin_y = Ok p)
  ∧ ∀ bg_elems bars_top bars_bottom baseline_y,
      Montage.build_bars_for_seq a hifi_arr ont_arr x_left x_right panel_origin_y
      = Ok (bg_elems, bars_top, bars_bottom, baseline_y) →
      baseline_y = (panel_origin_y + inject_Z (Montage.depth_height a))%Q
      ∧ Forall (in_band (baseline_y - inject_Z (Montage.depth_height a))%Q baseline_y) bars_top
      ∧ Forall (in_band baseline_y (baseline_y + inject_Z (Montage.depth_height a))%Q)
               bars_bottom
      ∧ Forall (λ h, (h <= inject_Z (Montage.depth_height a))%Q)
               (rect_heights bars_top ++ rect_heights bars_bottom).
Proof.
  intros Hdh Hh Hn. unfold Montage.build_bars_for_seq.
  set (h := default [] hifi_arr) in *. set (n := default [] ont_arr) in *.
  set (g := Montage.global_cap_of (Montage.max_depth_ratio a) h n).
  set (base := (panel_origin_y + inject_Z (Montage.depth_height a))%Q).
  pose proof (global_cap_pos (Montage.max_depth_ratio a) h n) as Hg.
  split.
  - intros Hw. destruct (Z.max (len h) (len n) =? 0); [eauto|].
    destruct (half_panel_total a true h (Montage.cap_of (Montage.max_depth_ratio a) h)
                g x_left x_right (Z.max (len h) (len n)) base Hw) as [[bg1 top] ->].
    destruct (half_panel_total a false n (Montage.cap_of (Montage.max_depth_ratio a) n)
                g x_left x_right (Z.max (len h) (len n)) base Hw) as [[bg2 bottom] ->].
    simpl. eauto.
  - intros bg top bottom baseline.
    destruct (Z.max (len h) (len n) =? 0).
    { intros [= <- <- <- <-]. repeat split; constructor. }
    destruct (Montage.half_panel a true h _ g x_left x_right _ base)
      as [[bg1 top1]|] eqn:E1; [|discriminate].
    destruct (Montage.half_panel a false n _ g x_left x_right _ base)
      as [[bg2 bottom1]|] eqn:E2; [|discriminate].
    simpl. intros [= <- <- <- <-].
    apply half_panel_in_band in E1 as [B1 H1];
      [|lia|done|done|apply global_cap_ge].
    apply half_panel_in_band in E2 as [B2 H2];
      [|lia|done|done|apply global_cap_ge'].
    repeat split; [exact B1|exact B2|]. apply Forall_app. by split.
Qed.

Lemma bars_stay_within_their_half_witness :
  ∃ p, Montage.build_bars_for_seq ScaleBarExample.example_args
         (Some [0; 4; 6]) (Some [2; 0; 0]) (100 # 1) (1100 # 1) (40 # 1) = Ok p.
Proof.
  refine (proj1 (bars_stay_within_their_half ScaleBarExample.example_args
            (Some [0; 4; 6]) (Some [2; 0; 0]) (100 # 1) (1100 # 1) (40 # 1) _ _ _) _).
  - reflexivity.
  - repeat constructor; lia.
  - repeat constructor; lia.
  - discriminate.
Defined.

(** From the words of the specification, on the rationals. *)
Lemma spec_bar_height_eq a h n own m :
  (0 < Montage.max_depth_ratio a)%Q →
  Exists (λ d, 0 < d) own →
  (Montage.cap_of (Montage.max_depth_ratio a) own
   <= Montage.global_cap_of (Montage.max_depth_ratio a) h n)%Q →
  (Montage.global_cap_of (Montage.max_depth_ratio a) h n
   == spec_shared_cap (Montage.max_depth_ratio a) h n)%Q →
  (Montage.bar_height a
     (Montage.clamp_cap (Montage.cap_of (Montage.max_depth_ratio a) own)
        (Montage.global_cap_of (Montage.max_depth_ratio a) h n))
     (Montage.global_cap_of (Montage.max_depth_ratio a) h n) m
   == spec_bar_height (Montage.depth_height a) (Montage.max_depth_ratio a) h n own m)%Q.
Proof.
  intros Hr Hpos Hle Hg. unfold Montage.bar_height, spec_bar_height.
  pose proof (avg_nonzero_pos own Hpos) as Havg.
  assert (0 < Montage.cap_of (Montage.max_depth_ratio a) own)%Q as Hcap.
  { rewrite cap_of_eq. nra. }
  unfold Montage.clamp_cap. apply Qltb_lt in Hcap as Hb. rewrite Hb.
  rewrite py_min_Qmin, Hg, cap_of_eq. reflexivity.
Qed.

Lemma global_cap_shared r h n :
  (0 < r)%Q → Exists (λ d, 0 < d) h ∨ Exists (λ d, 0 < d) n →
  (Montage.global_cap_of r h n == spec_shared_cap r h n)%Q.
Proof.
  intros Hr Hpos. unfold Montage.global_cap_of, spec_shared_cap.
  assert (0 < py_max (Montage.cap_of r h) (Montage.cap_of r n))%Q as Hmax.
  { pose proof (avg_nonzero_nonneg h). pose proof (avg_nonzero_nonneg n).
    pose proof (cap_of_eq r h) as Eh. pose proof (cap_of_eq r n) as En.
    destruct Hpos as [Hp|Hp]; apply avg_nonzero_pos in Hp;
      destruct (py_max_spec (Montage.cap_of r h) (Montage.cap_of r n)) as [[? ->]|[? ->]];
      nra. }
  destruct (Qle_bool _ 0) eqn:E.
  - apply Qle_bool_iff in E. lra.
  - rewrite py_max_Qmax, !cap_of_eq. reflexivity.
Qed.

Lemma Forall2_Qeq_map (f g : Q → Q) (l : list Q) :
  (∀ m, m ∈ l → (f m == g m)%Q) → Forall2 Qeq (map f l) (map g l).
Proof.
  induction l as [|m l IH]; intros H; simpl; constructor.
  - apply H. by left.
  - apply IH. intros x Hx. apply H. by right.
Qed.

Lemma half_panel_of_stats a upper arr own g xl xr seq_len base st :
  DataProcessor.calculate_windowed_stats (Montage.window_size a) arr = Ok st →
  ∃ bg bars, Montage.half_panel a upper arr own g xl xr seq_len base = Ok (bg, bars).
Proof.
  intros Hst. unfold Montage.half_panel. destruct (0 <? len arr); [|eauto].
  rewrite Hst. simpl. eauto.
Qed.

(** The heights of one half against the formula of the specification. *)
Lemma half_heights_match a upper h n own xl xr seq_len base bg bars st :
  (0 < Montage.max_depth_ratio a)%Q →
  Forall (λ d, 0 ≤ d) own →
  (Exists (λ d, 0 < d) own →
   (Montage.cap_of (Montage.max_depth_ratio a) own
    <= Montage.global_cap_of (Montage.max_depth_ratio a) h n)%Q) →
  (Exists (λ d, 0 < d) own →
   (Montage.global_cap_of (Montage.max_depth_ratio a) h n
    == spec_shared_cap (Montage.max_depth_ratio a) h n)%Q) →
  DataProcessor.calculate_windowed_stats (Montage.window_size a) own = Ok st →
  Montage.half_panel a upper own (Montage.cap_of (Montage.max_depth_ratio a) own)
    (Montage.global_cap_of (Montage.max_depth_ratio a) h n) xl xr seq_len base
  = Ok (bg, bars) →
  Forall2 Qeq (rect_heights bars)
    (map (spec_bar_height (Montage.depth_height a) (Montage.max_depth_ratio a) h n own)
         (DataProcessor.all_means st)).
Proof.
  intros Hr Hnn Hle Hg Hst Hhalf.
  rewrite (half_panel_heights _ _ _ _ _ _ _ _ _ _ _ _ Hnn Hst Hhalf).
  destruct (zero_or_positive own Hnn) as [Hz|Hp].
  - rewrite (calculate_windowed_stats_all_zero _ _ Hz) in Hst. injection Hst as <-.
    constructor.
  - apply Forall2_Qeq_map. intros m _. apply spec_bar_height_eq; auto.
Qed.

(** C6 (as amended: the ratio is positive).  With [max_ratio] > 0 and arrays
    without negative items, the height of every bar is [depth_height] times
    its window mean, clamped to the cap of its own dataset (nonzero mean
    times [max_ratio]), over the shared cap: the larger of the two caps. *)
Theorem bar_heights_use_the_shared_cap (a : Montage.args) (h n : list Z)
    (x_left x_right panel_origin_y : Q) (stats_h stats_n : DataProcessor.stats) :
  (0 < Montage.max_depth_ratio a)%Q →
  Forall (λ d, 0 ≤ d) h → Forall (λ d, 0 ≤ d) n →
  DataProcessor.calculate_windowed_stats (Montage.window_size a) h = Ok stats_h →
  DataProcessor.calculate_windowed_stats (Montage.window_size a) n = Ok stats_n →
  ∃ bg_elems bars_top bars_bottom baseline_y,
    Montage.build_bars_for_seq a (Some h) (Some n) x_left x_right panel_origin_y
    = Ok (bg_elems, bars_top, bars_bottom, baseline_y)
    ∧ Forall2 Qeq (rect_heights bars_top)
        (map (spec_bar_height (Montage.depth_height a) (Montage.max_depth_ratio a) h n h)
             (DataProcessor.all_means stats_h))
    ∧ Forall2 Qeq (rect_heights bars_bottom)
        (map (spec_bar_height (Montage.depth_height a) (Montage.max_depth_ratio a) h n n)
             (DataProcessor.all_means stats_n)).
Proof.
  intros Hr Hh Hn Hsh Hsn. unfold Montage.build_bars_for_seq. simpl.
  set (g := Montage.global_cap_of (Montage.max_depth_ratio a) h n).
  set (base := (panel_origin_y + inject_Z (Montage.depth_height a))%Q).
  destruct (Z.eqb_spec (Z.max (len h) (len n)) 0) as [H0|_].
  - assert (h = []) as -> by (destruct h; [done|]; unfold len in H0; simpl in H0; lia).
    assert (n = []) as -> by (destruct n; [done|]; unfold len in H0; simpl in H0; lia).
    injection Hsh as <-. injection Hsn as <-.
    do 4 eexists. split; [reflexivity|]. split; constructor.
  - destruct (half_panel_of_stats a true h (Montage.cap_of (Montage.max_depth_ratio a) h)
                g x_left x_right (Z.max (len h) (len n)) base stats_h Hsh)
      as (bg1 & top & E1).
    destruct (half_panel_of_stats a false n (Montage.cap_of (Montage.max_depth_ratio a) n)
                g x_left x_right (Z.max (len h) (len n)) base stats_n Hsn)
      as (bg2 & bottom & E2).
    rewrite E1, E2. simpl. do 4 eexists. split; [reflexivity|]. split.
    + eapply half_heights_match; eauto.
      * intros Hp. destruct (global_cap_ge (Montage.max_depth_ratio a) h n) as [|Hle];
          [done|].
        pose proof (avg_nonzero_pos h Hp). pose proof (cap_of_eq (Montage.max_depth_ratio a) h).
        nra.
      * intros Hp. apply global_cap_shared; auto.
    + eapply half_heights_match; eauto.
      * intros Hp. destruct (global_cap_ge' (Montage.max_depth_ratio a) h n) as [|Hle];
          [done|].
        pose proof (avg_nonzero_pos n Hp). pose proof (cap_of_eq (Montage.max_depth_ratio a) n).
        nra.
      * intros Hp. apply global_cap_shared; auto.
Qed.

Lemma bar_heights_use_the_shared_cap_witness :
  ∃ bg_elems bars_top bars_bottom baseline_y,
    Montage.build_bars_for_seq ScaleBarExample.example_args (Some [0; 4; 6]) (Some [2; 0; 0])
      (100 # 1) (1100 # 1) (40 # 1)
    = Ok (bg_elems, bars_top, bars_bottom, baseline_y)
    ∧ Forall2 Qeq (rect_heights bars_top)
        (map (spec_bar_height 160 (3 # 1) [0; 4; 6] [2; 0; 0] [0; 4; 6]) [(10 # 2)%Q])
    ∧ Forall2 Qeq (rect_heights bars_bottom)
        (map (spec_bar_height 160 (3 # 1) [0; 4; 6] [2; 0; 0] [2; 0; 0]) [(2 # 1)%Q]).
Proof.
  refine (bar_heights_use_the_shared_cap ScaleBarExample.example_args
            [0; 4; 6] [2; 0; 0] (100 # 1) (1100 # 1) (40 # 1)
            (DataProcessor.mkStats [(10 # 2)%Q] [1] [2])
            (DataProcessor.mkStats [(2 # 1)%Q] [0] [0]) _ _ _ _ _).
  - reflexivity.
  - repeat constructor; lia.
  - repeat constructor; lia.
  - reflexivity.
  - reflexivity.
Defined.

(** The claim C6 as stated fails when [max_ratio] is 0: the shared cap of
    the claim is 0, the code divides by 1.0 and clamps to 1.0, and the one
    bar of the array [[4]] is as high as the panel. *)
Lemma zero_ratio_is_scaled_by_one :
  ∃ bg_elems bars_top bars_bottom baseline_y stats_h,
    Montage.build_bars_for_seq ZeroRatioExample.zero_ratio_args (Some [4]) (Some [])
      (100 # 1) (1100 # 1) (40 # 1)
    = Ok (bg_elems, bars_top, bars_bottom, baseline_y)
    ∧ DataProcessor.calculate_windowed_stats 1000 [4] = Ok stats_h
    ∧ Montage.global_cap_of (0 # 1) [4] [] = (1 # 1)%Q
    ∧ Qeq (spec_shared_cap (0 # 1) [4] []) (0 # 1)
    ∧ Forall2 Qeq (rect_heights bars_top) [(160 # 1)%Q]
    ∧ ¬ Forall2 Qeq (rect_heights bars_top)
          (map (spec_bar_height 160 (0 # 1) [4] [] [4]) (DataProcessor.all_means stats_h)).
Proof.
  do 5 eexists. split; [reflexivity|]. split; [reflexivity|]. split; [reflexivity|].
  split; [reflexivity|]. split.
  - repeat constructor.
  - intros H. apply Forall2_cons_1 in H as [H _]. vm_compute in H. discriminate.
Qed.

(** The same with a negative ratio, where the formula of the claim divides
    by a number other than 0: the claim gives twice the panel height, the
    code the panel height. *)
Example negative_ratio_is_scaled_by_one :
  ∃ bg_elems bars_top bars_bottom baseline_y,
    Montage.build_bars_for_seq ZeroRatioExample.negative_ratio_args (Some [4]) (Some [2])
      (100 # 1) (1100 # 1) (40 # 1)
    = Ok (bg_elems, bars_top, bars_bottom, baseline_y)
    ∧ Forall2 Qeq (rect_heights bars_top) [(160 # 1)%Q]
    ∧ Qeq (spec_bar_height 160 (-1 # 1) [4] [2] [4] (4 # 1)) (320 # 1).
Proof.
  do 4 eexists. split; [reflexivity|]. split; [repeat constructor|]. reflexivity.
Qed.

(** ** Further properties of the depth store *)

Section ParserRange.
Import DepthParser.
Variable targets : gset string.

Lemma stored_items_fit line : fits16 (stored_items line).
Proof.
  unfold stored_items, fits16. destruct (py_int line) as [d|]; [|constructor].
  destruct (Z.ltb_spec d 0); [constructor|].
  destruct (Z.ltb_spec 65535 d); repeat constructor; lia.
Qed.

Lemma commit_range st : range_inv st → range_inv (commit st).
Proof.
  intros [Hs Hc]. unfold commit.
  destruct (current_depth_array st) as [arr|] eqn:Ha;
    repeat (case_match; simpl); split; simpl; auto; try (rewrite Ha; auto).
  intros id arr'. destruct (decide (default "" (current_seq st) = id)) as [<-|Hne].
  - rewrite lookup_insert_eq. intros [= <-]. auto.
  - rewrite lookup_insert_ne by done. apply Hs.
Qed.

Lemma step_range st raw st' :
  range_inv st → step targets st raw = Ok st' → range_inv st'.
Proof.
  intros Hinv. unfold step. case_match.
  - intros [= <-]. destruct (commit_range st Hinv) as [Hs _].
    unfold on_header. split; simpl; [exact Hs|].
    intros arr. case_match; [|discriminate]. intros [= <-]. constructor.
  - destruct (include_current st), (current_depth_array st) as [arr|] eqn:Ha;
      try (intros [= <-]; exact Hinv).
    rewrite on_value_stored. intros [= <-].
    destruct (stored_items (py_strip raw)) as [|x items] eqn:Hi; [exact Hinv|].
    destruct Hinv as [Hs Hc]. split; simpl; [exact Hs|].
    intros arr' [= <-]. apply Forall_app. split; [by apply Hc|].
    rewrite <- Hi. apply stored_items_fit.
Qed.

Lemma loop_range ls : ∀ st st',
  range_inv st → loop targets st ls = Ok st' → range_inv st'.
Proof.
  induction ls as [|l rest IH]; intros st st' Hinv; simpl.
  - by intros [= <-].
  - destruct (step targets st l) as [st1|e] eqn:Hstep; simpl; [|discriminate].
    apply IH. by eapply step_range.
Qed.


End ParserRange.

(** X2.  Whatever the lines of the file and the target set, every item of
    every array that [parse_depth_file_filtered] stores lies in [0, 65535]:
    negative values were skipped and larger ones stored as 65535. *)
Theorem stored_depths_fit_16_bits (ls : list string) (targets : gset string)
    (p : DepthParser.t) (id : string) (arr : list Z) :
  DepthParser.parse_depth_file_filtered (DepthParser.new (DepthParser.Lines ls)) targets = Ok p →
  DepthParser.sequences p !! id = Some arr →
  Forall (λ d, 0 ≤ d ≤ 65535) arr.
Proof.
  unfold DepthParser.parse_depth_file_filtered. simpl.
  destruct (DepthParser.loop targets (DepthParser.init ∅) ls) as [st|e] eqn:Hloop;
    simpl; [|discriminate].
  intros [= <-]. simpl. intros Harr.
  assert (Hinv : range_inv (DepthParser.commit st)).
  { apply commit_range. eapply loop_range; [|exact Hloop].
    split; simpl; [|discriminate]. intros ? ?. by rewrite lookup_empty. }
  destruct Hinv as [Hs _]. by apply (Hs id).
Qed.

Lemma stored_depths_fit_16_bits_witness :
  Forall (λ d, 0 ≤ d ≤ 65535) [3; 65535; 12].
Proof.
  apply (stored_depths_fit_16_bits [">chr1"; "3"; "x"; "-2"; "70000"; " 12 "]
           {["chr1"]}
           (DepthParser.mk (DepthParser.Lines [">chr1"; "3"; "x"; "-2"; "70000"; " 12 "])
                           {["chr1" := [3; 65535; 12]]})
           "chr1").
  - reflexivity.
  - reflexivity.
Defined.



(** ** Region queries on the depth store *)

Lemma py_slice_inner {A} (l : list A) (a b : Z) :
  0 ≤ a ≤ b → b ≤ len l →
  py_slice l a b = take (Z.to_nat (b - a)) (drop (Z.to_nat a) l).
Proof.
  intros Ha Hb. unfold py_slice, slice_bound.
  destruct (Z.ltb_spec a 0); [lia|]. destruct (Z.ltb_spec b 0); [lia|].
  rewrite (Z.min_l a) by lia. rewrite (Z.min_l b) by lia. reflexivity.
Qed.

(** X4.  [get_region_depths] returns nothing for an ID that is not stored;
    for a stored array it returns the items at the positions from
    [max(0, start)] to [end], both included, that the array has, in
    order: a range that runs past either edge is cut back to the array,
    and one that lies outside it, or has its end before its start, is empty. *)
Theorem region_depths_are_the_clipped_range (self : DepthParser.t) (seq_id : string)
    (start stop : Z) :
  (DepthParser.sequences self !! seq_id = None →
   DepthParserRegion.get_region_depths self seq_id start stop = [])
  ∧ ∀ arr, DepthParser.sequences self !! seq_id = Some arr →
      ∀ (k : nat) (d : Z),
        DepthParserRegion.get_region_depths self seq_id start stop !! k = Some d
        ↔ arr !! (Z.to_nat (Z.max 0 start) + k)%nat = Some d
          ∧ Z.max 0 start + Z.of_nat k ≤ stop.
Proof.
  unfold DepthParserRegion.get_region_depths. split.
  - by intros ->.
  - intros arr -> k d.
    destruct (Z.leb_spec (Z.min (len arr) (stop + 1)) (Z.max 0 start)) as [Hle|Hlt].
    + split; [done|]. intros [Hk Hs]. apply lookup_lt_Some in Hk.
      unfold len in Hle. lia.
    + rewrite py_slice_inner by lia.
      rewrite lookup_take_Some, lookup_drop. unfold len in *.
      split; intros [Hk Hs]; (split; [exact Hk|]); apply lookup_lt_Some in Hk; lia.
Qed.

Lemma region_depths_are_the_clipped_range_witness :
  DepthParserRegion.get_region_depths
    (DepthParser.mk DepthParser.Unreadable {["chr1" := [5; 6; 7; 8]]}) "chr1" (-3) 1 !! 1%nat
  = Some 6.
Proof.
  apply (proj2 (region_depths_are_the_clipped_range
                  (DepthParser.mk DepthParser.Unreadable {["chr1" := [5; 6; 7; 8]]})
                  "chr1" (-3) 1) [5; 6; 7; 8]).
  - reflexivity.
  - split; [reflexivity|]. simpl. lia.
Defined.

(** ** Moving averages *)

Lemma elem_of_py_range (n k : Z) : k ∈ py_range n ↔ 0 ≤ k < n.
Proof.
  unfold py_range. rewrite list_elem_of_fmap. setoid_rewrite elem_of_seq. split.
  - intros (i & -> & Hi). lia.
  - intros Hk. exists (Z.to_nat k). lia.
Qed.

Lemma len_py_range (n : Z) : len (py_range n) = Z.max 0 n.
Proof. unfold len, py_range. rewrite length_map, length_seq. lia. Qed.

Lemma len_repeat {A} (x : A) (n : nat) : len (repeat x n) = Z.of_nat n.
Proof. unfold len. by rewrite repeat_length. Qed.

Lemma Qsum_scale (g : Z → Q) (f : Z → Z) (c : Q) (js : list Z) :
  (∀ j, j ∈ js → (g j == inject_Z (f j) * c)%Q) →
  (Qsum (map g js) == inject_Z (Zsum (map f js)) * c)%Q.
Proof.
  induction js as [|j js IH]; intros H; simpl.
  - ring.
  - rewrite (H j) by left. rewrite IH by (intros; apply H; by right).
    rewrite inject_Z_plus. ring.
Qed.

Lemma map_nth_range (l : list Z) (k w : Z) :
  0 ≤ k → 0 ≤ w → k + w ≤ len l →
  map (λ j, nth (Z.to_nat (k + j)) l 0) (py_range w) = py_slice l k (k + w).
Proof.
  intros Hk Hw Hl. rewrite py_slice_inner by lia. unfold py_range, len in *.
  apply list_eq. intros i. rewrite !list_lookup_fmap.
  destruct (decide (i < Z.to_nat w)%nat) as [Hi|Hi].
  - rewrite lookup_seq_lt by done. simpl.
    rewrite lookup_take_lt by lia. rewrite lookup_drop.
    destruct (lookup_lt_is_Some_2 l (Z.to_nat k + i)) as [x Hx]; [lia|].
    rewrite Hx. f_equal. apply nth_lookup_Some.
    match goal with
    | |- l !! ?n = _ => replace n with (Z.to_nat k + i)%nat by lia
    end.
    exact Hx.
  - rewrite lookup_seq_ge by lia. simpl. symmetry. apply lookup_take_ge. lia.
Qed.

Lemma convolve_at_mean (l : list Z) (w k : Z) :
  1 ≤ w → 0 ≤ k → k + w ≤ len l →
  (SlidingWindowProcessor.convolve_at l (repeat (1 / inject_Z w)%Q (Z.to_nat w)) k
   == inject_Z (Zsum (py_slice l k (k + w))) / inject_Z w)%Q.
Proof.
  intros Hw Hk Hl. unfold SlidingWindowProcessor.convolve_at.
  rewrite len_repeat, Z2Nat.id by lia.
  rewrite (Qsum_scale _ (λ j, nth (Z.to_nat (k + j)) l 0) (1 / inject_Z w)%Q).
  - rewrite map_nth_range by lia. unfold Qdiv. ring.
  - intros j Hj. apply elem_of_py_range in Hj.
    rewrite (nth_repeat_lt (1 / inject_Z w)%Q) by lia. reflexivity.
Qed.

Lemma convolve_valid_nonempty (a : list Z) (v : list Q) :
  v ≠ [] →
  SlidingWindowProcessor.convolve_valid a v
  = Ok (map (SlidingWindowProcessor.convolve_at a v) (py_range (len a - len v + 1))).
Proof. by destruct v. Qed.

(** The windows of an array that is at least as long as the window. *)
Lemma sliding_window_full (window_size : Z) (l : list Z) :
  1 ≤ window_size → window_size ≤ len l →
  ∃ avg_depths,
    SlidingWindowProcessor.calculate_sliding_window window_size
      (SlidingWindowProcessor.ArrayH l)
    = Ok (map (λ k, k + (window_size - 1) / 2) (py_range (len l - window_size + 1)),
          avg_depths)
    ∧ Forall2 (λ m k, (m == inject_Z (Zsum (py_slice l k (k + window_size)))
                            / inject_Z window_size)%Q)
              avg_depths (py_range (len l - window_size + 1)).
Proof.
  intros Hw Hl.
  unfold SlidingWindowProcessor.calculate_sliding_window. simpl.
  destruct (Z.eqb_spec (len l) 0); [lia|].
  unfold SlidingWindowProcessor.kernel.
  destruct (Z.ltb_spec window_size 0); [lia|]. simpl.
  destruct (Z.ltb_spec (len l) window_size); [lia|].
  rewrite convolve_valid_nonempty.
  2:{ intros Hnil. apply (f_equal length) in Hnil. rewrite repeat_length in Hnil.
      simpl in Hnil. lia. }
  simpl. rewrite len_map, len_py_range, len_repeat, Z2Nat.id by lia.
  destruct (Z.eqb_spec (Z.max 0 (len l - window_size + 1)) 0); [lia|].
  eexists. split; [reflexivity|].
  apply Forall2_fmap_l. apply Forall_Forall2_diag. apply Forall_forall.
  intros k Hk. apply elem_of_py_range in Hk. simpl.
  apply convolve_at_mean; lia.
Qed.

(** X5.  For a window size W >= 1 and an array of at least W depths,
    [calculate_sliding_window] returns one window for every start
    0 .. L - W: its position is the start plus (W - 1) // 2, and its value
    is the sum of the W depths from that start on, divided by W. *)
Theorem sliding_window_is_the_moving_average (window_size : Z) (l : list Z) :
  1 ≤ window_size → window_size ≤ len l →
  ∃ avg_depths,
    SlidingWindowProcessor.calculate_sliding_window window_size
      (SlidingWindowProcessor.ArrayH l)
    = Ok (map (λ k, k + (window_size - 1) / 2) (py_range (len l - window_size + 1)),
          avg_depths)
    ∧ Forall2 (λ m k, (m == inject_Z (Zsum (py_slice l k (k + window_size)))
                            / inject_Z window_size)%Q)
              avg_depths (py_range (len l - window_size + 1)).
Proof. apply sliding_window_full. Qed.

Lemma sliding_window_is_the_moving_average_witness :
  ∃ avg_depths,
    SlidingWindowProcessor.calculate_sliding_window 2 (SlidingWindowProcessor.ArrayH [4; 6; 10])
    = Ok (map (λ k, k + (2 - 1) / 2) (py_range (len [4; 6; 10] - 2 + 1)), avg_depths)
    ∧ Forall2 (λ m k, Qeq m (Qdiv (inject_Z (Zsum (py_slice [4; 6; 10] k (k + 2))))
                                  (inject_Z 2)))
              avg_depths (py_range (len [4; 6; 10] - 2 + 1)).
Proof.
  apply (sliding_window_is_the_moving_average 2 [4; 6; 10]).
  - lia.
  - vm_compute. discriminate.
Defined.

(** X6.  [calculate_sliding_window] succeeds on an array exactly when the
    array is empty or the window size is at least 1: a window size of 0 or
    below on an array with items raises [ValueError].  An [ndarray] is
    treated like an [array.array], and any other input raises [TypeError]
    whatever the window size. *)
Theorem sliding_window_failures (window_size : Z) (l : list Z) :
  (is_ok (SlidingWindowProcessor.calculate_sliding_window window_size
            (SlidingWindowProcessor.ArrayH l)) = true
   ↔ l = [] ∨ 1 ≤ window_size)
  ∧ (l ≠ [] → window_size ≤ 0 →
     ∃ msg, SlidingWindowProcessor.calculate_sliding_window window_size
              (SlidingWindowProcessor.ArrayH l) = Raise (ValueError msg))
  ∧ SlidingWindowProcessor.calculate_sliding_window window_size
      (SlidingWindowProcessor.NdArray l)
    = SlidingWindowProcessor.calculate_sliding_window window_size
        (SlidingWindowProcessor.ArrayH l)
  ∧ ∃ msg, SlidingWindowProcessor.calculate_sliding_window window_size
             SlidingWindowProcessor.Other = Raise (TypeError msg).
Proof.
  assert (Hbad : l ≠ [] → window_size ≤ 0 →
     ∃ msg, SlidingWindowProcessor.calculate_sliding_window window_size
              (SlidingWindowProcessor.ArrayH l) = Raise (ValueError msg)).
  { intros Hne Hw. unfold SlidingWindowProcessor.calculate_sliding_window. simpl.
    destruct (Z.eqb_spec (len l) 0) as [H0|_].
    { destruct l; [done|]. rewrite len_cons in H0. pose proof (len_nonneg l). lia. }
    unfold SlidingWindowProcessor.kernel.
    destruct (Z.ltb_spec window_size 0); simpl; [eauto|].
    assert (window_size = 0) as -> by lia. simpl.
    destruct (Z.ltb_spec (len l) 0); [pose proof (len_nonneg l); lia|].
    simpl. eauto. }
  split; [split|split; [exact Hbad|split; [reflexivity|eexists; reflexivity]]].
  - intros Hok. destruct l as [|d l']; [by left|]. right.
    destruct (Z.le_gt_cases window_size 0) as [Hw|Hw]; [|lia].
    destruct (Hbad ltac:(done) Hw) as [msg Hr]. rewrite Hr in Hok. discriminate.
  - intros [->|Hw]; [reflexivity|].
    destruct (Z.le_gt_cases window_size (len l)) as [Hl|Hl].
    + destruct (sliding_window_full window_size l Hw Hl) as (r & -> & _).
      reflexivity.
    + unfold SlidingWindowProcessor.calculate_sliding_window. simpl.
      destruct (len l =? 0); [reflexivity|].
      unfold SlidingWindowProcessor.kernel.
      destruct (Z.ltb_spec window_size 0); [lia|]. simpl.
      destruct (Z.ltb_spec (len l) window_size); [reflexivity|lia].
Qed.

(** ** Merging windows of similar depth *)

Section Merge.
Import WindowMerge.
Variable positions : list Z.
Variable depths : list Q.

Lemma merge_step_found st i :
  (i < length depths)%nat → (i < length positions)%nat →
  length (merged_regions st) = length (merged_depths st) →
  ∃ st', merge_step positions depths st i = Found st'
    ∧ length (merged_regions st') = length (merged_depths st')
    ∧ (length (merged_depths st') ≤ length (merged_depths st) + 1)%nat
    ∧ positions !! i = Some (current_end st')
    ∧ fst <$> head (merged_regions st' ++ [(current_start st', current_end st')])
      = fst <$> head (merged_regions st ++ [(current_start st, current_end st)]).
Proof.
  intros Hd Hp Hlen. unfold merge_step.
  destruct (lookup_lt_is_Some_2 depths i Hd) as [d ->].
  destruct (lookup_lt_is_Some_2 positions i Hp) as [p ->].
  destruct (Qltb (Qabs (d - current_depth st)) (1 # 10)); eexists; (split; [reflexivity|]);
    simpl; repeat split.
  - exact Hlen.
  - lia.
  - by destruct (merged_regions st).
  - rewrite !length_app. simpl. lia.
  - rewrite length_app. simpl. lia.
  - by destruct (merged_regions st).
Qed.

Lemma merge_loop_found m : ∀ a st,
  (1 ≤ a)%nat → (a + m ≤ length depths)%nat → (length depths ≤ length positions)%nat →
  length (merged_regions st) = length (merged_depths st) →
  positions !! (a - 1)%nat = Some (current_end st) →
  ∃ st', merge_loop positions depths st (seq a m) = Found st'
    ∧ length (merged_regions st') = length (merged_depths st')
    ∧ (length (merged_depths st') ≤ length (merged_depths st) + m)%nat
    ∧ positions !! (a + m - 1)%nat = Some (current_end st')
    ∧ fst <$> head (merged_regions st' ++ [(current_start st', current_end st')])
      = fst <$> head (merged_regions st ++ [(current_start st, current_end st)]).
Proof.
  induction m as [|m IH]; intros a st Ha Hm Hlp Hlen Hend; simpl.
  - exists st. repeat split; auto; [lia|]. by rewrite Nat.add_0_r.
  - destruct (merge_step_found st a) as (st1 & -> & Hlen1 & Hle1 & Hend1 & Hhd1);
      [lia|lia|exact Hlen|].
    destruct (IH (S a) st1) as (st2 & -> & Hlen2 & Hle2 & Hend2 & Hhd2);
      [lia|lia|exact Hlp|exact Hlen1|by rewrite Nat.sub_succ, Nat.sub_0_r|].
    exists st2. repeat split; auto; [lia| |congruence].
    by replace (a + S m - 1)%nat with (S a + m - 1)%nat by lia.
Qed.

Lemma merge_loop_index_error m : ∀ a st i,
  (a ≤ i < a + m)%nat → (a + m ≤ length depths)%nat → positions !! i = None →
  merge_loop positions depths st (seq a m) = IndexError.
Proof.
  induction m as [|m IH]; intros a st i Hi Hm Hnone; simpl; [lia|].
  unfold merge_step at 1.
  destruct (lookup_lt_is_Some_2 depths a) as [d ->]; [lia|].
  destruct (positions !! a) as [p|] eqn:Hp; [|reflexivity].
  assert (i ≠ a) by congruence.
  destruct (Qltb (Qabs (d - current_depth st)) (1 # 10)); apply (IH _ _ i); auto; lia.
Qed.

End Merge.

(** X7.  [merge_consecutive_windows] fails with [IndexError] exactly when
    there are depths and fewer positions than depths; with no depths it
    returns two empty lists whatever the positions are. *)
Theorem merge_fails_on_short_positions (positions : list Z) (depths : list Q) :
  (WindowMerge.merge_consecutive_windows positions depths = WindowMerge.IndexError
   ↔ depths ≠ [] ∧ (length positions < length depths)%nat)
  ∧ WindowMerge.merge_consecutive_windows positions [] = WindowMerge.Found ([], []).
Proof.
  split; [|reflexivity]. unfold WindowMerge.merge_consecutive_windows.
  destruct depths as [|d0 ds]; [split; [discriminate|intros [? _]; done]|].
  destruct positions as [|p0 ps]; [split; [intros _; split; [done|simpl; lia]|done]|].
  destruct (decide (length (p0 :: ps) < length (d0 :: ds))%nat) as [Hlt|Hge].
  - rewrite (merge_loop_index_error _ _ _ _ _ (length (p0 :: ps))).
    + split; [intros _; split; [done|exact Hlt]|done].
    + simpl in *. lia.
    + simpl in *. lia.
    + apply lookup_ge_None. lia.
  - destruct (merge_loop_found (p0 :: ps) (d0 :: ds) (length (d0 :: ds) - 1) 1
                (WindowMerge.mkMerge [] [] p0 d0 p0)) as (st & -> & _);
      [lia|simpl; lia|lia|reflexivity|reflexivity|].
    split; [discriminate|]. intros [_ Hlt]. lia.
Qed.

(** X8.  Given depths and at least as many positions,
    [merge_consecutive_windows] returns as many regions as merged depths,
    at least one and at most one per window; the first region starts at
    the first position and the last region ends at the position of the
    last window. *)
Theorem merge_keeps_the_ends (positions : list Z) (depths : list Q) :
  depths ≠ [] → (length depths ≤ length positions)%nat →
  ∃ regions ds,
    WindowMerge.merge_consecutive_windows positions depths = WindowMerge.Found (regions, ds)
    ∧ length regions = length ds
    ∧ (1 ≤ length ds ≤ length depths)%nat
    ∧ fst <$> head regions = positions !! 0%nat
    ∧ snd <$> last regions = positions !! (length depths - 1)%nat.
Proof.
  intros Hne Hlen. unfold WindowMerge.merge_consecutive_windows.
  destruct depths as [|d0 ds]; [done|].
  destruct positions as [|p0 ps]; [simpl in Hlen; lia|].
  destruct (merge_loop_found (p0 :: ps) (d0 :: ds) (length (d0 :: ds) - 1) 1
              (WindowMerge.mkMerge [] [] p0 d0 p0))
    as (st & -> & Hl & Hle & Hend & Hhd);
    [lia|simpl; lia|lia|reflexivity|reflexivity|].
  eexists _, _. split; [reflexivity|]. simpl in *.
  rewrite !length_app, Hl. simpl. repeat split; try lia.
  - exact Hhd.
  - rewrite last_snoc. simpl. rewrite Nat.sub_0_r in Hend.
    replace (length ds - 0)%nat with (length ds) by lia.
    destruct (length ds); simpl in *; by rewrite Hend.
Qed.

Lemma merge_keeps_the_ends_witness :
  ∃ regions ds,
    WindowMerge.merge_consecutive_windows [0; 1; 2; 3]
      [(5 # 1)%Q; (5 # 1)%Q; (9 # 1)%Q] = WindowMerge.Found (regions, ds)
    ∧ length regions = length ds
    ∧ (1 ≤ length ds ≤ length [(5 # 1)%Q; (5 # 1)%Q; (9 # 1)%Q])%nat
    ∧ fst <$> head regions = [0; 1; 2; 3] !! 0%nat
    ∧ snd <$> last regions
      = [0; 1; 2; 3] !! (length [(5 # 1)%Q; (5 # 1)%Q; (9 # 1)%Q] - 1)%nat.
Proof.
  apply (merge_keeps_the_ends [0; 1; 2; 3] [(5 # 1)%Q; (5 # 1)%Q; (9 # 1)%Q]).
  - discriminate.
  - simpl. lia.
Defined.

(** ** Runs of a mask are maximal *)

Section RunsMaximal.

(** Every run found from index [i] on ends at [i - 1] or later, and the
    mask is not true just behind its end. *)
Lemma runs_ends mask : ∀ i start,
  Forall (λ r : Z * Z, i - 1 ≤ r.2 ∧ mask !! Z.to_nat (r.2 + 1 - i) ≠ Some true)
         (runs mask i start).
Proof.
  induction mask as [|v rest IH]; intros i start.
  - rewrite runs_nil. destruct start as [s|]; repeat constructor; simpl; [lia|done].
  - rewrite runs_cons.
    assert (Hshift : ∀ start',
      Forall (λ r : Z * Z, i - 1 ≤ r.2 ∧ (v :: rest) !! Z.to_nat (r.2 + 1 - i) ≠ Some true)
             (runs rest (i + 1) start')).
    { intros start'. eapply Forall_impl; [apply (IH (i + 1) start')|].
      simpl. intros r [H1 H2]. split; [lia|].
      replace (Z.to_nat (r.2 + 1 - i)) with (S (Z.to_nat (r.2 + 1 - (i + 1)))) by lia.
      exact H2. }
    destruct v, start as [s|]; try apply Hshift.
    constructor; [|apply Hshift]. simpl. split; [lia|].
    rewrite Z.sub_add, Z.sub_diag. simpl. discriminate.
Qed.

Lemma ForallOrdPairs_strengthen {A} (R S : A → A → Prop) (l : list A) :
  (∀ a b, a ∈ l → b ∈ l → R a b → S a b) →
  ForallOrdPairs R l → ForallOrdPairs S l.
Proof.
  intros HRS H. induction H as [|a l Ha _ IH]; constructor.
  - apply Forall_forall. intros b Hb. rewrite Forall_forall in Ha.
    apply HRS; [left|by right|]. by apply Ha.
  - apply IH. intros x y Hx Hy. apply HRS; by right.
Qed.

Lemma mask_to_regions_runs mask : DataProcessor._mask_to_regions mask = runs mask 0 None.
Proof.
  unfold DataProcessor._mask_to_regions, runs, close_run. simpl.
  destruct (regions_loop mask 0 None []) as [regions [s|]]; reflexivity.
Qed.

Lemma mask_to_regions_find mask :
  DataProcessor._mask_to_regions mask = DepthRegionAnalyzer._find_continuous_regions mask.
Proof. by rewrite mask_to_regions_runs, find_continuous_regions_runs. Qed.

End RunsMaximal.

(** X9.  For every mask, [_mask_to_regions] returns closed intervals inside
    [0, len - 1], in ascending order with at least one index between two
    neighbours, that cover exactly the indexes where the mask is true: each
    interval is a maximal run of true values, a run that reaches the end of
    the mask included.  [_find_continuous_regions] of the other class
    returns the same list. *)
Theorem mask_regions_are_the_maximal_runs (mask : list bool) :
  Forall (λ r : Z * Z, 0 ≤ r.1 ∧ r.1 ≤ r.2 ∧ r.2 ≤ len mask - 1)
         (DataProcessor._mask_to_regions mask)
  ∧ ForallOrdPairs (λ a b : Z * Z, a.2 + 1 < b.1) (DataProcessor._mask_to_regions mask)
  ∧ (∀ k, 0 ≤ k < len mask →
       (covers (DataProcessor._mask_to_regions mask) k ↔ mask !! Z.to_nat k = Some true))
  ∧ DepthRegionAnalyzer._find_continuous_regions mask = DataProcessor._mask_to_regions mask.
Proof.
  rewrite mask_to_regions_runs.
  destruct (runs_spec mask 0 None) as (H1 & H2 & H3 & _); [intros; discriminate|].
  pose proof (runs_ends mask 0 None) as He. simpl in *.
  assert (Hcov : ∀ k, 0 ≤ k < len mask →
            (covers (runs mask 0 None) k ↔ mask !! Z.to_nat k = Some true)).
  { intros k Hk. specialize (H3 k ltac:(lia)). by rewrite Z.sub_0_r in H3. }
  repeat split.
  - exact H1.
  - eapply ForallOrdPairs_strengthen; [|exact H2]. simpl.
    intros a b Ha Hb Hab.
    destruct (decide (a.2 + 1 = b.1)) as [Heq|]; [exfalso|lia].
    rewrite Forall_forall in He, H1.
    destruct (He a Ha) as [_ Hend].
    pose proof (H1 b Hb) as Hb'. simpl in Hb'.
    apply Hend. rewrite Z.sub_0_r, Heq. apply Hcov; [lia|].
    unfold covers. apply Exists_exists. exists b. split; [done|lia].
  - by apply Hcov.
  - by apply Hcov.
  - apply find_continuous_regions_runs.
Qed.

(** X10.  [DataProcessor.analyze_depth_regions] on an array with items
    returns the two lists [zero] and [low], and no third: whatever the
    threshold, an index is in a zero region exactly when its depth is 0 and
    in a low region exactly when its depth is above 0 and below the
    threshold, and no zero region meets a low region.  On an empty array
    it returns three empty lists, [medium] being the third. *)
Theorem processor_regions_by_depth (depths : list Z) (min_safe_depth : Z) :
  (depths ≠ [] →
   ∃ zero low,
     DataProcessor.analyze_depth_regions depths min_safe_depth
     = [("zero", zero); ("low", low)]
     ∧ (∀ k d, 0 ≤ k → depths !! Z.to_nat k = Some d →
          (covers zero k ↔ d = 0) ∧ (covers low k ↔ 0 < d < min_safe_depth))
     ∧ (∀ a b, a ∈ zero → b ∈ low → interval_disjoint a b))
  ∧ DataProcessor.analyze_depth_regions [] min_safe_depth
    = [("zero", []); ("low", []); ("medium", [])].
Proof.
  split; [|reflexivity]. intros Hne.
  unfold DataProcessor.analyze_depth_regions.
  destruct (Z.eqb_spec (len depths) 0) as [H0|_].
  { destruct depths; [done|]. rewrite len_cons in H0. pose proof (len_nonneg depths). lia. }
  eexists _, _. split; [reflexivity|].
  rewrite !mask_to_regions_find.
  set (mz := map (λ d, d =? 0) depths).
  set (ml := map (λ d, (0 <? d) && (d <? min_safe_depth)) depths).
  destruct (find_continuous_regions_spec mz) as (_ & _ & Cz).
  destruct (find_continuous_regions_spec ml) as (_ & _ & Cl).
  assert (Lz : len mz = len depths) by apply len_map.
  assert (Ll : len ml = len depths) by apply len_map.
  assert (Hz : ∀ n, mz !! n = Some true ↔ ∃ d, depths !! n = Some d ∧ d = 0).
  { intros n. unfold mz. rewrite mask_lookup.
    split; intros (d & Hd & H); exists d; (split; [done|]); by apply Z.eqb_eq. }
  assert (Hl : ∀ n, ml !! n = Some true ↔ ∃ d, depths !! n = Some d ∧ 0 < d < min_safe_depth).
  { intros n. unfold ml. rewrite mask_lookup.
    split; intros (d & Hd & H); exists d; (split; [done|]).
    - apply andb_true_iff in H as [H1 H2]. apply Z.ltb_lt in H1, H2. lia.
    - apply andb_true_iff. split; apply Z.ltb_lt; lia. }
  split.
  - intros k d Hk Hd.
    assert (Hin : 0 ≤ k < len depths).
    { apply lookup_lt_Some in Hd. unfold len. lia. }
    split; split.
    + intros Hc. apply Cz in Hc; [|lia]. apply Hz in Hc as (d' & ? & ?). congruence.
    + intros ->. apply Cz; [lia|]. apply Hz. eauto.
    + intros Hc. apply Cl in Hc; [|lia]. apply Hl in Hc as (d' & ? & ?).
      assert (d = d') by congruence. lia.
    + intros Hd'. apply Cl; [lia|]. apply Hl. eauto.
  - intros a b Ha Hb. eapply (regions_of_exclusive_masks mz ml); eauto; [congruence|].
    intros n H1 H2. apply Hz in H1 as (d & Hd & ?). apply Hl in H2 as (d' & Hd' & ?).
    assert (d = d') by congruence. lia.
Qed.

Lemma processor_regions_by_depth_witness :
  ∃ zero low,
    DataProcessor.analyze_depth_regions [0; 3; 7; 0] (-2) = [("zero", zero); ("low", low)]
    ∧ (∀ k d, 0 ≤ k → [0; 3; 7; 0] !! Z.to_nat k = Some d →
         (covers zero k ↔ d = 0) ∧ (covers low k ↔ 0 < d < -2))
    ∧ (∀ a b, a ∈ zero → b ∈ low → interval_disjoint a b).
Proof.
  apply (proj1 (processor_regions_by_depth [0; 3; 7; 0] (-2))). discriminate.
Defined.

(** ** Windows of [calculate_windowed_stats] *)

Section Windows.
Import DataProcessor.

Lemma elem_of_flat_map {A B} (f : A → list B) (l : list A) (x : B) :
  x ∈ flat_map f l ↔ ∃ y, y ∈ l ∧ x ∈ f y.
Proof.
  rewrite list_elem_of_In, in_flat_map.
  split; intros (y & H1 & H2); exists y; by rewrite ?list_elem_of_In in *.
Qed.

Lemma ForallOrdPairs_flat_map {A B} (P : A → A → Prop) (R : B → B → Prop)
    (f : A → list B) (l : list A) :
  ForallOrdPairs P l →
  (∀ x, x ∈ l → ForallOrdPairs R (f x)) →
  (∀ x y a b, x ∈ l → y ∈ l → P x y → a ∈ f x → b ∈ f y → R a b) →
  ForallOrdPairs R (flat_map f l).
Proof.
  intros H. induction H as [|x l Hx _ IH]; intros Hf Hc; simpl; [constructor|].
  apply ForallOrdPairs_app.
  - apply Hf. left.
  - apply IH; [intros; apply Hf; by right|].
    intros ? ? ? ? ? ?. apply Hc; by right.
  - intros a b Ha Hb. apply elem_of_flat_map in Hb as (y & Hy & Hb).
    rewrite Forall_forall in Hx. eapply Hc; eauto; [left|by right].
Qed.

Lemma py_range_sorted (n : Z) : ForallOrdPairs Z.lt (py_range n).
Proof.
  unfold py_range. generalize 0%nat.
  induction (Z.to_nat n) as [|m IH]; intros a; simpl; constructor; [|apply IH].
  apply Forall_forall. intros k Hk.
  apply list_elem_of_fmap in Hk as (j & -> & Hj). apply elem_of_seq in Hj. lia.
Qed.

Lemma len_py_slice {A} (l : list A) (a b : Z) :
  0 ≤ a → 0 ≤ b →
  len (py_slice l a b) = Z.max 0 (Z.min b (len l) - Z.min a (len l)).
Proof.
  intros Ha Hb. unfold py_slice, slice_bound.
  destruct (Z.ltb_spec a 0); [lia|]. destruct (Z.ltb_spec b 0); [lia|].
  unfold len. rewrite length_take, length_drop. lia.
Qed.

Lemma py_slice_slice {A} (l : list A) (s e a b : Z) :
  0 ≤ s → s ≤ e → e ≤ len l → 0 ≤ a → a ≤ b → b ≤ e - s →
  py_slice (py_slice l s e) a b = py_slice l (s + a) (s + b).
Proof.
  intros. rewrite (py_slice_inner l s e) by lia.
  assert (Hl : len (take (Z.to_nat (e - s)) (drop (Z.to_nat s) l)) = e - s).
  { unfold len in *. rewrite length_take, length_drop. lia. }
  rewrite py_slice_inner by lia. rewrite (py_slice_inner l) by lia.
  rewrite skipn_firstn_comm, take_take, drop_drop.
  f_equal; [lia|]. f_equal. lia.
Qed.

(** *** The three lists as one list of entries *)

Lemma window_step_push w s seg acc i :
  window_step w s seg acc i = fold_left push_window (window_entry w s seg i) acc.
Proof. unfold window_step, window_entry. by case_match. Qed.

Lemma window_fold_push w s seg idxs : ∀ acc,
  fold_left (window_step w s seg) idxs acc
  = fold_left push_window (flat_map (window_entry w s seg) idxs) acc.
Proof.
  induction idxs as [|i idxs IH]; intros acc; simpl; [done|].
  by rewrite fold_left_app, IH, window_step_push.
Qed.

Lemma segment_step_push w depths acc seg :
  w ≠ 0 →
  segment_step w depths acc seg
  = Ok (fold_left push_window (segment_entries w depths seg) acc).
Proof.
  intros Hw. unfold segment_step, segment_entries. destruct seg as [s e]. simpl.
  destruct (len (py_slice depths s (e + 1)) =? 0); [done|].
  destruct (Z.eqb_spec w 0); [done|]. by rewrite window_fold_push.
Qed.

Lemma segments_fold_push w depths segs : w ≠ 0 → ∀ acc,
  segments_fold w depths acc segs
  = Ok (fold_left push_window (flat_map (segment_entries w depths) segs) acc).
Proof.
  intros Hw. induction segs as [|seg segs IH]; intros acc; simpl; [done|].
  rewrite segment_step_push by done. simpl. by rewrite IH, fold_left_app.
Qed.

Lemma push_fold es : ∀ acc,
  all_means (fold_left push_window es acc) = all_means acc ++ es.*1
  ∧ all_starts (fold_left push_window es acc) = all_starts acc ++ es.*2.*1
  ∧ all_ends (fold_left push_window es acc) = all_ends acc ++ es.*2.*2.
Proof.
  induction es as [|x es IH]; intros acc; simpl.
  - by rewrite !app_nil_r.
  - destruct (IH (push_window acc x)) as (-> & -> & ->). simpl.
    by rewrite <- !app_assoc.
Qed.

(** *** The segments are the runs of non-zero depths *)

Lemma segments_loop_regions zero_mask : ∀ i start segs,
  segments_loop zero_mask i start segs = regions_loop (map negb zero_mask) i start segs.
Proof.
  induction zero_mask as [|z rest IH]; intros i start segs; simpl; [done|].
  destruct z, start; simpl; apply IH.
Qed.

Lemma find_non_zero_segments_runs depths :
  _find_non_zero_segments depths (map (λ d, d =? 0) depths)
  = runs (map (λ d, negb (d =? 0)) depths) 0 None.
Proof.
  unfold _find_non_zero_segments, runs, close_run.
  rewrite segments_loop_regions, map_map, len_map. simpl.
  destruct (regions_loop _ 0 None []) as [segs [s|]]; reflexivity.
Qed.

Lemma calculate_windowed_stats_fold w depths :
  calculate_windowed_stats w depths
  = segments_fold w depths (mkStats [] [] [])
      (runs (map (λ d, negb (d =? 0)) depths) 0 None).
Proof.
  unfold calculate_windowed_stats.
  destruct (Z.eqb_spec (len depths) 0) as [H0|_].
  - destruct depths; [reflexivity|]. rewrite len_cons in H0.
    pose proof (len_nonneg depths). lia.
  - by rewrite find_non_zero_segments_runs.
Qed.

Lemma nonzero_segments_spec depths :
  let segs := runs (map (λ d, negb (d =? 0)) depths) 0 None in
  Forall (λ r : Z * Z, 0 ≤ r.1 ∧ r.1 ≤ r.2 ∧ r.2 ≤ len depths - 1) segs
  ∧ ForallOrdPairs (λ a b : Z * Z, a.2 < b.1) segs
  ∧ (∀ k, 0 ≤ k < len depths →
       (covers segs k ↔ ∃ d, depths !! Z.to_nat k = Some d ∧ d ≠ 0)).
Proof.
  simpl. destruct (runs_spec (map (λ d, negb (d =? 0)) depths) 0 None)
    as (H1 & H2 & H3 & _); [intros; discriminate|].
  rewrite len_map in *. simpl in *. repeat split; auto.
  - intros Hc. apply H3 in Hc; [|lia]. rewrite Z.sub_0_r in Hc.
    apply mask_lookup in Hc as (d & Hd & Hnz). exists d. split; [done|].
    apply negb_true_iff in Hnz. by apply Z.eqb_neq.
  - intros (d & Hd & Hnz). apply H3; [lia|]. rewrite Z.sub_0_r.
    apply mask_lookup. exists d. split; [done|].
    apply negb_true_iff. by apply Z.eqb_neq.
Qed.

(** *** The windows of one segment *)

Lemma window_entry_inner w depths s e i :
  1 ≤ w → 0 ≤ s → s ≤ e → e ≤ len depths - 1 → 0 ≤ i →
  window_entry w s (py_slice depths s (e + 1)) i
  = if i * w <? e - s + 1
    then [(np_mean (py_slice depths (s + i * w)
                             (s + Z.min ((i + 1) * w) (e - s + 1))),
           (s + i * w, s + Z.min ((i + 1) * w) (e - s + 1) - 1))]
    else [].
Proof.
  intros Hw Hs He Hl Hi. unfold window_entry.
  assert (HL : len (py_slice depths s (e + 1)) = e - s + 1).
  { rewrite len_py_slice by lia. lia. }
  rewrite HL. rewrite len_py_slice by nia. rewrite HL.
  destruct (Z.ltb_spec (i * w) (e - s + 1)) as [Hlt|Hge].
  - destruct (Z.ltb_spec 0 (Z.max 0 (Z.min (Z.min ((i + 1) * w) (e - s + 1)) (e - s + 1)
                                     - Z.min (i * w) (e - s + 1)))); [|nia].
    rewrite py_slice_slice by nia.
    replace (e + 1 - s) with (e - s + 1) by lia. reflexivity.
  - destruct (Z.ltb_spec 0 (Z.max 0 (Z.min (Z.min ((i + 1) * w) (e - s + 1)) (e - s + 1)
                                     - Z.min (i * w) (e - s + 1)))); [nia|done].
Qed.

Lemma segment_entries_elem w depths s e x :
  1 ≤ w → 0 ≤ s → s ≤ e → e ≤ len depths - 1 →
  x ∈ segment_entries w depths (s, e)
  ↔ ∃ i, 0 ≤ i < num_windows w (e - s + 1) ∧ i * w < e - s + 1
       ∧ x = (np_mean (py_slice depths (s + i * w)
                                (s + Z.min ((i + 1) * w) (e - s + 1))),
              (s + i * w, s + Z.min ((i + 1) * w) (e - s + 1) - 1)).
Proof.
  intros Hw Hs He Hl. unfold segment_entries. simpl.
  assert (HL : len (py_slice depths s (e + 1)) = e - s + 1).
  { rewrite len_py_slice by lia. lia. }
  rewrite HL. destruct (Z.eqb_spec (e - s + 1) 0); [lia|].
  rewrite elem_of_flat_map. split.
  - intros (i & Hi & Hx). apply elem_of_py_range in Hi.
    rewrite window_entry_inner in Hx by lia.
    destruct (Z.ltb_spec (i * w) (e - s + 1)); [|by apply elem_of_nil in Hx].
    apply list_elem_of_singleton in Hx. eauto.
  - intros (i & Hi & Hlt & ->). exists i. split; [by apply elem_of_py_range|].
    rewrite window_entry_inner by lia.
    destruct (Z.ltb_spec (i * w) (e - s + 1)); [|lia]. left.
Qed.

Lemma num_windows_enough w L j :
  1 ≤ w → 1 ≤ L → 0 ≤ j < L → j / w < num_windows w L.
Proof.
  intros Hw HL Hj. unfold num_windows.
  pose proof (Z.div_mod L w ltac:(lia)) as HLq.
  pose proof (Z.mod_pos_bound L w ltac:(lia)) as HLr.
  pose proof (Z.div_mod j w ltac:(lia)) as Hjq.
  pose proof (Z.mod_pos_bound j w ltac:(lia)) as Hjr.
  destruct (Z.eqb_spec (L mod w) 0) as [H0|H0]; simpl; nia.
Qed.

Lemma segment_entries_sorted w depths s e :
  1 ≤ w → 0 ≤ s → s ≤ e → e ≤ len depths - 1 →
  ForallOrdPairs (λ a b : Q * (Z * Z), a.2.2 < b.2.1) (segment_entries w depths (s, e)).
Proof.
  intros Hw Hs He Hl. unfold segment_entries. simpl.
  destruct (len (py_slice depths s (e + 1)) =? 0); [constructor|].
  eapply ForallOrdPairs_flat_map; [apply py_range_sorted| |].
  - intros i Hi. apply elem_of_py_range in Hi.
    rewrite window_entry_inner by lia. case_match; repeat constructor.
  - intros i j a b Hi Hj Hij Ha Hb.
    apply elem_of_py_range in Hi, Hj.
    rewrite window_entry_inner in Ha, Hb by lia.
    destruct (Z.ltb_spec (i * w) (e - s + 1)); [|by apply elem_of_nil in Ha].
    destruct (Z.ltb_spec (j * w) (e - s + 1)); [|by apply elem_of_nil in Hb].
    apply list_elem_of_singleton in Ha, Hb. subst. simpl. nia.
Qed.

End Windows.

Section WindowsOfArray.
Import DataProcessor.

Lemma ForallOrdPairs_fmap {A B} (f : A → B) (R : B → B → Prop) (l : list A) :
  ForallOrdPairs (λ a b, R (f a) (f b)) l → ForallOrdPairs R (f <$> l).
Proof.
  induction 1 as [|a l Ha _ IH]; simpl; constructor; [|exact IH].
  apply Forall_fmap. exact Ha.
Qed.

(** An entry of the result comes from a window of a run of non-zero depths. *)
Lemma entries_elem w depths x :
  1 ≤ w →
  x ∈ flat_map (segment_entries w depths) (runs (map (λ d, negb (d =? 0)) depths) 0 None)
  ↔ ∃ s e i, (s, e) ∈ runs (map (λ d, negb (d =? 0)) depths) 0 None
       ∧ 0 ≤ s ∧ s ≤ e ∧ e ≤ len depths - 1
       ∧ 0 ≤ i < num_windows w (e - s + 1) ∧ i * w < e - s + 1
       ∧ x = (np_mean (py_slice depths (s + i * w)
                                (s + Z.min ((i + 1) * w) (e - s + 1))),
              (s + i * w, s + Z.min ((i + 1) * w) (e - s + 1) - 1)).
Proof.
  intros Hw. destruct (nonzero_segments_spec depths) as (Hv & _ & _). simpl in Hv.
  rewrite Forall_forall in Hv. rewrite elem_of_flat_map. split.
  - intros ([s e] & Hseg & Hx). pose proof (Hv _ Hseg) as Hse. simpl in Hse.
    apply segment_entries_elem in Hx as (i & Hi & Hlt & ->); [|lia..].
    exists s, e, i. repeat split; auto; lia.
  - intros (s & e & i & Hseg & Hs & He & Hl & Hi & Hlt & ->).
    exists (s, e). split; [done|]. apply segment_entries_elem; [lia..|]. eauto.
Qed.

Lemma windowed_stats_entries w depths :
  w ≠ 0 →
  ∃ st, calculate_windowed_stats w depths = Ok st
    ∧ all_means st
      = (flat_map (segment_entries w depths)
                  (runs (map (λ d, negb (d =? 0)) depths) 0 None)).*1
    ∧ windows_of st
      = (flat_map (segment_entries w depths)
                  (runs (map (λ d, negb (d =? 0)) depths) 0 None)).*2.
Proof.
  intros Hw. rewrite calculate_windowed_stats_fold, segments_fold_push by done.
  eexists. split; [reflexivity|]. unfold windows_of.
  destruct (push_fold
              (flat_map (segment_entries w depths)
                        (runs (map (λ d, negb (d =? 0)) depths) 0 None))
              (mkStats [] [] [])) as (-> & -> & ->).
  simpl. split; [done|]. apply zip_fst_snd.
Qed.

Lemma windowed_stats_zero_window depths :
  calculate_windowed_stats 0 depths
  = match runs (map (λ d, negb (d =? 0)) depths) 0 None with
    | [] => Ok (mkStats [] [] [])
    | _ => Raise ZeroDivisionError
    end.
Proof.
  rewrite calculate_windowed_stats_fold.
  destruct (nonzero_segments_spec depths) as (Hv & _ & _). simpl in Hv.
  destruct (runs _ 0 None) as [|[s e] rest]; [reflexivity|].
  apply Forall_cons in Hv as [Hse _]. simpl in *.
  rewrite len_py_slice by lia.
  destruct (Z.eqb_spec (Z.max 0 (Z.min (e + 1) (len depths) - Z.min s (len depths))) 0);
    [lia|reflexivity].
Qed.

Lemma nonzero_index depths :
  Exists (λ d, d ≠ 0) depths
  ↔ ∃ k, 0 ≤ k < len depths ∧ ∃ d, depths !! Z.to_nat k = Some d ∧ d ≠ 0.
Proof.
  rewrite Exists_exists. split.
  - intros (d & Hin & Hd). apply list_elem_of_lookup_1 in Hin as [i Hi].
    exists (Z.of_nat i). pose proof (lookup_lt_Some _ _ _ Hi). unfold len.
    split; [lia|]. exists d. by rewrite Nat2Z.id.
  - intros (k & _ & d & Hk & Hd). exists d. split; [|done].
    by eapply list_elem_of_lookup_2.
Qed.

End WindowsOfArray.

(** X11.  [calculate_windowed_stats] fails exactly when the window size is
    0 and the array has a depth that is not 0, and then with
    [ZeroDivisionError]; it raises nothing else.  With a window size of 0
    an array of zeros, or an empty one, still gives the empty result. *)
Theorem windowed_stats_fail_only_on_zero_window (window_size : Z) (depths : list Z) :
  (DataProcessor.calculate_windowed_stats window_size depths = Raise ZeroDivisionError
   ↔ window_size = 0 ∧ Exists (λ d, d ≠ 0) depths)
  ∧ (∀ e, DataProcessor.calculate_windowed_stats window_size depths = Raise e
          → e = ZeroDivisionError).
Proof.
  destruct (decide (window_size = 0)) as [->|Hw].
  - rewrite windowed_stats_zero_window.
    destruct (nonzero_segments_spec depths) as (Hv & _ & Hc). simpl in Hv, Hc.
    rewrite nonzero_index.
    destruct (runs _ 0 None) as [|[s e] rest].
    + split; [|discriminate]. split; [discriminate|].
      intros (_ & k & Hk & Hd). apply Hc in Hd; [|done]. by apply covers_nil in Hd.
    + split; [|by intros ? [= <-]]. split; [|done]. intros _. split; [done|].
      apply Forall_cons in Hv as [Hse _]. simpl in Hse.
      exists s. split; [lia|]. apply Hc; [lia|]. apply covers_cons. left. simpl. lia.
  - destruct (windowed_stats_entries window_size depths Hw) as (st & -> & _).
    split; [|discriminate]. split; [discriminate|]. intros [? _]. done.
Qed.

(** X12.  For a window size W >= 1, [calculate_windowed_stats] returns as
    many means as windows; every window is a closed interval inside the
    array of at most W positions; the windows are in ascending order and
    do not overlap; they cover exactly the positions whose depth is not 0,
    so that no window holds a zero; and the mean of a window is the mean of
    the depths at its positions. *)
Theorem windows_tile_the_nonzero_runs (window_size : Z) (depths : list Z) :
  1 ≤ window_size →
  ∃ st, DataProcessor.calculate_windowed_stats window_size depths = Ok st
    ∧ length (DataProcessor.all_means st) = length (windows_of st)
    ∧ Forall (λ w : Z * Z, 0 ≤ w.1 ∧ w.1 ≤ w.2 ∧ w.2 ≤ len depths - 1
                           ∧ w.2 - w.1 + 1 ≤ window_size) (windows_of st)
    ∧ ForallOrdPairs (λ a b : Z * Z, a.2 < b.1) (windows_of st)
    ∧ (∀ k, 0 ≤ k < len depths →
         (covers (windows_of st) k ↔ ∃ d, depths !! Z.to_nat k = Some d ∧ d ≠ 0))
    ∧ Forall2 (λ (m : Q) (w : Z * Z), Qeq m (np_mean (py_slice depths w.1 (w.2 + 1))))
              (DataProcessor.all_means st) (windows_of st).
Proof.
  intros Hw.
  destruct (windowed_stats_entries window_size depths ltac:(lia)) as (st & Hst & Hm & Hwin).
  exists st. split; [exact Hst|]. rewrite Hm, Hwin. clear st Hst Hm Hwin.
  destruct (nonzero_segments_spec depths) as (Hv & Hord & Hcov). simpl in Hv, Hord, Hcov.
  pose proof (entries_elem window_size depths) as Hel.
  set (segs := runs (map (λ d, negb (d =? 0)) depths) 0 None) in *.
  set (es := flat_map (segment_entries window_size depths) segs) in *.
  rewrite Forall_forall in Hv.
  split; [by rewrite !length_fmap|]. split; [|split; [|split]].
  - apply Forall_fmap, Forall_forall. intros x Hx.
    apply Hel in Hx as (s & e & i & _ & Hs & He & Hl & Hi & Hlt & ->); [|done].
    simpl. nia.
  - apply ForallOrdPairs_fmap. unfold es.
    eapply ForallOrdPairs_flat_map; [exact Hord| |].
    + intros [s e] Hseg. pose proof (Hv _ Hseg) as Hse. simpl in Hse.
      apply segment_entries_sorted; lia.
    + intros [s e] [s' e'] a b Hseg Hseg' Hlt Ha Hb.
      pose proof (Hv _ Hseg) as Hse. pose proof (Hv _ Hseg') as Hse'. simpl in *.
      apply segment_entries_elem in Ha as (i & Hi & Hil & ->); [|lia..].
      apply segment_entries_elem in Hb as (j & Hj & Hjl & ->); [|lia..].
      simpl. nia.
  - intros k Hk. rewrite <- (Hcov k Hk). unfold covers.
    rewrite Exists_fmap, !Exists_exists. split.
    + intros (x & Hx & Hkx).
      apply Hel in Hx as (s & e & i & Hseg & Hs & He & Hl & Hi & Hlt & ->); [|done].
      exists (s, e). split; [done|]. simpl in *. nia.
    + intros ([s e] & Hseg & Hks). pose proof (Hv _ Hseg) as Hse. simpl in *.
      pose proof (num_windows_enough window_size (e - s + 1) (k - s)
                    ltac:(lia) ltac:(lia) ltac:(lia)) as Hn.
      pose proof (Z.div_mod (k - s) window_size ltac:(lia)) as Hq.
      pose proof (Z.mod_pos_bound (k - s) window_size ltac:(lia)) as Hr.
      assert (H0 : 0 ≤ (k - s) / window_size) by (apply Z.div_pos; lia).
      eexists. split.
      * apply Hel; [done|]. exists s, e, ((k - s) / window_size).
        repeat split; try done; try lia; nia.
      * simpl. nia.
  - apply Forall2_fmap. apply Forall_Forall2_diag, Forall_forall. intros x Hx.
    apply Hel in Hx as (s & e & i & _ & Hs & He & Hl & Hi & Hlt & ->); [|done].
    simpl. rewrite Z.sub_add. reflexivity.
Qed.

Lemma windows_tile_the_nonzero_runs_witness :
  ∃ st, DataProcessor.calculate_windowed_stats 2 [0; 4; 6; 5; 0; 9] = Ok st
    ∧ length (DataProcessor.all_means st) = length (windows_of st)
    ∧ Forall (λ w : Z * Z, 0 ≤ w.1 ∧ w.1 ≤ w.2 ∧ w.2 ≤ len [0; 4; 6; 5; 0; 9] - 1
                           ∧ w.2 - w.1 + 1 ≤ 2) (windows_of st)
    ∧ ForallOrdPairs (λ a b : Z * Z, a.2 < b.1) (windows_of st)
    ∧ (∀ k, 0 ≤ k < len [0; 4; 6; 5; 0; 9] →
         (covers (windows_of st) k ↔ ∃ d, [0; 4; 6; 5; 0; 9] !! Z.to_nat k = Some d ∧ d ≠ 0))
    ∧ Forall2 (λ (m : Q) (w : Z * Z),
                 Qeq m (np_mean (py_slice [0; 4; 6; 5; 0; 9] w.1 (w.2 + 1))))
              (DataProcessor.all_means st) (windows_of st).
Proof.
  apply (windows_tile_the_nonzero_runs 2 [0; 4; 6; 5; 0; 9]). lia.
Defined.

(** The windows of the array [0, 4, 6, 5, 0, 9] for a window size of 2. *)
Example windows_of_an_array :
  windows_of <$> DataProcessor.calculate_windowed_stats 2 [0; 4; 6; 5; 0; 9]
  = Ok [(1, 2); (3, 3); (5, 5)].
Proof. reflexivity. Qed.

(** ** Plotting one sequence *)

Section PlotFacts.
Import DepthPlotter.


Lemma process_result c w t depths :
  process c w t depths
  = match DataProcessor.calculate_windowed_stats w depths with
    | Ok st => Ok (mkData (DataProcessor.all_means st) (DataProcessor.all_starts st)
                          (DataProcessor.all_ends st)
                          (DataProcessor.analyze_depth_regions depths t) c None)
    | Raise e => Raise e
    end.
Proof. unfold process. by destruct (DataProcessor.calculate_windowed_stats w depths). Qed.

Lemma process_avg c w t depths data : process c w t depths = Ok data → avg data = None.
Proof.
  rewrite process_result. destruct (DataProcessor.calculate_windowed_stats w depths);
    [|discriminate]. by intros [= <-].
Qed.



Lemma plot_windowed_data_no_avg self self' data positive :
  avg data = None →
  _plot_windowed_data self data positive = _plot_windowed_data self' data positive.
Proof. intros Ha. unfold _plot_windowed_data. by rewrite Ha. Qed.



End PlotFacts.






(** ** Reading two sources *)

Section ReaderTargets.
Import SynchronizedDepthReader.

Lemma should_process_same s1 s2 id :
  target_sequences s1 = target_sequences s2 → regions s1 = regions s2 →
  _should_process_sequence s1 id = _should_process_sequence s2 id.
Proof. unfold _should_process_sequence. by intros -> ->. Qed.

Lemma should_process_spec self id :
  target_sequences self ≠ ∅ →
  _should_process_sequence self id = true
  ↔ id ∈ target_sequences self
    ∧ match regions self with Some r => r = ∅ ∨ id ∈ dom r | None => True end.
Proof.
  intros Hne. unfold _should_process_sequence, nonempty.
  rewrite (bool_decide_eq_false_2 _ Hne). simpl.
  destruct (decide (id ∈ target_sequences self)) as [Hin|Hnin].
  - rewrite (bool_decide_eq_true_2 _ Hin). simpl.
    destruct (regions self) as [r|]; [|tauto].
    destruct (decide (r = ∅)) as [Hr|Hr].
    + rewrite (bool_decide_eq_true_2 _ Hr). simpl. tauto.
    + rewrite (bool_decide_eq_false_2 _ Hr). simpl.
      destruct (decide (id ∈ dom r)) as [Hd|Hd].
      * rewrite (bool_decide_eq_true_2 _ Hd). simpl. tauto.
      * rewrite (bool_decide_eq_false_2 _ Hd). simpl.
        split; [discriminate|]. intros [_ [?|?]]; done.
  - rewrite (bool_decide_eq_false_2 _ Hnin). simpl. split; [discriminate|tauto].
Qed.

(** The loop over [seq_ids]: what is yielded and what is recorded. *)
Lemma read_fold (hifi_map ont_map : gmap string (list Z)) (ids : list string) :
  ∀ (yielded : list (string * list Z * list Z)) (s : t),
  let out :=
    fold_left
      (fun '(yielded, self) seq_id =>
         if negb (_should_process_sequence self seq_id) then (yielded, self)
         else
           let self' := mk (hifi_file self) (ont_file self) (target_sequences self)
                           (regions self) ({[seq_id]} ∪ processed_sequences self) in
           let hifi_arr := default [] (hifi_map !! seq_id) in
           let ont_arr := default [] (ont_map !! seq_id) in
           (yielded ++ [(seq_id, hifi_arr, ont_arr)], self'))
      ids (yielded, s) in
  out.1 = yielded
          ++ map (λ id, (id, default [] (hifi_map !! id), default [] (ont_map !! id)))
                 (filter (λ id, _should_process_sequence s id = true) ids)
  ∧ (∀ id, id ∈ processed_sequences out.2
           ↔ id ∈ processed_sequences s
             ∨ id ∈ filter (λ id, _should_process_sequence s id = true) ids).
Proof.
  induction ids as [|id ids IH]; intros yielded s; simpl.
  - rewrite app_nil_r. split; [done|]. intros id. rewrite elem_of_nil. tauto.
  - destruct (_should_process_sequence s id) eqn:Hp; simpl.
    + match goal with
      | |- context [fold_left ?F ids (?y, ?s')] =>
          destruct (IH y s') as [H1 H2]; simpl in H1, H2
      end.
      assert (Hsame : ∀ id', _should_process_sequence
                (mk (hifi_file s) (ont_file s) (target_sequences s) (regions s)
                    ({[id]} ∪ processed_sequences s)) id'
              = _should_process_sequence s id') by (intros; by apply should_process_same).
      rewrite (list_filter_iff _ (λ id', _should_process_sequence s id' = true)) in H1, H2
        by (intros; by rewrite Hsame).
      rewrite filter_cons_True by done. split.
      * rewrite H1. simpl. by rewrite <- app_assoc.
      * intros id'. rewrite H2, elem_of_cons, elem_of_union, elem_of_singleton. tauto.
    + rewrite filter_cons_False by (by rewrite Hp). apply IH.
Qed.

Lemma load_absent (file : option DepthParser.depth_file) (targets : gset string) :
  file = None ∨ file = Some DepthParser.Unreadable → load file targets = ∅.
Proof. intros [->| ->]; [reflexivity|]. unfold load. by destruct (nonempty targets). Qed.

Lemma fst_fst_tuples (tup : string → string * list Z * list Z) (l : list string) :
  (∀ id, (tup id).1.1 = id) → (map tup l).*1.*1 = l.
Proof.
  intros H. induction l as [|x l IH]; [done|].
  change ((tup x).1.1 :: (map tup l).*1.*1 = x :: l). by rewrite IH, H.
Qed.

End ReaderTargets.

(** X16.  With a target set that is not empty, [read_sequences] yields
    one tuple for every target that passes the region filter, and no
    other and none twice: its arrays are those stored under the ID in the
    two sources, an empty array standing for an ID that a source does not
    have.  The IDs yielded are the ones added to [processed_sequences]. *)
Theorem read_sequences_yields_each_target_once (self : SynchronizedDepthReader.t) :
  SynchronizedDepthReader.target_sequences self ≠ ∅ →
  NoDup ((SynchronizedDepthReader.read_sequences self).1.*1.*1)
  ∧ (∀ id h n,
       (id, h, n) ∈ (SynchronizedDepthReader.read_sequences self).1
       ↔ id ∈ SynchronizedDepthReader.target_sequences self
         ∧ match SynchronizedDepthReader.regions self with
           | Some r => r = ∅ ∨ id ∈ dom r
           | None => True
           end
         ∧ h = default [] (SynchronizedDepthReader.load
                             (SynchronizedDepthReader.hifi_file self)
                             (SynchronizedDepthReader.target_sequences self) !! id)
         ∧ n = default [] (SynchronizedDepthReader.load
                             (SynchronizedDepthReader.ont_file self)
                             (SynchronizedDepthReader.target_sequences self) !! id))
  ∧ (∀ id,
       id ∈ SynchronizedDepthReader.processed_sequences
              (SynchronizedDepthReader.read_sequences self).2
       ↔ id ∈ SynchronizedDepthReader.processed_sequences self
         ∨ id ∈ (SynchronizedDepthReader.read_sequences self).1.*1.*1).
Proof.
  intros Hne. unfold SynchronizedDepthReader.read_sequences.
  assert (Hn : SynchronizedDepthReader.nonempty
                 (SynchronizedDepthReader.target_sequences self) = true).
  { unfold SynchronizedDepthReader.nonempty. by rewrite (bool_decide_eq_false_2 _ Hne). }
  rewrite Hn. rewrite Hn.
  match goal with
  | |- context [fold_left _ ?ids (?y, ?s)] =>
      match goal with
      | |- context [default [] (?hm !! _)] =>
          match goal with
          | |- context [(_, default [] (hm !! _), default [] (?om !! _))] =>
              destruct (read_fold hm om ids y s) as [H1 H2]
          end
      end
  end.
  simpl in H1, H2. rewrite H1. split; [|split].
  - rewrite fst_fst_tuples by done. apply NoDup_filter, NoDup_elements.
  - intros id h n. rewrite list_elem_of_fmap. split.
    + intros (id' & [= -> -> ->] & Hin). apply list_elem_of_filter in Hin as [Hp Hin].
      apply elem_of_elements in Hin. apply should_process_spec in Hp; [|done].
      destruct Hp as [? ?]. done.
    + intros (Hin & Hr & -> & ->). exists id. split; [done|].
      apply list_elem_of_filter. split; [|by apply elem_of_elements].
      by apply should_process_spec.
  - intros id. rewrite H2, fst_fst_tuples by done. tauto.
Qed.

Lemma read_sequences_yields_each_target_once_witness :
  NoDup ((SynchronizedDepthReader.read_sequences
            (SynchronizedDepthReader.new
               (Some (DepthParser.Lines [">chr1"; "10"; "11"; ">chr2"; "20"]))
               (Some DepthParser.Unreadable)
               (Some {["chr1"; "chr3"]}) None)).1.*1.*1).
Proof.
  apply (read_sequences_yields_each_target_once
           (SynchronizedDepthReader.new
              (Some (DepthParser.Lines [">chr1"; "10"; "11"; ">chr2"; "20"]))
              (Some DepthParser.Unreadable)
              (Some {["chr1"; "chr3"]}) None)).
  simpl. intros H. apply (f_equal (λ s : gset string, bool_decide ("chr1" ∈ s))) in H.
  vm_compute in H. discriminate.
Defined.

(** X17.  A source that is not given, or that cannot be opened, does not
    stop [read_sequences]: every tuple yielded has the empty array in the
    place of that source. *)
Theorem unreadable_source_gives_empty_arrays (self : SynchronizedDepthReader.t) :
  (SynchronizedDepthReader.hifi_file self = None
   ∨ SynchronizedDepthReader.hifi_file self = Some DepthParser.Unreadable →
   ∀ id h n, (id, h, n) ∈ (SynchronizedDepthReader.read_sequences self).1 → h = [])
  ∧ (SynchronizedDepthReader.ont_file self = None
     ∨ SynchronizedDepthReader.ont_file self = Some DepthParser.Unreadable →
     ∀ id h n, (id, h, n) ∈ (SynchronizedDepthReader.read_sequences self).1 → n = []).
Proof.
  unfold SynchronizedDepthReader.read_sequences.
  match goal with
  | |- context [fold_left _ ?ids (?y, ?s)] =>
      match goal with
      | |- context [default [] (?hm !! _)] =>
          match goal with
          | |- context [(_, default [] (hm !! _), default [] (?om !! _))] =>
              destruct (read_fold hm om ids y s) as [H1 _]
          end
      end
  end.
  simpl in H1. rewrite H1. clear H1.
  split; intros Hf id h n Hin; apply list_elem_of_fmap in Hin as (id' & [= -> -> ->] & _);
    rewrite (load_absent _ _ Hf); by rewrite lookup_empty.
Qed.

Lemma unreadable_source_gives_empty_arrays_witness :
  Forall (λ y : string * list Z * list Z, y.2 = [])
    (SynchronizedDepthReader.read_sequences
       (SynchronizedDepthReader.new
          (Some (DepthParser.Lines [">chr1"; "10"; "11"; ">chr2"; "20"]))
          (Some DepthParser.Unreadable)
          (Some {["chr1"; "chr3"]}) None)).1.
Proof.
  apply Forall_forall. intros [[id h] n] Hin.
  apply (proj2 (unreadable_source_gives_empty_arrays
                  (SynchronizedDepthReader.new
                     (Some (DepthParser.Lines [">chr1"; "10"; "11"; ">chr2"; "20"]))
                     (Some DepthParser.Unreadable)
                     (Some {["chr1"; "chr3"]}) None))
          (or_intror eq_refl) id h n Hin).
Defined.

(** ** The sequence index *)

Section Fai.
Import FAIParser.

Lemma fai_lines_raises lines : ∀ m0 e,
  fai_lines m0 lines = Raise e → ∃ msg, e = ValueError msg.
Proof.
  induction lines as [|l rest IH]; intros m0 e; simpl; [discriminate|].
  unfold fai_line at 1.
  destruct (py_split tab (py_strip l)) as [|seq_id [|p1 r]]; simpl; try apply IH.
  destruct (py_int p1) as [n|e1] eqn:E1; simpl; [apply IH|].
  intros [= <-]. by eapply py_int_raises.
Qed.

Lemma fai_lines_dom lines : ∀ m0 m,
  fai_lines m0 lines = Ok m →
  ∀ id, id ∈ dom m
        ↔ id ∈ dom m0
          ∨ ∃ raw p1 rest, raw ∈ lines ∧ py_split tab (py_strip raw) = id :: p1 :: rest.
Proof.
  induction lines as [|l rest IH]; intros m0 m; simpl.
  - intros [= <-] id. split; [by left|]. intros [?|(raw & ? & ? & Hin & _)]; [done|].
    by apply elem_of_nil in Hin.
  - unfold fai_line at 1.
    destruct (py_split tab (py_strip l)) as [|seq_id [|p1 r]] eqn:Es; simpl.
    + intros Hm id. rewrite (IH _ _ Hm id). split.
      * intros [?|(raw & p & q & Hin & Hs)]; [by left|]. right.
        exists raw, p, q. split; [by right|done].
      * intros [?|(raw & p & q & Hin & Hs)]; [by left|].
        apply elem_of_cons in Hin as [->|Hin]; [congruence|]. right. eauto.
    + intros Hm id. rewrite (IH _ _ Hm id). split.
      * intros [?|(raw & p & q & Hin & Hs)]; [by left|]. right.
        exists raw, p, q. split; [by right|done].
      * intros [?|(raw & p & q & Hin & Hs)]; [by left|].
        apply elem_of_cons in Hin as [->|Hin]; [congruence|]. right. eauto.
    + destruct (py_int p1) as [n|e1] eqn:E1; simpl; [|discriminate].
      intros Hm id. rewrite (IH _ _ Hm id), dom_insert_L, elem_of_union, elem_of_singleton.
      split.
      * intros [[->|?]|(raw & p & q & Hin & Hs)].
        -- right. exists l, p1, r. split; [left|done].
        -- by left.
        -- right. exists raw, p, q. split; [by right|done].
      * intros [?|(raw & p & q & Hin & Hs)]; [left; by right|].
        apply elem_of_cons in Hin as [->|Hin].
        -- left. left. congruence.
        -- right. eauto.
Qed.

End Fai.

(** X28.  [parse_fai] on a file that can be opened either raises
    [ValueError], a length not being an integer, or returns an index that
    holds a sequence exactly when some line of the file, stripped and split
    at the tabs, has that sequence as the first of at least two fields. *)
Theorem fai_index_has_the_listed_sequences (ls : list string) :
  match FAIParser.parse_fai (DepthParser.Lines ls) with
  | Ok seq_lengths =>
      ∀ id, id ∈ dom seq_lengths
            ↔ ∃ raw p1 rest, raw ∈ ls ∧ py_split tab (py_strip raw) = id :: p1 :: rest
  | Raise e => ∃ msg, e = ValueError msg
  end.
Proof.
  unfold FAIParser.parse_fai.
  destruct (FAIParser.fai_lines ∅ ls) as [m|e] eqn:E.
  - intros id. rewrite (fai_lines_dom _ _ _ E id), dom_empty_L.
    split; [intros [?|?]; [set_solver|done]|by right].
  - by eapply fai_lines_raises.
Qed.

(** The index of a file of three lines, the first sequence listed twice. *)
Example fai_index_of_a_file :
  FAIParser.parse_fai
    (DepthParser.Lines
       ["chr1" +:+ String tab "1000" +:+ String tab "6";
        "broken line";
        "chr2" +:+ String tab "500";
        "chr1" +:+ String tab "1200"])
  = Ok {["chr1" := 1200; "chr2" := 500]}.
Proof. by vm_compute. Qed.

(** ** Boxes and the placement of the panels *)

Section Boxes.
Import Montage.

Lemma overlaps_spec (ax1 ay1 ax2 ay2 bx1 by1 bx2 by2 : Q) :
  _overlaps (ax1, ay1, ax2, ay2) (bx1, by1, bx2, by2) = true
  ↔ (bx1 < ax2 ∧ ax1 < bx2 ∧ by1 < ay2 ∧ ay1 < by2)%Q.
Proof.
  unfold _overlaps. rewrite negb_true_iff, !orb_false_iff.
  rewrite <- !not_true_iff_false, !Qle_bool_iff. split.
  - intros (((H1 & H2) & H3) & H4). repeat split; by apply Qnot_le_lt.
  - intros (H1 & H2 & H3 & H4). repeat split; by apply Qlt_not_le.
Qed.

Lemma clamp01_bounds x : (0 <= clamp01 x ∧ clamp01 x <= 1)%Q.
Proof.
  unfold clamp01.
  destruct (py_min_spec 1 x) as [[H1 ->]|[H1 ->]];
    [destruct (py_max_spec 0 x) as [[H2 ->]|[H2 ->]]
    |destruct (py_max_spec 0 1) as [[H2 ->]|[H2 ->]]]; lra.
Qed.

End Boxes.

(** X18.  [_overlaps] does not depend on the order of its two boxes, and
    for two boxes of positive width and height it holds exactly when some
    point lies strictly inside both: boxes that only touch along an edge
    do not overlap. *)
Theorem overlaps_is_a_shared_inner_point (ax1 ay1 ax2 ay2 bx1 by1 bx2 by2 : Q) :
  Montage._overlaps (ax1, ay1, ax2, ay2) (bx1, by1, bx2, by2)
  = Montage._overlaps (bx1, by1, bx2, by2) (ax1, ay1, ax2, ay2)
  ∧ ((ax1 < ax2)%Q → (ay1 < ay2)%Q → (bx1 < bx2)%Q → (by1 < by2)%Q →
     (Montage._overlaps (ax1, ay1, ax2, ay2) (bx1, by1, bx2, by2) = true
      ↔ ∃ px py : Q, (ax1 < px ∧ px < ax2 ∧ ay1 < py ∧ py < ay2
                      ∧ bx1 < px ∧ px < bx2 ∧ by1 < py ∧ py < by2)%Q)).
Proof.
  split.
  - apply eq_true_iff_eq. rewrite !overlaps_spec. tauto.
  - intros Ha Ha' Hb Hb'. rewrite overlaps_spec. split.
    + intros (H1 & H2 & H3 & H4).
      exists ((Qmax ax1 bx1 + Qmin ax2 bx2) * (1 # 2))%Q,
             ((Qmax ay1 by1 + Qmin ay2 by2) * (1 # 2))%Q.
      destruct (Q.max_spec ax1 bx1) as [[? Hx1]|[? Hx1]];
        destruct (Q.min_spec ax2 bx2) as [[? Hx2]|[? Hx2]];
        destruct (Q.max_spec ay1 by1) as [[? Hy1]|[? Hy1]];
        destruct (Q.min_spec ay2 by2) as [[? Hy2]|[? Hy2]];
        rewrite Hx1, Hx2, Hy1, Hy2; repeat split; lra.
    + intros (px & py & H). lra.
Qed.

Lemma overlaps_is_a_shared_inner_point_witness :
  Montage._overlaps (0 # 1, 0 # 1, 10 # 1, 10 # 1)%Q (10 # 1, 0 # 1, 20 # 1, 10 # 1)%Q = true
  ↔ ∃ px py : Q, (0 # 1 < px ∧ px < 10 # 1 ∧ 0 # 1 < py ∧ py < 10 # 1
                  ∧ 10 # 1 < px ∧ px < 20 # 1 ∧ 0 # 1 < py ∧ py < 10 # 1)%Q.
Proof.
  apply (proj2 (overlaps_is_a_shared_inner_point (0 # 1) (0 # 1) (10 # 1) (10 # 1)
                  (10 # 1) (0 # 1) (20 # 1) (10 # 1))); reflexivity.
Defined.

(** X19.  The layout that [run] computes from the two track rows before it
    looks for a place for the scale bar: the alignment diagram is never moved up; nothing is placed above the top
    margin; both rows are moved down by the same amount; the top panel, two
    depth heights tall, ends one gap above the top row and the bottom panel
    begins one gap below the bottom row; and the gap, when it is not
    given, is at least 1. *)
Theorem panels_sit_one_gap_off_the_rows (a : Montage.args)
    (xt yt wt ht xb yb wb hb : Q) :
  (0 <= Montage.middle_y (Montage.place a (xt, yt, wt, ht) (xb, yb, wb, hb)))%Q
  ∧ (inject_Z (Z.max 0 (Montage.top_margin a))
     <= Montage.block_y_top (Montage.place a (xt, yt, wt, ht) (xb, yb, wb, hb)))%Q
  ∧ (Montage.y_top (Montage.place a (xt, yt, wt, ht) (xb, yb, wb, hb))
     == yt + Montage.middle_y (Montage.place a (xt, yt, wt, ht) (xb, yb, wb, hb)))%Q
  ∧ (Montage.y_bottom (Montage.place a (xt, yt, wt, ht) (xb, yb, wb, hb))
     == yb + Montage.middle_y (Montage.place a (xt, yt, wt, ht) (xb, yb, wb, hb)))%Q
  ∧ (Montage.block_y_top (Montage.place a (xt, yt, wt, ht) (xb, yb, wb, hb))
     + (2 # 1) * inject_Z (Montage.depth_height a)
     + inject_Z (Montage.gap_of (Montage.place a (xt, yt, wt, ht) (xb, yb, wb, hb)))
     == Montage.y_top (Montage.place a (xt, yt, wt, ht) (xb, yb, wb, hb)))%Q
  ∧ (Montage.block_y_bottom (Montage.place a (xt, yt, wt, ht) (xb, yb, wb, hb))
     == Montage.y_bottom (Montage.place a (xt, yt, wt, ht) (xb, yb, wb, hb)) + hb
        + inject_Z (Montage.gap_of (Montage.place a (xt, yt, wt, ht) (xb, yb, wb, hb))))%Q
  ∧ (Montage.panel_gap a = None →
     1 ≤ Montage.gap_of (Montage.place a (xt, yt, wt, ht) (xb, yb, wb, hb))).
Proof.
  unfold Montage.place. simpl.
  set (gap := match Montage.panel_gap a with
              | Some g => g
              | None => Z.max 1 (Montage.py_round (inject_Z (Montage.depth_height a) * (1 # 10)))
              end).
  set (top0 := (yt - inject_Z gap - (2 # 1) * inject_Z (Montage.depth_height a))%Q).
  assert (Htm : (0 <= inject_Z (Z.max 0 (Montage.top_margin a)))%Q).
  { change 0%Q with (inject_Z 0). rewrite <- Zle_Qle. lia. }
  assert (Hshift : ∃ off : Q,
    (if 0 <? Z.max 0 (Montage.top_margin a)
     then (if Qltb top0 (0 # 1) then - top0 else 0 # 1)
          + inject_Z (Z.max 0 (Montage.top_margin a))
     else if Qltb top0 (0 # 1) then - top0 else 0 # 1)%Q = off
    ∧ (0 <= off)%Q ∧ (inject_Z (Z.max 0 (Montage.top_margin a)) <= top0 + off)%Q).
  { eexists. split; [reflexivity|].
    destruct (Z.ltb_spec 0 (Z.max 0 (Montage.top_margin a))) as [Hp|Hp];
      [|assert (inject_Z (Z.max 0 (Montage.top_margin a)) <= 0)%Q
          by (change 0%Q with (inject_Z 0); rewrite <- Zle_Qle; lia)];
      destruct (Qltb top0 (0 # 1)) eqn:E;
      try apply Qltb_lt in E; try apply Qltb_ge in E; split; lra. }
  destruct Hshift as (off & -> & Hoff & Htop).
  repeat split; try (unfold top0 in *; lra).
  intros Hg. unfold gap. rewrite Hg. lia.
Qed.

Section RelocateBounds.
Import Montage.
Variable regenerate : Q → render.
Variable a : args.
Variable l : layout.

Lemma try_candidates_prefix keep cands :
  ∃ post, cands = (try_candidates regenerate a l cands keep).1 ++ post.
Proof.
  induction cands as [|r rest IH]; simpl; [by exists []|].
  destruct (_scale_bbox_abs (middle_y l) (inner (regenerate r))) as [[sb|]|e];
    try (by exists rest).
  destruct (hits_depth a l sb); [|by exists rest].
  destruct (try_candidates regenerate a l rest keep) as [tried res].
  destruct IH as [post ->]. by exists post.
Qed.

Lemma try_candidates_result keep cands r :
  (try_candidates regenerate a l cands keep).2 = Ok r →
  r = keep ∨ ∃ q, q ∈ (try_candidates regenerate a l cands keep).1 ∧ r = regenerate q.
Proof.
  induction cands as [|c rest IH]; simpl.
  - intros [= <-]. by left.
  - destruct (_scale_bbox_abs (middle_y l) (inner (regenerate c))) as [[sb|]|e]; simpl.
    + destruct (hits_depth a l sb); simpl.
      * destruct (try_candidates regenerate a l rest keep) as [tried res]. simpl in *.
        intros Hr. destruct (IH Hr) as [->|(q & Hq & ->)]; [by left|].
        right. exists q. split; [by right|done].
      * intros [= <-]. right. exists c. split; [left|done].
    + intros [= <-]. right. exists c. split; [left|done].
    + discriminate.
Qed.

Lemma fallback_ratios_bounds : Forall (λ q, (0 <= q ∧ q <= 1)%Q) (fallback_ratios a l).
Proof.
  unfold fallback_ratios. repeat constructor; try apply clamp01_bounds; lra.
Qed.

End RelocateBounds.

(** X20.  The search for a place for the scale bar runs the diagram
    generator at most four times, each time with a ratio between 0 and 1,
    and the rendering it keeps is the first one or one that the generator
    produced for a ratio it was run with. *)
Theorem scale_bar_search_is_bounded (regenerate : Q → Montage.render) (a : Montage.args)
    (l : Montage.layout) (first : Montage.render) :
  (length (Montage.relocate_scale_bar regenerate a l first).1 ≤ 4)%nat
  ∧ Forall (λ q, (0 <= q ∧ q <= 1)%Q) (Montage.relocate_scale_bar regenerate a l first).1
  ∧ ∀ r, (Montage.relocate_scale_bar regenerate a l first).2 = Ok r →
         r = first ∨ ∃ q, q ∈ (Montage.relocate_scale_bar regenerate a l first).1
                          ∧ r = regenerate q.
Proof.
  unfold Montage.relocate_scale_bar.
  assert (Hs : (0 <= Montage.safe_ratio a l ∧ Montage.safe_ratio a l <= 1)%Q)
    by apply clamp01_bounds.
  assert (Hone : ∀ (q : Q) (r0 : Montage.render),
    (0 <= q ∧ q <= 1)%Q →
    (length ([q], @Ok Montage.render r0).1 ≤ 4)%nat
    ∧ Forall (λ q, (0 <= q ∧ q <= 1)%Q) ([q], @Ok Montage.render r0).1
    ∧ ∀ r, ([q], @Ok Montage.render r0).2 = Ok r →
           r0 = regenerate q → r = first ∨ ∃ q', q' ∈ ([q], @Ok Montage.render r0).1
                                                 ∧ r = regenerate q').
  { intros q r0 Hq. simpl. split; [lia|]. split; [constructor; [exact Hq|constructor]|].
    intros r [= <-] ->. right. exists q. split; [left|done]. }
  destruct (Montage.default_hits_depth a l).
  - destruct (Montage.svg_height a =? 0);
      [simpl; split; [lia|]; split; [constructor|discriminate]|].
    destruct (Montage._scale_bbox_abs (Montage.middle_y l)
                (Montage.inner (regenerate (Montage.safe_ratio a l)))) as [[sb|]|e].
    + destruct (Montage.hits_depth a l sb).
      * pose proof (try_candidates_prefix regenerate a l
                      (regenerate (Montage.safe_ratio a l)) (Montage.fallback_ratios a l))
          as [post Hpost].
        pose proof (try_candidates_result regenerate a l
                      (regenerate (Montage.safe_ratio a l)) (Montage.fallback_ratios a l))
          as Hres.
        pose proof (fallback_ratios_bounds a l) as Hfb.
        assert (Hlen : length (Montage.fallback_ratios a l) = 3%nat) by reflexivity.
        destruct (Montage.try_candidates regenerate a l (Montage.fallback_ratios a l)
                    (regenerate (Montage.safe_ratio a l))) as [tried res].
        simpl in Hpost, Hres. simpl.
        rewrite Hpost in Hfb. apply Forall_app in Hfb as [Hfb _].
        rewrite Hpost, length_app in Hlen.
        split; [lia|]. split; [constructor; [exact Hs|exact Hfb]|].
        intros r Hr. right. destruct (Hres r Hr) as [->|(q & Hq & ->)].
        -- exists (Montage.safe_ratio a l). split; [left|done].
        -- exists q. split; [by right|done].
      * destruct (Hone (Montage.safe_ratio a l) (regenerate (Montage.safe_ratio a l)) Hs)
          as (H1 & H2 & H3). split; [exact H1|]. split; [exact H2|]. intros r Hr. by apply H3.
    + destruct (Hone (Montage.safe_ratio a l) (regenerate (Montage.safe_ratio a l)) Hs)
        as (H1 & H2 & H3). split; [exact H1|]. split; [exact H2|]. intros r Hr. by apply H3.
    + simpl. split; [lia|]. split; [constructor; [exact Hs|constructor]|discriminate].
  - destruct (Montage._scale_bbox_abs (Montage.middle_y l) (Montage.inner first))
      as [[sb|]|e].
    + destruct (Montage.hits_depth a l sb).
      * pose proof (try_candidates_prefix regenerate a l first
                      [(42 # 100)%Q; (12 # 100)%Q; (95 # 100)%Q]) as [post Hpost].
        pose proof (try_candidates_result regenerate a l first
                      [(42 # 100)%Q; (12 # 100)%Q; (95 # 100)%Q]) as Hres.
        assert (Hfb : Forall (λ q, (0 <= q ∧ q <= 1)%Q)
                        [(42 # 100)%Q; (12 # 100)%Q; (95 # 100)%Q])
          by (repeat constructor; lra).
        destruct (Montage.try_candidates regenerate a l
                    [(42 # 100)%Q; (12 # 100)%Q; (95 # 100)%Q] first) as [tried res].
        simpl in Hpost, Hres. simpl.
        rewrite Hpost in Hfb. apply Forall_app in Hfb as [Hfb _].
        apply (f_equal length) in Hpost. rewrite length_app in Hpost. simpl in Hpost.
        split; [lia|]. split; [exact Hfb|]. intros r Hr. by apply Hres.
      * simpl. split; [lia|]. split; [constructor|]. intros r [= <-]. by left.
    + simpl. split; [lia|]. split; [constructor|]. intros r [= <-]. by left.
    + simpl. split; [lia|]. split; [constructor|discriminate].
Qed.

(** ** Coordinate mapping *)

Lemma unit_fraction (i t : Z) :
  0 ≤ i ≤ t → 1 ≤ t → (0 <= inject_Z i / inject_Z t ∧ inject_Z i / inject_Z t <= 1)%Q.
Proof.
  intros Hi Ht.
  assert (H0 : (0 < inject_Z t)%Q) by (change 0%Q with (inject_Z 0); rewrite <- Zlt_Qlt; lia).
  assert (H1 : (0 <= inject_Z i)%Q) by (change 0%Q with (inject_Z 0); rewrite <- Zle_Qle; lia).
  assert (H2 : (inject_Z i <= inject_Z t)%Q) by (rewrite <- Zle_Qle; lia).
  split.
  - apply Qle_shift_div_l; [done|]. lra.
  - apply Qle_shift_div_r; [done|]. lra.
Qed.

(** X21.  [_scale_x_by_length] returns one coordinate per index.  For a
    total length of at least 2 and a left edge not right of the right
    edge, index 0 is mapped to the left edge and the last index to the
    right edge, every index of the sequence to a coordinate between the
    two, and a larger index never to a smaller coordinate; for a total
    length of 1 or less every index is mapped to the left edge. *)
Theorem scale_x_maps_the_ends_to_the_edges (indexes : list Z) (total_length : Z)
    (x_left x_right : Q) :
  length (MontageGeometry._scale_x_by_length indexes total_length x_left x_right)
  = length indexes
  ∧ (total_length ≤ 1 →
     Forall (λ x, x = x_left)
            (MontageGeometry._scale_x_by_length indexes total_length x_left x_right))
  ∧ (2 ≤ total_length → (x_left <= x_right)%Q →
     Forall2 Qeq (MontageGeometry._scale_x_by_length [0; total_length - 1] total_length
                    x_left x_right) [x_left; x_right]
     ∧ (Forall (λ i, 0 ≤ i ≤ total_length - 1) indexes →
        Forall (λ x, (x_left <= x ∧ x <= x_right)%Q)
               (MontageGeometry._scale_x_by_length indexes total_length x_left x_right))
     ∧ ∀ i j, i ≤ j →
         Forall2 Qle (MontageGeometry._scale_x_by_length [i] total_length x_left x_right)
                     (MontageGeometry._scale_x_by_length [j] total_length x_left x_right)).
Proof.
  unfold MontageGeometry._scale_x_by_length. split; [|split].
  - destruct indexes; [done|]. destruct (total_length <=? 1); by rewrite length_map.
  - intros Ht. destruct indexes; [constructor|].
    destruct (Z.leb_spec total_length 1); [|lia].
    apply Forall_forall. intros x Hx. by apply list_elem_of_fmap in Hx as (? & -> & _).
  - intros Ht Hx. destruct (Z.leb_spec total_length 1); [lia|].
    assert (H0 : (0 < inject_Z (total_length - 1))%Q).
    { change 0%Q with (inject_Z 0). rewrite <- Zlt_Qlt. lia. }
    split; [|split].
    + simpl. repeat constructor.
      * unfold Qdiv. change (inject_Z 0) with 0%Q. ring.
      * field. lra.
    + intros Hin. destruct indexes as [|i0 rest]; [constructor|].
      apply Forall_fmap. eapply Forall_impl; [exact Hin|]. simpl. intros i Hi.
      destruct (unit_fraction i (total_length - 1)) as [? ?]; [lia|lia|].
      split; nra.
    + intros i j Hij. simpl. repeat constructor.
      assert (inject_Z i / inject_Z (total_length - 1)
              <= inject_Z j / inject_Z (total_length - 1))%Q.
      { unfold Qdiv. apply Qmult_le_compat_r; [rewrite <- Zle_Qle; lia|].
        apply Qinv_le_0_compat. lra. }
      nra.
Qed.

Lemma scale_x_maps_the_ends_to_the_edges_witness :
  Forall2 Qeq (MontageGeometry._scale_x_by_length [0; 5 - 1] 5 (100 # 1) (1100 # 1))
              [(100 # 1)%Q; (1100 # 1)%Q].
Proof.
  apply (proj2 (proj2 (scale_x_maps_the_ends_to_the_edges [0; 4] 5 (100 # 1) (1100 # 1)))).
  - lia.
  - vm_compute. discriminate.
Defined.

Section ScaleY.
Import MontageGeometry.

Lemma scale_y_item_bounds m top height ratio up d y :
  (0 <= height)%Q →
  scale_y_item m top height ratio up d = Ok y →
  if up then (top <= y ∧ y <= top + height)%Q
  else (top + height <= y ∧ y <= top + (2 # 1) * height)%Q.
Proof.
  intros Hh. unfold scale_y_item.
  destruct (Qeq_bool ratio (0 # 1)) eqn:E0; [discriminate|].
  apply Qeq_bool_neq in E0. intros [= <-].
  set (r := py_max (0 # 1) (py_min (d / m) ratio)).
  assert (Hr : (0 <= r / ratio ∧ r / ratio <= 1)%Q).
  { unfold r. destruct (Qlt_le_dec 0 ratio) as [Hpos|Hneg].
    - assert (0 <= py_max (0 # 1) (py_min (d / m) ratio)
              ∧ py_max (0 # 1) (py_min (d / m) ratio) <= ratio)%Q as [H1 H2].
      { destruct (py_min_spec (d / m) ratio) as [[? ->]|[? ->]];
          [destruct (py_max_spec 0 ratio) as [[? ->]|[? ->]]
          |destruct (py_max_spec 0 (d / m)) as [[? ->]|[? ->]]]; lra. }
      split.
      + apply Qle_shift_div_l; [done|]. lra.
      + apply Qle_shift_div_r; [done|]. lra.
    - assert (Hlt : (ratio < 0)%Q) by (destruct (Qle_lt_or_eq _ _ Hneg); [done|]; lra).
      assert (py_max (0 # 1) (py_min (d / m) ratio) = (0 # 1)%Q) as ->.
      { destruct (py_min_spec (d / m) ratio) as [[? ->]|[? ->]];
          [destruct (py_max_spec 0 ratio) as [[? ->]|[? ->]]
          |destruct (py_max_spec 0 (d / m)) as [[? ->]|[? ->]]]; try done; lra. }
      unfold Qdiv. split; [|]; ring_simplify; lra. }
  destruct Hr as [H1 H2]. destruct up; split; nra.
Qed.

Lemma scale_y_items_bounds m top height ratio up depths : ∀ ys,
  (0 <= height)%Q →
  scale_y_items m top height ratio up depths = Ok ys →
  length ys = length depths
  ∧ Forall (λ y, if up then (top <= y ∧ y <= top + height)%Q
                 else (top + height <= y ∧ y <= top + (2 # 1) * height)%Q) ys.
Proof.
  induction depths as [|d rest IH]; intros ys Hh; simpl.
  - intros [= <-]. split; [done|constructor].
  - destruct (scale_y_item m top height ratio up d) as [y|e] eqn:Ey; simpl; [|discriminate].
    destruct (scale_y_items m top height ratio up rest) as [ys'|e]; simpl; [|discriminate].
    intros [= <-]. destruct (IH ys' Hh eq_refl) as [Hl Hf]. split; [simpl; lia|].
    constructor; [|exact Hf]. by eapply scale_y_item_bounds.
Qed.

Lemma scale_y_items_ok m top height ratio up depths :
  ¬ (ratio == 0)%Q → ∃ ys, scale_y_items m top height ratio up depths = Ok ys.
Proof.
  intros Hr. induction depths as [|d rest [ys IH]]; simpl; [eauto|].
  unfold scale_y_item. destruct (Qeq_bool ratio (0 # 1)) eqn:E.
  - apply Qeq_bool_iff in E. done.
  - simpl. rewrite IH. simpl. eauto.
Qed.

End ScaleY.

(** X22.  For a panel height that is not negative, every coordinate that
    [_scale_y] returns lies in the panel when drawing upwards, and in the
    band of the same height below it when drawing downwards, and there is
    one coordinate per depth.  With a ratio that is not 0 the call
    succeeds; with a ratio of 0 and at least one depth it raises
    [ZeroDivisionError]. *)
Theorem scale_y_stays_in_the_panel (depths : list Q)
    (mean_depth panel_top panel_height max_ratio : Q) (up : bool) :
  (0 <= panel_height)%Q →
  (∀ ys, MontageGeometry._scale_y depths mean_depth panel_top panel_height max_ratio up
         = Ok ys →
         length ys = length depths
         ∧ Forall (λ y, if up then (panel_top <= y ∧ y <= panel_top + panel_height)%Q
                        else (panel_top + panel_height <= y
                              ∧ y <= panel_top + (2 # 1) * panel_height)%Q) ys)
  ∧ (¬ (max_ratio == 0)%Q →
     ∃ ys, MontageGeometry._scale_y depths mean_depth panel_top panel_height max_ratio up
           = Ok ys)
  ∧ ((max_ratio == 0)%Q → depths ≠ [] →
     MontageGeometry._scale_y depths mean_depth panel_top panel_height max_ratio up
     = Raise ZeroDivisionError).
Proof.
  intros Hh. unfold MontageGeometry._scale_y. split; [|split].
  - intros ys. by apply scale_y_items_bounds.
  - intros Hr. by apply scale_y_items_ok.
  - intros Hr Hne. destruct depths as [|d rest]; [done|]. simpl.
    unfold MontageGeometry.scale_y_item.
    apply Qeq_bool_iff in Hr. by rewrite Hr.
Qed.

Lemma scale_y_stays_in_the_panel_witness :
  ∃ ys, MontageGeometry._scale_y [(4 # 1)%Q; (40 # 1)%Q] (5 # 1) (100 # 1) (160 # 1) (3 # 1)
          true = Ok ys.
Proof.
  apply (proj1 (proj2 (scale_y_stays_in_the_panel [(4 # 1)%Q; (40 # 1)%Q] (5 # 1) (100 # 1)
                         (160 # 1) (3 # 1) true ltac:(vm_compute; discriminate)))).
  vm_compute. discriminate.
Defined.

(** ** Datasets without coverage *)

(** X23.  A dataset whose depths are all 0 gives no bar and no mean line
    in its half of the combined panel, whatever the window size is, a
    window size of 0 included. *)
Theorem zero_depths_draw_no_bar (a : Montage.args) (hifi_arr ont_arr : option (list Z))
    (x_left x_right panel_origin_y : Q)
    (bg_elems bars_top bars_bottom : list Montage.svg_elem) (baseline_y : Q) :
  Montage.build_bars_for_seq a hifi_arr ont_arr x_left x_right panel_origin_y
  = Ok (bg_elems, bars_top, bars_bottom, baseline_y) →
  (Forall (λ d, d = 0) (default [] hifi_arr) → bars_top = [])
  ∧ (Forall (λ d, d = 0) (default [] ont_arr) → bars_bottom = []).
Proof.
  unfold Montage.build_bars_for_seq.
  generalize (default [] hifi_arr) (default [] ont_arr). intros h n.
  destruct (Z.max (len h) (len n) =? 0); [by intros [= <- <- <- <-]|].
  assert (Hhalf : ∀ upper arr own g bg bars,
    Montage.half_panel a upper arr own g x_left x_right (Z.max (len h) (len n))
      (panel_origin_y + inject_Z (Montage.depth_height a))%Q = Ok (bg, bars) →
    Forall (λ d, d = 0) arr → bars = []).
  { intros upper arr own g bg bars Hp Hz. unfold Montage.half_panel in Hp.
    destruct (0 <? len arr); [|by injection Hp as <- <-].
    rewrite (calculate_windowed_stats_all_zero _ _ Hz) in Hp. simpl in Hp.
    injection Hp as <- <-. reflexivity. }
  destruct (Montage.half_panel a true h _ _ x_left x_right _ _) as [[bg_h top]|e] eqn:Eh;
    simpl; [|discriminate].
  destruct (Montage.half_panel a false n _ _ x_left x_right _ _) as [[bg_n bottom]|e] eqn:En;
    simpl; [|discriminate].
  intros [= <- <- <- <-]. split; intros Hz; eapply Hhalf; eauto.
Qed.

Lemma zero_depths_draw_no_bar_witness :
  ∃ bg_elems bars_bottom baseline_y,
    Montage.build_bars_for_seq ScaleBarExample.example_args (Some [0; 0; 0]) (Some [2; 0; 0])
      (100 # 1) (1100 # 1) (40 # 1)
    = Ok (bg_elems, [], bars_bottom, baseline_y).
Proof.
  destruct (Montage.build_bars_for_seq ScaleBarExample.example_args (Some [0; 0; 0])
              (Some [2; 0; 0]) (100 # 1) (1100 # 1) (40 # 1))
    as [[[[bg_elems bars_top] bars_bottom] baseline_y]|e] eqn:E;
    [|vm_compute in E; discriminate].
  exists bg_elems, bars_bottom, baseline_y.
  rewrite (proj1 (zero_depths_draw_no_bar ScaleBarExample.example_args (Some [0; 0; 0])
                    (Some [2; 0; 0]) (100 # 1) (1100 # 1) (40 # 1)
                    bg_elems bars_top bars_bottom baseline_y E)); [reflexivity|].
  repeat constructor.
Defined.

(** ** Sorting *)

Section Sorting.
Context {A : Type}.
Variable lt : A → A → bool.
Variable le : A → A → Prop.
Hypothesis le_trans : ∀ x y z, le x y → le y z → le x z.
Hypothesis lt_le : ∀ x y, lt x y = true → le x y.
Hypothesis not_lt_le : ∀ x y, lt x y = false → le y x.

Lemma insert_sorted_perm x l : insert_sorted lt x l ≡ₚ x :: l.
Proof.
  induction l as [|y r IH]; simpl; [done|].
  destruct (lt x y); [done|]. rewrite IH. apply Permutation_swap.
Qed.

Lemma insert_sorted_sorted x l :
  ForallOrdPairs le l → ForallOrdPairs le (insert_sorted lt x l).
Proof.
  induction 1 as [|y r Hy Hr IH]; simpl; [repeat constructor|].
  destruct (lt x y) eqn:E.
  - constructor; [|by constructor]. constructor; [by apply lt_le|].
    eapply Forall_impl; [exact Hy|]. intros z Hz. eapply le_trans; [|exact Hz].
    by apply lt_le.
  - constructor; [|exact IH].
    rewrite insert_sorted_perm. constructor; [by apply not_lt_le|exact Hy].
Qed.

Lemma py_sort_fold l : ∀ acc,
  ForallOrdPairs le acc →
  fold_left (λ acc x, insert_sorted lt x acc) l acc ≡ₚ acc ++ l
  ∧ ForallOrdPairs le (fold_left (λ acc x, insert_sorted lt x acc) l acc).
Proof.
  induction l as [|x l IH]; intros acc Hacc; simpl.
  - by rewrite app_nil_r.
  - destruct (IH (insert_sorted lt x acc)) as [Hp Hs]; [by apply insert_sorted_sorted|].
    split; [|exact Hs]. rewrite Hp, insert_sorted_perm. simpl.
    apply Permutation_middle.
Qed.

Lemma py_sort_perm l : py_sort lt l ≡ₚ l.
Proof. apply (py_sort_fold l []). constructor. Qed.

Lemma py_sort_sorted l : ForallOrdPairs le (py_sort lt l).
Proof. apply (py_sort_fold l []). constructor. Qed.

End Sorting.

(** ** Numbers read from markup *)

Section Floats.

Lemma str_span_digits s :
  Forall (λ c, is_digit c = true) (list_ascii_of_string (str_span is_digit s).1).
Proof.
  induction s as [|c t IH]; simpl; [constructor|].
  destruct (is_digit c) eqn:E; [|constructor].
  destruct (str_span is_digit t) as [run rest]. simpl in *. by constructor.
Qed.

Lemma digits_value_nonneg s : ∀ acc,
  Forall (λ c, is_digit c = true) (list_ascii_of_string s) → 0 ≤ acc →
  0 ≤ digits_value s acc.
Proof.
  induction s as [|c t IH]; intros acc Hd Hacc; simpl; [done|].
  simpl in Hd. apply Forall_cons in Hd as [Hc Ht]. apply IH; [done|].
  unfold is_digit in Hc. apply andb_true_iff in Hc as [H1 _].
  apply Nat.leb_le in H1. lia.
Qed.

Lemma py_float_nonneg s q : py_float s = Ok q → (0 <= q)%Q.
Proof.
  unfold py_float.
  pose proof (str_span_digits s) as Hw.
  destruct (str_span is_digit s) as [whole rest]. simpl in Hw.
  set (frac := match rest with String _ f => f | EmptyString => EmptyString end).
  pose proof (str_span_digits frac) as Hf.
  destruct (str_span is_digit frac) as [frac_digits tail]. simpl in Hf.
  assert (Hval : (0 <= inject_Z (digits_value whole 0)
                      + inject_Z (digits_value frac_digits 0)
                        / inject_Z (10 ^ Z.of_nat (String.length frac_digits)))%Q).
  { pose proof (digits_value_nonneg whole 0 Hw ltac:(lia)) as H1.
    pose proof (digits_value_nonneg frac_digits 0 Hf ltac:(lia)) as H2.
    assert (H3 : 0 < 10 ^ Z.of_nat (String.length frac_digits)) by (apply Z.pow_pos_nonneg; lia).
    rewrite Zle_Qle in H1, H2. rewrite Zlt_Qlt in H3. change (inject_Z 0) with 0%Q in *.
    assert (0 <= inject_Z (digits_value frac_digits 0)
                 / inject_Z (10 ^ Z.of_nat (String.length frac_digits)))%Q.
    { apply Qle_shift_div_l; [done|]. lra. }
    lra. }
  destruct tail; [|discriminate]. destruct rest as [|c r].
  - destruct (_ =? 0)%nat; [discriminate|]. by intros [= <-].
  - destruct (negb (Ascii.eqb c ".")); [discriminate|].
    destruct (_ =? 0)%nat; [discriminate|]. by intros [= <-].
Qed.

Lemma attr_nonneg tag name default q :
  (0 <= default)%Q → Montage._attr tag name default = Ok q → (0 <= q)%Q.
Proof.
  intros Hd. unfold Montage._attr. destruct (search_attr name None tag).
  - apply py_float_nonneg.
  - by intros [= <-].
Qed.

Lemma rect_of_tag_nonneg tag x y w h :
  MontageGeometry.rect_of_tag tag = Ok (x, y, w, h) →
  (0 <= x ∧ 0 <= y ∧ 0 <= w ∧ 0 <= h)%Q.
Proof.
  unfold MontageGeometry.rect_of_tag.
  destruct (Montage._attr tag "x" _) as [x'|] eqn:Ex; simpl; [|discriminate].
  destruct (Montage._attr tag "y" _) as [y'|] eqn:Ey; simpl; [|discriminate].
  destruct (Montage._attr tag "width" _) as [w'|] eqn:Ew; simpl; [|discriminate].
  destruct (Montage._attr tag "height" _) as [h'|] eqn:Eh; simpl; [|discriminate].
  intros [= <- <- <- <-].
  repeat split; eapply attr_nonneg; eauto; lra.
Qed.

End Floats.

(** X24.  When [_extract_scale_bbox] finds the box of the scale bar, none
    of its four numbers is negative; the box that [_scale_bbox_abs] makes
    of it therefore has its left edge not right of its right edge and its
    top edge, which is not above the offset of the diagram, not below its
    bottom edge. *)
Theorem scale_bar_box_is_well_formed (middle_y : Q) (inner_svg : string) :
  (∀ x y w h, Montage._extract_scale_bbox inner_svg = Ok (Some (x, y, w, h)) →
              (0 <= x ∧ 0 <= y ∧ 0 <= w ∧ 0 <= h)%Q)
  ∧ (∀ x1 y1 x2 y2,
       Montage._scale_bbox_abs middle_y inner_svg = Ok (Some (x1, y1, x2, y2)) →
       (0 <= x1 ∧ x1 <= x2 ∧ middle_y <= y1 ∧ y1 <= y2)%Q).
Proof.
  assert (H : ∀ x y w h, Montage._extract_scale_bbox inner_svg = Ok (Some (x, y, w, h)) →
                         (0 <= x ∧ 0 <= y ∧ 0 <= w ∧ 0 <= h)%Q).
  { unfold Montage._extract_scale_bbox. intros x y w h.
    destruct (search_rect _ inner_svg) as [tag|]; [|discriminate].
    destruct (Montage._attr tag "x" _) as [x'|] eqn:Ex; simpl; [|discriminate].
    destruct (Montage._attr tag "y" _) as [y'|] eqn:Ey; simpl; [|discriminate].
    destruct (Montage._attr tag "width" _) as [w'|] eqn:Ew; simpl; [|discriminate].
    destruct (Montage._attr tag "height" _) as [h'|] eqn:Eh; simpl; [|discriminate].
    intros [= <- <- <- <-].
    repeat split; eapply attr_nonneg; eauto; lra. }
  split; [exact H|].
  intros x1 y1 x2 y2. unfold Montage._scale_bbox_abs.
  destruct (Montage._extract_scale_bbox inner_svg) as [[[[[x y] w] h]|]|e]; simpl;
    try discriminate.
  intros [= <- <- <- <-]. destruct (H x y w h eq_refl) as (? & ? & ? & ?).
  repeat split; lra.
Qed.

Lemma scale_bar_box_is_well_formed_witness :
  (0 <= 0 # 1
   ∧ 0 <= (7 # 1) + (0 # 1) / (1 # 1)
   ∧ 0 <= (50 # 1) + (0 # 1) / (1 # 1)
   ∧ 0 <= 0 # 1)%Q.
Proof.
  apply (proj1 (scale_bar_box_is_well_formed (0 # 1)
                  ("<rect y=" +:+ dquote +:+ "7" +:+ dquote +:+ " class=" +:+ dquote
                   +:+ "scale-bbox" +:+ dquote +:+ " width=" +:+ dquote +:+ "50"
                   +:+ dquote +:+ ">"))).
  reflexivity.
Defined.

(** ** Track rows *)

Section Tracks.
Import MontageGeometry.

Lemma by_y_lt a b : by_y a b = true → (box_y a <= box_y b)%Q.
Proof. unfold by_y, box_y. intros H. apply Qltb_lt in H. lra. Qed.

Lemma by_y_ge a b : by_y a b = false → (box_y b <= box_y a)%Q.
Proof. unfold by_y, box_y. intros H. by apply Qltb_ge in H. Qed.

Lemma sorted_by_y rects :
  ForallOrdPairs (λ a b, (box_y a <= box_y b)%Q) (py_sort by_y rects).
Proof.
  apply (py_sort_sorted by_y (λ a b, (box_y a <= box_y b)%Q)).
  - intros x y z. apply Qle_trans.
  - apply by_y_lt.
  - apply by_y_ge.
Qed.

Lemma perm_by_y rects : py_sort by_y rects ≡ₚ rects.
Proof.
  apply (py_sort_perm by_y (λ a b, (box_y a <= box_y b)%Q)).
  - intros x y z. apply Qle_trans.
  - apply by_y_lt.
  - apply by_y_ge.
Qed.

Lemma track_of_row_height r : (0 < (track_of_row r).2)%Q.
Proof.
  unfold track_of_row. simpl. destruct (Qltb (0 # 1) (h_max r)) eqn:E; [|lra].
  by apply Qltb_lt in E.
Qed.

(** The rows that [cluster_rows] closes: their heights are positive, their
    widths are not negative, they come in ascending order of y, at least
    one millionth apart, and there is at most one per rectangle. *)
Lemma cluster_rows_spec rects : ∀ cur tracks,
  ForallOrdPairs (λ a b, (box_y a <= box_y b)%Q) rects →
  Forall (λ r, (current_y cur <= box_y r)%Q) rects →
  Forall (λ r, (0 <= r.1.2)%Q) rects →
  (row_x_left cur <= row_x_right cur)%Q →
  Forall (λ t : Montage.box, (0 < t.2 ∧ 0 <= t.1.2
                              ∧ box_y t + (1 # 1000000) <= current_y cur)%Q) tracks →
  ForallOrdPairs (λ a b, (box_y a + (1 # 1000000) <= box_y b)%Q) tracks →
  Forall (λ t : Montage.box, (0 < t.2 ∧ 0 <= t.1.2)%Q) (cluster_rows rects cur tracks)
  ∧ ForallOrdPairs (λ a b, (box_y a + (1 # 1000000) <= box_y b)%Q)
                   (cluster_rows rects cur tracks)
  ∧ (length tracks < length (cluster_rows rects cur tracks)
     ≤ length tracks + 1 + length rects)%nat.
Proof.
  induction rects as [|[[[x y] w] h] rest IH]; intros cur tracks Hs Hge Hw Hrow Ht Ho;
    [simpl|cbn [cluster_rows]].
  - split; [|split].
    + apply Forall_app. split.
      * eapply Forall_impl; [exact Ht|]. simpl. tauto.
      * repeat constructor; [apply track_of_row_height|]. simpl. lra.
    + apply ForallOrdPairs_app; [exact Ho|repeat constructor|].
      intros a b Ha Hb. apply list_elem_of_singleton in Hb as ->.
      rewrite Forall_forall in Ht. destruct (Ht a Ha) as (_ & _ & H). exact H.
    + rewrite length_app. simpl. lia.
  - inversion Hs as [|? ? Hhd Hs']; subst.
    apply Forall_cons in Hge as [Hy Hge]. apply Forall_cons in Hw as [Hw0 Hw].
    unfold box_y in Hy. simpl in Hy, Hw0.
    destruct (Qltb (Qabs (y - current_y cur)) (1 # 1000000)) eqn:E.
    + assert (Hrow' : (py_min (row_x_left cur) x <= py_max (row_x_right cur) (x + w))%Q).
      { destruct (py_min_spec (row_x_left cur) x) as [[? ->]|[? ->]];
          destruct (py_max_spec (row_x_right cur) (x + w)) as [[? ->]|[? ->]]; lra. }
      destruct (IH (mkRow (current_y cur) (py_min (row_x_left cur) x)
                          (py_max (row_x_right cur) (x + w)) (py_max (h_max cur) h)) tracks
                   Hs' Hge Hw Hrow' Ht Ho) as (H1 & H2 & H3).
      split; [exact H1|split; [exact H2|simpl; lia]].
    + apply Qltb_ge in E. rewrite Qabs_pos in E by lra.
      assert (Hge' : Forall (λ r, (y <= box_y r)%Q) rest) by exact Hhd.
      assert (Hrow' : (x <= x + w)%Q) by lra.
      assert (Ht' : Forall (λ t : Montage.box, (0 < t.2 ∧ 0 <= t.1.2
                                                ∧ box_y t + (1 # 1000000) <= y)%Q)
                           (tracks ++ [track_of_row cur])).
      { apply Forall_app. split.
        - eapply Forall_impl; [exact Ht|]. simpl. intros t (? & ? & ?).
          repeat split; try done. lra.
        - constructor; [|constructor]. split; [apply track_of_row_height|].
          split; [simpl; lra|]. unfold box_y. simpl. lra. }
      assert (Ho' : ForallOrdPairs (λ a b, (box_y a + (1 # 1000000) <= box_y b)%Q)
                                   (tracks ++ [track_of_row cur])).
      { apply ForallOrdPairs_app; [exact Ho|repeat constructor|].
        intros a b Ha Hb. apply list_elem_of_singleton in Hb as ->.
        rewrite Forall_forall in Ht. destruct (Ht a Ha) as (_ & _ & H). exact H. }
      destruct (IH (mkRow y x (x + w) h) (tracks ++ [track_of_row cur])
                   Hs' Hge' Hw Hrow' Ht' Ho') as (H1 & H2 & H3).
      rewrite length_app in H3. simpl in H3.
      split; [exact H1|split; [exact H2|simpl; lia]].
Qed.

Lemma tracks_of_rects_spec rects :
  Forall (λ r : Montage.box, (0 <= r.1.2)%Q) rects →
  Forall (λ t : Montage.box, (0 < t.2 ∧ 0 <= t.1.2)%Q) (tracks_of_rects rects)
  ∧ ForallOrdPairs (λ a b, (box_y a + (1 # 1000000) <= box_y b)%Q) (tracks_of_rects rects)
  ∧ (length (tracks_of_rects rects) ≤ length rects)%nat
  ∧ (tracks_of_rects rects = [] ↔ rects = []).
Proof.
  intros Hw. unfold tracks_of_rects.
  pose proof (sorted_by_y rects) as Hs.
  pose proof (perm_by_y rects) as Hp.
  rewrite <- Hp in Hw.
  assert (Hlen : length (py_sort by_y rects) = length rects) by by rewrite Hp.
  destruct (py_sort by_y rects) as [|[[[x y] w] h] rest].
  - split; [constructor|]. split; [constructor|]. split; [simpl; lia|].
    split; [|done]. intros _. by apply Permutation_nil in Hp.
  - inversion Hs as [|? ? Hhd Hs']; subst.
    apply Forall_cons in Hw as [Hw0 Hw]. simpl in Hw0.
    assert (Hge : Forall (λ r, (y <= box_y r)%Q) rest) by exact Hhd.
    assert (Hrow : (x <= x + w)%Q) by lra.
    destruct (cluster_rows_spec rest (mkRow y x (x + w) (py_max (0 # 1) h)) []
                Hs' Hge Hw Hrow ltac:(constructor) ltac:(constructor))
      as (H1 & H2 & H3).
    simpl in *. split; [exact H1|]. split; [exact H2|]. split; [lia|].
    split.
    + intros Hnil. rewrite Hnil in H3. simpl in H3. lia.
    + intros ->. simpl in Hlen. lia.
Qed.

Lemma rects_of_tags_nonneg tags : ∀ rects,
  rects_of_tags tags = Ok rects →
  length rects = length tags
  ∧ Forall (λ r : Montage.box, (0 <= r.1.1.1 ∧ 0 <= r.1.1.2 ∧ 0 <= r.1.2 ∧ 0 <= r.2)%Q) rects.
Proof.
  induction tags as [|tag rest IH]; intros rects; simpl.
  - intros [= <-]. split; [done|constructor].
  - destruct (rect_of_tag tag) as [[[[x y] w] h]|] eqn:Et; simpl; [|discriminate].
    destruct (rects_of_tags rest) as [rs|]; simpl; [|discriminate].
    intros [= <-]. destruct (IH rs eq_refl) as [Hl Hf]. split; [simpl; lia|].
    constructor; [|exact Hf]. simpl. by eapply rect_of_tag_nonneg.
Qed.

End Tracks.

(** X25.  The rows that [_collect_chro_tracks] returns have a positive
    height and a width that is not negative; they come in ascending order
    of y, two rows being at least one millionth apart; there are no more
    rows than tags of class [chro]; and no row is returned exactly when
    no such tag is found, which is when [run] stops with [RuntimeError]. *)
Theorem track_rows_ascend (inner_svg : string) (tracks : list Montage.box) :
  MontageGeometry._collect_chro_tracks inner_svg = Ok tracks →
  Forall (λ t : Montage.box, (0 < t.2 ∧ 0 <= t.1.2)%Q) tracks
  ∧ ForallOrdPairs (λ a b, (box_y a + (1 # 1000000) <= box_y b)%Q) tracks
  ∧ (length tracks
     ≤ length (MontageGeometry.finditer_rect ("class=" +:+ dquote +:+ "chro" +:+ dquote)
                 0 inner_svg))%nat
  ∧ (tracks = []
     ↔ MontageGeometry.finditer_rect ("class=" +:+ dquote +:+ "chro" +:+ dquote)
         0 inner_svg = []).
Proof.
  unfold MontageGeometry._collect_chro_tracks.
  destruct (MontageGeometry.rects_of_tags _) as [rects|e] eqn:Er; simpl; [|discriminate].
  intros [= <-]. destruct (rects_of_tags_nonneg _ _ Er) as [Hl Hf].
  destruct (tracks_of_rects_spec rects) as (H1 & H2 & H3 & H4).
  { eapply Forall_impl; [exact Hf|]. simpl. tauto. }
  split; [exact H1|]. split; [exact H2|]. split; [lia|].
  rewrite H4. split.
  - intros ->. simpl in Hl. by destruct (MontageGeometry.finditer_rect _ _ _).
  - intros Hn. rewrite Hn in Hl. by destruct rects.
Qed.

Lemma track_rows_ascend_witness :
  ForallOrdPairs (λ a b, (box_y a + (1 # 1000000) <= box_y b)%Q)
    [((100 # 1), (300 # 1), (1000 # 1), (15 # 1))%Q;
     ((100 # 1), (600 # 1), (900 # 1), (15 # 1))%Q].
Proof.
  apply (track_rows_ascend TrackExample.two_rows
           [((100 # 1), (300 # 1), (1000 # 1), (15 # 1))%Q;
            ((100 # 1), (600 # 1), (900 # 1), (15 # 1))%Q]).
  vm_compute. reflexivity.
Defined.

(** ** Regions of a BED file *)

Section Bed.
Import BedRegionParser.

Lemma pair_ltb_le x y : pair_ltb x y = true → pair_le x y.
Proof.
  unfold pair_ltb, pair_le. rewrite orb_true_iff, andb_true_iff.
  rewrite !Z.ltb_lt, Z.eqb_eq. lia.
Qed.

Lemma pair_ltb_ge x y : pair_ltb x y = false → pair_le y x.
Proof.
  unfold pair_ltb, pair_le. rewrite orb_false_iff, andb_false_iff.
  rewrite !Z.ltb_ge, Z.eqb_neq. lia.
Qed.

Lemma pair_le_trans x y z : pair_le x y → pair_le y z → pair_le x z.
Proof. unfold pair_le. lia. Qed.

Lemma bed_line_raises regions raw e :
  bed_line regions raw = Raise e → ∃ msg, e = ValueError msg.
Proof.
  unfold bed_line. case_match; [|discriminate].
  destruct (py_split tab (py_strip raw)) as [|chrom [|p1 [|p2 rest]]]; try discriminate.
  destruct (py_int p1) as [a|e1] eqn:E1; simpl.
  - destruct (py_int p2) as [b|e2] eqn:E2; simpl; [discriminate|].
    intros [= <-]. by eapply py_int_raises.
  - intros [= <-]. by eapply py_int_raises.
Qed.

Lemma bed_lines_raises lines : ∀ regions e,
  bed_lines regions lines = Raise e → ∃ msg, e = ValueError msg.
Proof.
  induction lines as [|l rest IH]; intros regions e; simpl; [discriminate|].
  destruct (bed_line regions l) as [r|e'] eqn:El; simpl.
  - apply IH.
  - intros [= <-]. by eapply bed_line_raises.
Qed.

End Bed.

(** X26.  [parse_bed_regions] on a file that can be opened either raises
    [ValueError], a start or an end not being an integer, or returns for
    the chromosomes met the regions collected for each in the order of the
    file, sorted by start and then by end: the same regions, none lost and
    none added. *)
Theorem bed_regions_are_sorted (ls : list string) :
  match BedRegionParser.parse_bed_regions (DepthParser.Lines ls) with
  | Ok regions =>
      ∃ collected, BedRegionParser.bed_lines ∅ ls = Ok collected
        ∧ dom regions = dom collected
        ∧ ∀ chrom l, regions !! chrom = Some l →
            ForallOrdPairs pair_le l
            ∧ ∃ l0, collected !! chrom = Some l0 ∧ l ≡ₚ l0
  | Raise e => ∃ msg, e = ValueError msg
  end.
Proof.
  unfold BedRegionParser.parse_bed_regions.
  destruct (BedRegionParser.bed_lines ∅ ls) as [collected|e] eqn:E.
  - exists collected. split; [done|]. split; [apply dom_fmap_L|].
    intros chrom l. rewrite lookup_fmap.
    destruct (collected !! chrom) as [l0|]; simpl; [|discriminate].
    intros [= <-]. split.
    + apply (py_sort_sorted pair_ltb pair_le pair_le_trans pair_ltb_le pair_ltb_ge).
    + exists l0. split; [done|].
      apply (py_sort_perm pair_ltb pair_le pair_le_trans pair_ltb_le pair_ltb_ge).
  - by eapply bed_lines_raises.
Qed.

(** The regions of a file of four lines. *)
Example bed_regions_of_a_file :
  BedRegionParser.parse_bed_regions
    (DepthParser.Lines
       ["# regions";
        "chr1" +:+ String tab "30" +:+ String tab "40";
        "chr2" +:+ String tab "7" +:+ String tab "9";
        "chr1" +:+ String tab "10" +:+ String tab "20" +:+ String tab "name"])
  = Ok {["chr1" := [(10, 20); (30, 40)]; "chr2" := [(7, 9)]]}.
Proof. by vm_compute. Qed.

(** ** Axis ticks *)

Section Ticks.
Import MontageGeometry.

Lemma py_round_inject (x : Q) (z : Z) : (x == inject_Z z)%Q → Montage.py_round x = z.
Proof.
  intros Hx. unfold Montage.py_round.
  assert (Hf : Qfloor x = z) by (rewrite Hx; apply Qfloor_Z).
  rewrite Hf.
  assert (Hlt : Qltb (x - inject_Z z) (1 # 2) = true).
  { apply Qltb_lt. assert (He : (x - inject_Z z == 0)%Q) by (rewrite Hx; ring).
    rewrite He. reflexivity. }
  by rewrite Hlt.
Qed.

Lemma py_range_succ (n : Z) : 0 ≤ n → py_range (n + 1) = py_range n ++ [n].
Proof.
  intros Hn. unfold py_range.
  replace (Z.to_nat (n + 1)) with (S (Z.to_nat n)) by lia.
  rewrite seq_S, map_app. simpl. by rewrite Z2Nat.id.
Qed.

Lemma py_range_head (n : Z) : 1 ≤ n → ∃ rest, py_range n = 0 :: rest.
Proof.
  intros Hn. unfold py_range. destruct (Z.to_nat n) as [|m] eqn:E; [lia|].
  simpl. eauto.
Qed.

End Ticks.

(** X27.  [_axis_ticks] draws as many ticks as asked for, and never fewer
    than 2, plus one, each with a line and a label; the first tick stands
    at the left end with the first position as its label and the last tick
    at the right end with the last position as its label. *)
Theorem axis_ticks_run_from_end_to_end (depth_axis_ticks depth_axis_font_size : Z)
    (xl xr y : Q) (ls le : Z) (above : bool) :
  length (MontageGeometry._axis_ticks depth_axis_ticks depth_axis_font_size xl xr y ls le above)
  = Z.to_nat (2 * (Z.max 2 depth_axis_ticks + 1))
  ∧ length (tick_labels (MontageGeometry._axis_ticks depth_axis_ticks depth_axis_font_size
                           xl xr y ls le above))
    = Z.to_nat (Z.max 2 depth_axis_ticks + 1)
  ∧ (∃ x0, head (tick_labels (MontageGeometry._axis_ticks depth_axis_ticks
                                depth_axis_font_size xl xr y ls le above)) = Some (x0, ls)
           ∧ (x0 == xl)%Q)
  ∧ (∃ x1, last (tick_labels (MontageGeometry._axis_ticks depth_axis_ticks
                                depth_axis_font_size xl xr y ls le above)) = Some (x1, le)
           ∧ (x1 == xr)%Q).
Proof.
  unfold MontageGeometry._axis_ticks.
  set (n := Z.max 2 depth_axis_ticks). assert (Hn : 2 ≤ n) by lia.
  assert (Hn0 : ¬ (inject_Z n == 0)%Q).
  { intros H. unfold Qeq in H. simpl in H. lia. }
  set (f := λ i : Z,
    [MontageGeometry.TickLine (xl + (xr - xl) * (inject_Z i / inject_Z n))
       (y - (if above then 6 # 1 else 0)) (y + (if above then 0 else 6 # 1));
     MontageGeometry.TickLabel (xl + (xr - xl) * (inject_Z i / inject_Z n))
       (y + (if above then - (10 # 1) else 18 # 1)) depth_axis_font_size
       (Montage.py_round (inject_Z ls + inject_Z (le - ls) * (inject_Z i / inject_Z n)))]%Q).
  change (length (flat_map f (py_range (n + 1))) = Z.to_nat (2 * (n + 1))
          ∧ length (tick_labels (flat_map f (py_range (n + 1)))) = Z.to_nat (n + 1)
          ∧ (∃ x0, head (tick_labels (flat_map f (py_range (n + 1)))) = Some (x0, ls)
                   ∧ (x0 == xl)%Q)
          ∧ (∃ x1, last (tick_labels (flat_map f (py_range (n + 1)))) = Some (x1, le)
                   ∧ (x1 == xr)%Q)).
  assert (Hlab : ∀ idxs, tick_labels (flat_map f idxs)
    = map (λ i, ((xl + (xr - xl) * (inject_Z i / inject_Z n))%Q,
                 Montage.py_round (inject_Z ls + inject_Z (le - ls)
                                                 * (inject_Z i / inject_Z n))%Q)) idxs).
  { induction idxs as [|i idxs IH]; [done|].
    change (flat_map f (i :: idxs)) with (f i ++ flat_map f idxs).
    unfold tick_labels in *. rewrite flat_map_app, IH. reflexivity. }
  assert (Hlen : ∀ idxs, length (flat_map f idxs) = (2 * length idxs)%nat).
  { induction idxs as [|i idxs IH]; [done|].
    change (flat_map f (i :: idxs)) with (f i ++ flat_map f idxs).
    rewrite length_app, IH. simpl. lia. }
  rewrite Hlab, Hlen, length_map.
  assert (Hr : length (py_range (n + 1)) = Z.to_nat (n + 1)).
  { unfold py_range. by rewrite length_map, length_seq. }
  rewrite Hr. split; [lia|]. split; [done|]. split.
  - destruct (py_range_head (n + 1)) as [rest ->]; [lia|]. simpl.
    eexists. split; [f_equal; f_equal|].
    + apply py_round_inject. unfold Qdiv. change (inject_Z 0) with 0%Q. ring.
    + unfold Qdiv. change (inject_Z 0) with 0%Q. ring.
  - rewrite py_range_succ by lia. rewrite map_app. simpl. rewrite last_snoc.
    eexists. split; [f_equal; f_equal|].
    + apply py_round_inject. unfold Z.sub. rewrite inject_Z_plus, inject_Z_opp.
      field. exact Hn0.
    + field. exact Hn0.
Qed.

